(** * Query and result heuristics ([modules/heuristics.py])

    A shallow embedding of the heuristics module: Python strings are lists of
    Unicode code points, the [re] calls are run by a small backtracking
    matcher with Python's search order (left-most start, greedy loops,
    ordered alternatives), and every heuristic is a function from a query to
    the pair (new query, fix records) that the Python method returns. *)

From Stdlib Require Import String Ascii.
From Stdlib Require Import List NArith ZArith Bool Lia Arith DecimalPos.
Import ListNotations.
Local Open Scope N_scope.

Set Implicit Arguments.

(** ** Python strings *)

(** A [str] is a sequence of code points. *)
Definition str := list N.

(** ASCII literals of the source are written as Rocq strings. *)
Definition s (x : String.string) : str :=
  map N_of_ascii (String.list_ascii_of_string x).
Arguments s x%_string_scope.

Definition dquote : N := 34.

Fixpoint str_eqb (a b : str) : bool :=
  match a, b with
  | [], [] => true
  | x :: a', y :: b' => (x =? y) && str_eqb a' b'
  | _, _ => false
  end.

(** What the interpreter knows about code points above ASCII and about
    floating point numbers.  The module under study never looks at these
    tables itself; [re], [str.lower], [str.strip] and [json] do. *)
Inductive uclass :=
| UOther                       (* neither white space nor a word character *)
| USpace                       (* str.isspace *)
| UDigit                       (* a decimal digit (category Nd) *)
| UWord (folds_to : option N). (* any other alphanumeric; [Some l] when the
                                  code point is a case variant of the ASCII
                                  letter l, as U+212A is of k *)

Class PyRuntime := {
  uni_class : N -> uclass;     (* consulted for code points >= 128 only *)
  uni_lower : N -> str;        (* str.lower on one code point >= 128 *)
  float_repr : str -> str      (* repr(float(literal)) *)
}.

(** A runtime whose tables are empty above ASCII and whose [float_repr]
    echoes the literal: enough to run the module on ASCII text without
    floating point numbers. *)
Definition ascii_runtime : PyRuntime :=
  {| uni_class := fun _ => UOther;
     uni_lower := fun c => [c];
     float_repr := fun l => l |}.

Section Chars.
Context {R : PyRuntime}.

Definition is_ascii (c : N) : bool := c <? 128.
Definition in_range (lo hi c : N) : bool := (lo <=? c) && (c <=? hi).
Definition is_upper_ascii (c : N) : bool := in_range 65 90 c.
Definition is_lower_ascii (c : N) : bool := in_range 97 122 c.
Definition is_digit_ascii (c : N) : bool := in_range 48 57 c.

(** [\s]: for ASCII this is [ \t\n\r\f\v] and the separators 0x1c..0x1f. *)
Definition is_space (c : N) : bool :=
  if is_ascii c then in_range 9 13 c || in_range 28 32 c
  else match uni_class c with USpace => true | _ => false end.

(** [\d] *)
Definition is_digit (c : N) : bool :=
  if is_ascii c then is_digit_ascii c
  else match uni_class c with UDigit => true | _ => false end.

(** [\w] *)
Definition is_word (c : N) : bool :=
  if is_ascii c
  then is_digit_ascii c || is_upper_ascii c || is_lower_ascii c || (c =? 95)
  else match uni_class c with UDigit | UWord _ => true | _ => false end.

(** The representative of a code point under [re.IGNORECASE]. *)
Definition fold_case (c : N) : N :=
  if is_ascii c then (if is_upper_ascii c then c + 32 else c)
  else match uni_class c with
       | UWord (Some l) => if is_lower_ascii l then l else c
       | _ => c
       end.

Definition char_eq (ignorecase : bool) (p c : N) : bool :=
  if ignorecase then fold_case p =? fold_case c else p =? c.

(** [str.lower] *)
Definition lower (x : str) : str :=
  flat_map (fun c => if is_ascii c then [fold_case c] else uni_lower c) x.

End Chars.

(** ** Regular expressions *)

Inductive citem :=
| CChar (c : N)
| CRange (lo hi : N)
| CDigit
| CWord
| CSpace.

Inductive regex :=
| Eps
| Lit (c : N)
| Cls (items : list citem)
| Dot
| Bnd
| Seq (a b : regex)
| Alt (a b : regex)
| Star (a : regex)
| Group (n : nat) (a : regex).

Fixpoint lits (w : str) : regex :=
  match w with
  | [] => Eps
  | c :: w' => Seq (Lit c) (lits w')
  end.

Definition Plus (a : regex) : regex := Seq a (Star a).
Definition Opt (a : regex) : regex := Alt a Eps.

(** [a{n}] *)
Fixpoint Rep (n : nat) (a : regex) : regex :=
  match n with
  | O => Eps
  | S n' => Seq a (Rep n' a)
  end.

(** [a{0,n}], greedy *)
Fixpoint UpTo (n : nat) (a : regex) : regex :=
  match n with
  | O => Eps
  | S n' => Opt (Seq a (UpTo n' a))
  end.

(** [a{m,n}] with m <= n *)
Definition RepRange (m n : nat) (a : regex) : regex :=
  Seq (Rep m a) (UpTo (n - m) a).

(** [a{m,}] *)
Definition RepFrom (m : nat) (a : regex) : regex := Seq (Rep m a) (Star a).

Fixpoint seqs (l : list regex) : regex :=
  match l with
  | [] => Eps
  | [a] => a
  | a :: l' => Seq a (seqs l')
  end.

(** The matcher's position in the subject: the text already passed (nearest
    character first), the text ahead, and the groups closed so far. *)
Record mstate := MState {
  before : str;
  after : str;
  caps : list (nat * str)
}.

Section Matcher.
Context {R : PyRuntime}.

Definition in_item (ic : bool) (i : citem) (c : N) : bool :=
  match i with
  | CChar p => char_eq ic p c
  | CRange lo hi => in_range lo hi c
  | CDigit => is_digit c
  | CWord => is_word c
  | CSpace => is_space c
  end.

Definition in_class (ic : bool) (items : list citem) (c : N) : bool :=
  existsb (fun i => in_item ic i c) items.

Definition word_at (x : str) : bool :=
  match x with
  | [] => false
  | c :: _ => is_word c
  end.

(** [\b] holds where exactly one side is a word character. *)
Definition at_boundary (bef aft : str) : bool :=
  xorb (word_at bef) (word_at aft).

Definition step_char (p : N -> bool) (st : mstate)
    (k : mstate -> option mstate) : option mstate :=
  match after st with
  | c :: rest =>
      if p c then k (MState (c :: before st) rest (caps st)) else None
  | [] => None
  end.

Definition close_group (n : nat) (st st' : mstate) : mstate :=
  let len := (length (before st') - length (before st))%nat in
  MState (before st') (after st')
         ((n, rev (firstn len (before st'))) :: caps st').

(** The loop of [a*]: [body] is the matcher of [a], [k] the rest of the
    pattern.  It stops when the body fails or consumes nothing, so it runs
    at most once per remaining character; [fuel] counts those. *)
Fixpoint star_loop (body : mstate -> (mstate -> option mstate) -> option mstate)
    (k : mstate -> option mstate) (fuel : nat) (st : mstate)
    : option mstate :=
  match fuel with
  | O => k st
  | S fuel' =>
      match body st
              (fun st' =>
                 if (length (after st') <? length (after st))%nat
                 then star_loop body k fuel' st' else None) with
      | Some res => Some res
      | None => k st
      end
  end.

(** Backtracking match of [r] at [st], then of the rest of the pattern [k]:
    loops are greedy and alternatives are tried in order, as in [re]. *)
Fixpoint rmatch (ic : bool) (r : regex) (st : mstate)
    (k : mstate -> option mstate) {struct r} : option mstate :=
  match r with
  | Eps => k st
  | Lit p => step_char (char_eq ic p) st k
  | Cls items => step_char (in_class ic items) st k
  | Dot => step_char (fun c => negb (c =? 10)) st k
  | Bnd => if at_boundary (before st) (after st) then k st else None
  | Seq a b => rmatch ic a st (fun st' => rmatch ic b st' k)
  | Alt a b =>
      match rmatch ic a st k with
      | Some res => Some res
      | None => rmatch ic b st k
      end
  | Star a => star_loop (rmatch ic a) k (length (after st)) st
  | Group n a => rmatch ic a st (fun st' => k (close_group n st st'))
  end.

(** A match object: where it starts, its text and its groups. *)
Record rmatch_obj := MatchObj {
  m_start : nat;
  m_text : str;
  m_groups : list (nat * str)
}.

Fixpoint group_lookup (n : nat) (l : list (nat * str)) : str :=
  match l with
  | [] => []
  | (i, v) :: l' => if Nat.eqb i n then v else group_lookup n l'
  end.

Definition group (m : rmatch_obj) (n : nat) : str :=
  match n with
  | O => m_text m
  | _ => group_lookup n (m_groups m)
  end.

(** [pattern.match] at one position. *)
Definition match_here (ic : bool) (r : regex) (bef aft : str)
    : option rmatch_obj :=
  match rmatch ic r (MState bef aft []) Some with
  | Some st =>
      Some (MatchObj (length bef)
                     (firstn (length aft - length (after st)) aft)
                     (caps st))
  | None => None
  end.

(** [re.search]: the first position, from the left, where the pattern
    matches. *)
Fixpoint search_from (ic : bool) (r : regex) (bef aft : str)
    : option rmatch_obj :=
  match match_here ic r bef aft with
  | Some m => Some m
  | None =>
      match aft with
      | [] => None
      | c :: rest => search_from ic r (c :: bef) rest
      end
  end.

Definition re_search (ic : bool) (r : regex) (x : str) : option rmatch_obj :=
  search_from ic r [] x.

Definition re_test (ic : bool) (r : regex) (x : str) : bool :=
  match re_search ic r x with Some _ => true | None => false end.

(** [re.finditer]: successive non-overlapping matches, left to right.
    [skip] counts the characters of the last match still to be passed.
    After an empty match the scan moves on by one character (no pattern of
    this module matches the empty string). *)
Fixpoint finditer_from (ic : bool) (r : regex) (bef aft : str) (skip : nat)
    : list rmatch_obj :=
  match skip with
  | S skip' =>
      match aft with
      | [] => []
      | c :: rest => finditer_from ic r (c :: bef) rest skip'
      end
  | O =>
      match match_here ic r bef aft with
      | Some m =>
          m :: match aft with
               | [] => []
               | c :: rest =>
                   finditer_from ic r (c :: bef) rest
                                 (length (m_text m) - 1)
               end
      | None =>
          match aft with
          | [] => []
          | c :: rest => finditer_from ic r (c :: bef) rest 0
          end
      end
  end.

Definition re_finditer (ic : bool) (r : regex) (x : str) : list rmatch_obj :=
  finditer_from ic r [] x 0.

(** [re.findall] for a pattern without groups, and for a pattern with
    exactly one group. *)
Definition re_findall (ic : bool) (r : regex) (x : str) : list str :=
  map m_text (re_finditer ic r x).

Definition re_findall_group (ic : bool) (r : regex) (x : str) : list str :=
  map (fun m => group m 1) (re_finditer ic r x).

(** [re.sub] with a callable: the text between matches is kept, every match
    is replaced by what the callable returns for it. *)
Fixpoint sub_from (ic : bool) (r : regex) (repl : rmatch_obj -> str)
    (bef aft : str) (skip : nat) : str :=
  match skip with
  | S skip' =>
      match aft with
      | [] => []
      | c :: rest => sub_from ic r repl (c :: bef) rest skip'
      end
  | O =>
      match match_here ic r bef aft with
      | Some m =>
          repl m ++
          match aft with
          | [] => []
          | c :: rest =>
              match length (m_text m) with
              | O => c :: sub_from ic r repl (c :: bef) rest 0
              | S n => sub_from ic r repl (c :: bef) rest n
              end
          end
      | None =>
          match aft with
          | [] => []
          | c :: rest => c :: sub_from ic r repl (c :: bef) rest 0
          end
      end
  end.

Definition re_sub_fn (ic : bool) (r : regex) (repl : rmatch_obj -> str)
    (x : str) : str :=
  sub_from ic r repl [] x 0.

(** [re.sub] with a replacement string (none of the module's replacement
    strings holds a backslash or a group reference). *)
Definition re_sub (ic : bool) (r : regex) (repl : str) (x : str) : str :=
  re_sub_fn ic r (fun _ => repl) x.

End Matcher.

(** ** Python string operations used by the module *)

Definition digit_char (d : N) : N := 48 + d.

Fixpoint str_of_uint (d : Decimal.uint) : str :=
  match d with
  | Decimal.Nil => []
  | Decimal.D0 d' => digit_char 0 :: str_of_uint d'
  | Decimal.D1 d' => digit_char 1 :: str_of_uint d'
  | Decimal.D2 d' => digit_char 2 :: str_of_uint d'
  | Decimal.D3 d' => digit_char 3 :: str_of_uint d'
  | Decimal.D4 d' => digit_char 4 :: str_of_uint d'
  | Decimal.D5 d' => digit_char 5 :: str_of_uint d'
  | Decimal.D6 d' => digit_char 6 :: str_of_uint d'
  | Decimal.D7 d' => digit_char 7 :: str_of_uint d'
  | Decimal.D8 d' => digit_char 8 :: str_of_uint d'
  | Decimal.D9 d' => digit_char 9 :: str_of_uint d'
  end.

(** [str(n)] for an int *)
Definition str_of_N (n : N) : str := str_of_uint (N.to_uint n).

Definition str_of_Z (z : Z) : str :=
  match z with
  | Zneg p => 45 :: str_of_N (Npos p)
  | _ => str_of_N (Z.to_N z)
  end.

Fixpoint starts_with (p x : str) : bool :=
  match p, x with
  | [], _ => true
  | a :: p', b :: x' => (a =? b) && starts_with p' x'
  | _ :: _, [] => false
  end.

(** [p in x] *)
Fixpoint contains (p x : str) : bool :=
  starts_with p x ||
  match x with
  | [] => false
  | _ :: x' => contains p x'
  end.

Definition ends_with (p x : str) : bool := starts_with (rev p) (rev x).

(** [x.replace(old, new)]: every occurrence, left to right, without
    overlap.  [skip] counts the characters of the occurrence being passed. *)
Fixpoint replace_from (old new : str) (x : str) (skip : nat) : str :=
  match skip with
  | S skip' =>
      match x with
      | [] => []
      | _ :: x' => replace_from old new x' skip'
      end
  | O =>
      match x with
      | [] => []
      | c :: x' =>
          if starts_with old x
          then new ++ replace_from old new x' (length old - 1)
          else c :: replace_from old new x' 0
      end
  end.

Definition str_replace (old new x : str) : str :=
  match old with
  | [] => new ++ flat_map (fun c => c :: new) x
  | _ => replace_from old new x 0
  end.

(** [x.split(sep)] for a one-character separator *)
Fixpoint split_on (sep : N) (x : str) : list str :=
  match x with
  | [] => [[]]
  | c :: x' =>
      if c =? sep then [] :: split_on sep x'
      else match split_on sep x' with
           | [] => [[c]]
           | p :: ps => (c :: p) :: ps
           end
  end.

(** [x.zfill(width)] for a string without a sign *)
Definition zfill (width : nat) (x : str) : str :=
  repeat (digit_char 0) (width - length x) ++ x.

(** [x[-n:]] *)
Definition last_n (n : nat) (x : str) : str := skipn (length x - n) x.

(** [x[:n]] for any int [n]: a negative bound counts from the end. *)
Definition slice_to (x : str) (n : Z) : str :=
  if (n <? 0)%Z
  then firstn (length x - Z.to_nat (- n)) x
  else firstn (Z.to_nat n) x.

Section Strip.
Context {R : PyRuntime}.

Fixpoint lstrip (x : str) : str :=
  match x with
  | c :: x' => if is_space c then lstrip x' else x
  | [] => []
  end.

Fixpoint rstrip (x : str) : str :=
  match x with
  | c :: x' =>
      match rstrip x' with
      | [] => if is_space c then [] else [c]
      | r => c :: r
      end
  | [] => []
  end.

(** [x.strip()]: white space is dropped at both ends. *)
Definition strip (x : str) : str := rstrip (lstrip x).

End Strip.

(** ** QueryHeuristics *)

Definition fix_record := str.

Section QueryHeuristics.
Context {R : PyRuntime}.

(** [re.escape] leaves letters alone and escapes the rest, so every
    character of the word stands for itself. *)
Definition re_escape (w : str) : regex := lits w.

(** [r'\b' + re.escape(word) + r'\b'] *)
Definition whole_word (w : str) : regex := Seq Bnd (Seq (re_escape w) Bnd).

Definition common_typos : list (str * str) :=
  [ (s "clendar", s "calendar");
    (s "calander", s "calendar");
    (s "schedual", s "schedule");
    (s "scedule", s "schedule");
    (s "emaill", s "email");
    (s "emial", s "email");
    (s "docuemnt", s "document");
    (s "documnet", s "document");
    (s "serach", s "search");
    (s "summery", s "summary");
    (s "summerize", s "summarize") ].

Definition typo_fix (typo correction : str) : fix_record :=
  s "Corrected typo: '" ++ typo ++ s "' to '" ++ correction ++ s "'".

(** The body of the loop over the typo table. *)
Definition fix_typos_step (acc : str * list fix_record) (e : str * str)
    : str * list fix_record :=
  let (corrected_query, fixes) := acc in
  let (typo, correction) := e in
  if re_test true (whole_word typo) corrected_query
  then (re_sub true (whole_word typo) correction corrected_query,
        fixes ++ [typo_fix typo correction])
  else acc.

(** Heuristic 1 *)
Definition fix_typos (query : str) : str * list fix_record :=
  fold_left fix_typos_step common_typos (query, []).

Definition banned_words : list str :=
  [ s "hack"; s "exploit"; s "vulnerability"; s "illegal"; s "password";
    s "credit card"; s "ssn"; s "social security"; s "porn"; s "xxx" ].

Definition filtered : str := s "[FILTERED]".

Definition banned_fix (word : str) : fix_record :=
  s "Removed banned word: '" ++ word ++ s "'".

Definition remove_banned_step (acc : str * list fix_record) (word : str)
    : str * list fix_record :=
  let (clean_query, fixes) := acc in
  if re_test true (whole_word word) clean_query
  then (re_sub true (whole_word word) filtered clean_query,
        fixes ++ [banned_fix word])
  else acc.

(** Heuristic 2 *)
Definition remove_banned_words (query : str) : str * list fix_record :=
  fold_left remove_banned_step banned_words (query, []).

Definition digit : regex := Cls [CDigit].

(** [(\d{1,2})/(\d{1,2})/(\d{2}|\d{4})] *)
Definition date_pattern : regex :=
  seqs [ Group 1 (RepRange 1 2 digit); Lit 47;
         Group 2 (RepRange 1 2 digit); Lit 47;
         Group 3 (Alt (Rep 2 digit) (Rep 4 digit)) ].

(** [str(current_year)[:2]] *)
Definition century (current_year : N) : str :=
  firstn 2 (str_of_N current_year).

(** The three strings [date_replacer] works with: month and day padded, the
    year with the century of the current year put in front when it has two
    characters. *)
Definition date_parts (current_year : N) (m : rmatch_obj)
    : str * str * str :=
  let month := zfill 2 (group m 1) in
  let day := zfill 2 (group m 2) in
  let year := group m 3 in
  let year :=
    if Nat.eqb (length year) 2
    then century current_year ++ year
    else year in
  (month, day, year).

Definition date_iso (current_year : N) (m : rmatch_obj) : str :=
  let '(month, day, year) := date_parts current_year m in
  year ++ s "-" ++ month ++ s "-" ++ day.

Definition date_fix (current_year : N) (m : rmatch_obj) : fix_record :=
  let '(month, day, year) := date_parts current_year m in
  s "Normalized date format: " ++ month ++ s "/" ++ day ++ s "/" ++
  last_n 2 year ++ s " to " ++ year ++ s "-" ++ month ++ s "-" ++ day.

(** Heuristic 3.  [date_replacer] appends one record per call, and [re.sub]
    calls it once per match, left to right. *)
Definition normalize_date_formats (current_year : N) (query : str)
    : str * list fix_record :=
  (re_sub_fn false date_pattern (date_iso current_year) query,
   map (date_fix current_year) (re_finditer false date_pattern query)).

Definition alnum_items : list citem :=
  [ CRange 65 90; CRange 97 122; CRange 48 57 ].

(** [\b[A-Za-z0-9._%+-]+@[A-Za-z0-9.-]+\.[A-Z|a-z]{2,}\b] *)
Definition email_pattern : regex :=
  seqs [ Bnd;
         Plus (Cls (alnum_items ++
                    [CChar 46; CChar 95; CChar 37; CChar 43; CChar 45]));
         Lit 64;
         Plus (Cls (alnum_items ++ [CChar 46; CChar 45]));
         Lit 46;
         RepFrom 2 (Cls [CRange 65 90; CChar 124; CRange 97 122]);
         Bnd ].

Definition common_domains : list (str * str) :=
  [ (s "gmal.com", s "gmail.com");
    (s "gamil.com", s "gmail.com");
    (s "gmial.com", s "gmail.com");
    (s "hotmial.com", s "hotmail.com");
    (s "yaho.com", s "yahoo.com");
    (s "outlok.com", s "outlook.com") ].

Definition email_fix (email corrected_email : str) : fix_record :=
  s "Corrected email domain: '" ++ email ++ s "' to '" ++
  corrected_email ++ s "'".

(** The body of the loop over the emails found.  [email.split('@')[1]]
    cannot fail: every match of the pattern holds an [@]. *)
Definition email_step (acc : str * list fix_record) (email : str)
    : str * list fix_record :=
  let domain := nth 1 (split_on 64 email) [] in
  fold_left
    (fun (acc : str * list fix_record) (e : str * str) =>
       let (validated_query, fixes) := acc in
       let (typo_domain, correct_domain) := e in
       if str_eqb domain typo_domain
       then
         let corrected_email := str_replace typo_domain correct_domain email in
         (str_replace email corrected_email validated_query,
          fixes ++ [email_fix email corrected_email])
       else acc)
    common_domains acc.

(** Heuristic 4 *)
Definition validate_email_format (query : str) : str * list fix_record :=
  fold_left email_step (re_findall false email_pattern query) (query, []).

(** The unsafe patterns, each with its source text (which the warning
    quotes). *)
Definition unsafe_patterns : list (str * regex) :=
  [ (s "\brm\s+-rf\b",
     seqs [Bnd; lits (s "rm"); Plus (Cls [CSpace]); lits (s "-rf"); Bnd]);
    (s "\bsudo\b", seqs [Bnd; lits (s "sudo"); Bnd]);
    (s "\bchmod\b\s+777",
     seqs [Bnd; lits (s "chmod"); Bnd; Plus (Cls [CSpace]); lits (s "777")]);
    (s "\bdd\b.*\bif=/dev\b",
     seqs [Bnd; lits (s "dd"); Bnd; Star Dot; Bnd; lits (s "if=/dev"); Bnd]);
    (s "\bmkfs\b", seqs [Bnd; lits (s "mkfs"); Bnd]);
    (s "\bformat\b.*\bdisk\b",
     seqs [Bnd; lits (s "format"); Bnd; Star Dot; Bnd; lits (s "disk"); Bnd])
  ].

Definition unsafe_warning (pattern : str) : fix_record :=
  s "WARNING: Potentially unsafe command detected: " ++ pattern.

(** Heuristic 5 *)
Definition detect_unsafe_commands (query : str) : str * list fix_record :=
  (query,
   fold_left
     (fun (fixes : list fix_record) (p : str * regex) =>
        if re_test true (snd p) query
        then fixes ++ [unsafe_warning (fst p)]
        else fixes)
     unsafe_patterns []).

(** [https?://(?:[-\w.]|(?:%[\da-fA-F]{2}))+] *)
Definition url_pattern : regex :=
  seqs [ lits (s "http"); Opt (Lit 115); lits (s "://");
         Plus (Alt (Cls [CChar 45; CWord; CChar 46])
                   (Seq (Lit 37)
                        (Rep 2 (Cls [CDigit; CRange 97 102; CRange 65 70])))) ].

Definition suspicious_patterns : list str :=
  [ s "malware"; s "phish"; s "hack"; s "crack"; s "warez"; s "porn";
    s "xxx" ].

Definition filtered_url : str := s "[FILTERED_URL]".

Definition url_fix (pattern : str) : fix_record :=
  s "Removed suspicious URL containing '" ++ pattern ++ s "'".

(** The first suspicious pattern found in the URL, if any ([break]). *)
Definition first_suspicious (url : str) : option str :=
  find (fun p => re_test true (lits p) url) suspicious_patterns.

(** Heuristic 6 *)
Definition validate_urls (query : str) : str * list fix_record :=
  fold_left
    (fun (acc : str * list fix_record) (url : str) =>
       let (clean_query, fixes) := acc in
       match first_suspicious url with
       | Some pattern =>
           (str_replace url filtered_url clean_query,
            fixes ++ [url_fix pattern])
       | None => acc
       end)
    (re_findall false url_pattern query) (query, []).

Definition euro : N := 8364.
Definition pound : N := 163.
Definition yen : N := 165.

(** [[$€£¥](\d{1,3}(?:,\d{3})+|\d+)(?:\.\d+)?] *)
Definition currency_pattern : regex :=
  seqs [ Cls [CChar 36; CChar euro; CChar pound; CChar yen];
         Group 1 (Alt (Seq (RepRange 1 3 digit)
                           (Plus (Seq (Lit 44) (Rep 3 digit))))
                      (Plus digit));
         Opt (Seq (Lit 46) (Plus digit)) ].

Definition currency_plain (m : rmatch_obj) : str :=
  let value := group m 0 in
  let symbol := firstn 1 value in
  let numeric_part := str_replace [44] [] (skipn 1 value) in
  symbol ++ numeric_part.

Definition currency_fix (m : rmatch_obj) : fix_record :=
  s "Normalized currency value: " ++ group m 0 ++ s " to " ++
  currency_plain m.

(** Heuristic 7.  [currency_replacer] appends one record per call. *)
Definition normalize_numeric_values (query : str) : str * list fix_record :=
  (re_sub_fn false currency_pattern currency_plain query,
   map currency_fix (re_finditer false currency_pattern query)).

Definition sep_opt : regex := Opt (Cls [CChar 45; CSpace]).

(** [\b(?:\d{4}[-\s]?){3}\d{4}\b] *)
Definition cc_pattern : regex :=
  seqs [ Bnd; Rep 3 (Seq (Rep 4 digit) sep_opt); Rep 4 digit; Bnd ].

(** [\b\d{3}[-\s]?\d{2}[-\s]?\d{4}\b] *)
Definition ssn_pattern : regex :=
  seqs [ Bnd; Rep 3 digit; sep_opt; Rep 2 digit; sep_opt; Rep 4 digit; Bnd ].

(** Heuristic 8 *)
Definition detect_pii (query : str) : str * list fix_record :=
  let (query, fixes) :=
    if re_test false cc_pattern query
    then (re_sub false cc_pattern (s "[REDACTED_CARD_NUMBER]") query,
          [s "Redacted potential credit card number"])
    else (query, []) in
  if re_test false ssn_pattern query
  then (re_sub false ssn_pattern (s "[REDACTED_SSN]") query,
        fixes ++ [s "Redacted potential Social Security Number"])
  else (query, fixes).

(** [\s+] *)
Definition spaces_pattern : regex := Plus (Cls [CSpace]).

(** Heuristic 9 *)
Definition remove_excessive_whitespace (query : str)
    : str * list fix_record :=
  let cleaned_query := strip (re_sub false spaces_pattern [32] query) in
  if negb (str_eqb cleaned_query query)
  then (cleaned_query, [s "Removed excessive whitespace"])
  else (cleaned_query, []).

Definition len (x : str) : Z := Z.of_nat (length x).

Definition truncation_fix (query : str) (max_length : Z) : fix_record :=
  s "Truncated query from " ++ str_of_Z (len query) ++ s " to " ++
  str_of_Z max_length ++ s " characters".

(** Heuristic 10 *)
Definition limit_query_length (query : str) (max_length : Z)
    : str * list fix_record :=
  if (len query >? max_length)%Z
  then (slice_to query max_length ++ s "...",
        [truncation_fix query max_length])
  else (query, []).

Definition default_max_length : Z := 500.

(** The ten heuristics in the order of the list in
    [validate_and_fix_query]. *)
Definition heuristics (current_year : N)
    : list (str -> str * list fix_record) :=
  [ fix_typos;
    remove_banned_words;
    normalize_date_formats current_year;
    validate_email_format;
    detect_unsafe_commands;
    validate_urls;
    normalize_numeric_values;
    detect_pii;
    remove_excessive_whitespace;
    fun q => limit_query_length q default_max_length ].

(** The body of the loop of [validate_and_fix_query]. *)
Definition run_heuristic (acc : str * list fix_record)
    (heuristic_fn : str -> str * list fix_record) : str * list fix_record :=
  let (query, applied_fixes) := acc in
  let (query, fixes) := heuristic_fn query in
  (query, applied_fixes ++ fixes).

Definition validate_and_fix_query (current_year : N) (query : str)
    : str * list fix_record :=
  fold_left run_heuristic (heuristics current_year) (query, []).

Definition apply_heuristics (current_year : N) (query : str)
    : str * list fix_record :=
  validate_and_fix_query current_year query.

End QueryHeuristics.

(** ** The [json] module, as far as [validate_tool_output] uses it *)

(** The exceptions that [json.loads] and [json.dumps] raise on a text or a
    value and that are not a [JSONDecodeError]. *)
Inductive exn :=
| ValueError        (* an integer of more digits than the interpreter allows *)
| RecursionError.   (* arrays and objects nested deeper than its stack *)

(** What a call gives back: the value it returns, or the exception that
    leaves it. *)
Inductive outcome (A : Type) :=
| Returns (a : A)
| Raises (e : exn).

Arguments Returns {A} a.
Arguments Raises {A} e.

(** What parsing gives: a value, the [JSONDecodeError] of a text that is
    not JSON, or another exception. *)
Inductive parse (A : Type) :=
| Parsed (a : A)
| JSONDecodeError
| OtherError (e : exn).

Arguments Parsed {A} a.
Arguments JSONDecodeError {A}.
Arguments OtherError {A} e.

(** The limits of the interpreter that a text can run into, as the scanner
    and the encoder of CPython 3.11 (the C module [_json]) meet them. *)
Class PyLimits := {
  int_max_str_digits : nat;   (* sys.get_int_max_str_digits(): 0 for no
                                 limit, otherwise 640 or more *)
  recursion_room : nat;       (* the arrays and objects, one inside the
                                 other, that the scanner or the encoder can
                                 enter before Py_EnterRecursiveCall fails *)
  report_room : nat           (* the nesting up to which the scanner still
                                 has the stack to build the JSONDecodeError
                                 that it raises itself *)
}.

(** CPython 3.11 as it is started, with a digit limit of 4300 and a
    recursion limit of 1000, for a call of [validate_result] at the top
    level of a script: 993 levels are left when the scanner starts, and
    building a [JSONDecodeError] inside the scanner takes three of them. *)
Definition cpython_limits : PyLimits :=
  {| int_max_str_digits := 4300;
     recursion_room := 993;
     report_room := 990 |}.

#[local] Unset Elimination Schemes.
Inductive json :=
| JNull
| JBool (b : bool)
| JInt (z : Z)
| JFloat (literal : str)      (* a number written with a fraction or exponent *)
| JNaN
| JInfinity (negative : bool)
| JStr (x : str)
| JArr (items : list json)
| JObj (pairs : list (str * json)).
#[local] Set Elimination Schemes.

Definition is_json_ws (c : N) : bool :=
  (c =? 32) || (c =? 9) || (c =? 10) || (c =? 13).

Fixpoint skip_ws (x : str) : str :=
  match x with
  | c :: x' => if is_json_ws c then skip_ws x' else x
  | [] => []
  end.

Definition hex_value (c : N) : option N :=
  if in_range 48 57 c then Some (c - 48)
  else if in_range 97 102 c then Some (c - 87)
  else if in_range 65 70 c then Some (c - 55)
  else None.

(** Four hexadecimal digits *)
Definition hex4 (x : str) : option (N * str) :=
  match x with
  | a :: b :: c :: d :: rest =>
      match hex_value a, hex_value b, hex_value c, hex_value d with
      | Some a, Some b, Some c, Some d =>
          Some (((a * 16 + b) * 16 + c) * 16 + d, rest)
      | _, _, _, _ => None
      end
  | _ => None
  end.

Definition simple_escape (c : N) : option N :=
  if c =? 34 then Some 34           (* backslash quote *)
  else if c =? 92 then Some 92      (* \\ *)
  else if c =? 47 then Some 47      (* \/ *)
  else if c =? 98 then Some 8       (* \b *)
  else if c =? 102 then Some 12     (* \f *)
  else if c =? 110 then Some 10     (* \n *)
  else if c =? 114 then Some 13     (* \r *)
  else if c =? 116 then Some 9      (* \t *)
  else None.

Definition after_prefix (p x : str) : option str :=
  if starts_with p x then Some (skipn (length p) x) else None.

(** The text behind the character [c], when the text begins with it. *)
Definition next_is (c : N) (x : str) : option str :=
  match x with
  | d :: r => if d =? c then Some r else None
  | [] => None
  end.

Definition is_high_surrogate (u : N) : bool := in_range 55296 56319 u.
Definition is_low_surrogate (u : N) : bool := in_range 56320 57343 u.

(** The code point of a [\uXXXX] escape, from its four digits on.  A high
    surrogate directly followed by the escape of a low surrogate makes one
    code point with it. *)
Definition scan_u_escape (x : str) : option (N * str) :=
  match hex4 x with
  | None => None
  | Some (u, rest) =>
      if is_high_surrogate u then
        match after_prefix [92; 117] rest with
        | None => Some (u, rest)
        | Some r2 =>
            match hex4 r2 with
            | None => None
            | Some (u2, r3) =>
                if is_low_surrogate u2
                then Some (65536 + (u - 55296) * 1024 + (u2 - 56320), r3)
                else Some (u, rest)
            end
        end
      else Some (u, rest)
  end.

(** One character of a string literal, or its end: [Some (None, r)] at the
    closing quote, [Some (Some ch, r)] for a character, [None] for an
    error (strict mode: no raw control characters). *)
Definition scan_char (x : str) : option (option N * str) :=
  match x with
  | [] => None
  | c :: rest =>
      if c =? 34 then Some (None, rest)
      else if c =? 92 then
        match rest with
        | [] => None
        | e :: rest' =>
            if e =? 117 then
              match scan_u_escape rest' with
              | Some (ch, r) => Some (Some ch, r)
              | None => None
              end
            else
              match simple_escape e with
              | Some ch => Some (Some ch, rest')
              | None => None
              end
        end
      else if c <? 32 then None
      else Some (Some c, rest)
  end.

(** The text of a string literal after its opening quote. *)
Fixpoint scanstring (fuel : nat) (x : str) : option (str * str) :=
  match fuel with
  | O => None
  | S fuel' =>
      match scan_char x with
      | None => None
      | Some (None, r) => Some ([], r)
      | Some (Some ch, r) =>
          match scanstring fuel' r with
          | Some (v, r') => Some (ch :: v, r')
          | None => None
          end
      end
  end.

Fixpoint take_digits (x : str) : str * str :=
  match x with
  | c :: x' =>
      if is_digit_ascii c
      then let (d, r) := take_digits x' in (c :: d, r)
      else ([], x)
  | [] => ([], [])
  end.

Definition digits_value (d : str) : N :=
  fold_left (fun acc c => acc * 10 + (c - 48)) d 0.

(** The integer part of a number: an optional minus, then either a single
    0 or a digit 1..9 followed by any digits (first group of NUMBER_RE). *)
Definition match_int_part (x : str) : option (str * str) :=
  let (sign, x') :=
    match next_is 45 x with
    | Some x' => ([45], x')
    | None => ([], x)
    end in
  match x' with
  | c :: r =>
      if c =? 48 then Some (sign ++ [c], r)
      else if in_range 49 57 c
      then let (d, r') := take_digits x' in Some (sign ++ d, r')
      else None
  | [] => None
  end.

(** [(\.[0-9]+)?] *)
Definition match_frac (x : str) : str * str :=
  match next_is 46 x with
  | Some x' =>
      match take_digits x' with
      | ([], _) => ([], x)
      | (d, r) => (46 :: d, r)
      end
  | None => ([], x)
  end.

(** [([eE][-+]?[0-9]+)?] *)
Definition match_exp (x : str) : str * str :=
  match x with
  | e :: x' =>
      if (e =? 101) || (e =? 69) then
        let (sign, x'') :=
          match x' with
          | c :: x'' =>
              if (c =? 45) || (c =? 43) then ([c], x'') else ([], x')
          | [] => ([], x')
          end in
        match take_digits x'' with
        | ([], _) => ([], x)
        | (d, r) => (e :: sign ++ d, r)
        end
      else ([], x)
  | [] => ([], x)
  end.

Definition int_value (integer : str) : Z :=
  match next_is 45 integer with
  | Some d => (- Z.of_N (digits_value d))%Z
  | None => Z.of_N (digits_value integer)
  end.

(** The digits of an integer literal, without its sign. *)
Definition int_digits (integer : str) : str :=
  match next_is 45 integer with
  | Some d => d
  | None => integer
  end.

Section Scanner.
Context {L : PyLimits}.

(** [int] refuses a literal of more digits than the limit. *)
Definition over_digit_limit (digits : nat) : bool :=
  (0 <? int_max_str_digits)%nat && (int_max_str_digits <? digits)%nat.

(** A number.  Here and in [scan_atom], [JSONDecodeError] stands for the
    StopIteration of a scanner that finds no value: the decoder turns it
    into the JSONDecodeError once the scanner has returned. *)
Definition match_number (x : str) : parse (json * str) :=
  match match_int_part x with
  | None => JSONDecodeError
  | Some (integer, r1) =>
      let (frac, r2) := match_frac r1 in
      let (exp, r3) := match_exp r2 in
      match frac, exp with
      | [], [] =>
          if over_digit_limit (length (int_digits integer))
          then OtherError ValueError
          else Parsed (JInt (int_value integer), r3)
      | _, _ => Parsed (JFloat (integer ++ frac ++ exp), r3)
      end
  end.

Definition constants : list (str * json) :=
  [ (s "null", JNull); (s "true", JBool true); (s "false", JBool false) ].

Definition special_numbers : list (str * json) :=
  [ (s "NaN", JNaN); (s "Infinity", JInfinity false);
    (s "-Infinity", JInfinity true) ].

Fixpoint scan_word (table : list (str * json)) (x : str)
    : option (json * str) :=
  match table with
  | [] => None
  | (word, v) :: table' =>
      match after_prefix word x with
      | Some r => Some (v, r)
      | None => scan_word table' x
      end
  end.

(** The constants, tried in the scanner's order around the number.  NaN,
    Infinity and -Infinity are made by a call of [parse_constant], which
    takes one level of the stack. *)
Definition scan_atom (depth : nat) (x : str) : parse (json * str) :=
  match scan_word constants x with
  | Some res => Parsed res
  | None =>
      match match_number x with
      | JSONDecodeError =>
          match scan_word special_numbers x with
          | Some res =>
              if (depth <? recursion_room)%nat then Parsed res
              else OtherError RecursionError
          | None => JSONDecodeError
          end
      | res => res
      end
  end.

(** A [dict] built from the pairs in order: a repeated key keeps its first
    position and takes the last value. *)
Fixpoint dict_set (k : str) (v : json) (d : list (str * json))
    : list (str * json) :=
  match d with
  | [] => [(k, v)]
  | (k', v') :: d' =>
      if str_eqb k k' then (k', v) :: d' else (k', v') :: dict_set k v d'
  end.

Definition dict_of_pairs (pairs : list (str * json)) : list (str * json) :=
  fold_left (fun d kv => dict_set (fst kv) (snd kv) d) pairs [].

Inductive scan_mode :=
| ScanValue                                 (* scan_once *)
| ScanArray (values : list json)            (* JSONArray, before a value *)
| ScanObject (pairs : list (str * json)).   (* JSONObject, after the quote
                                               that opens a key *)

(** The fuel a string literal needs: one unit per character and one for
    the closing quote. *)
Definition string_fuel (x : str) : nat := S (length x).

(** A [JSONDecodeError] that the scanner raises itself, inside [depth]
    arrays and objects: building it needs stack, and where there is none
    left a [RecursionError] is raised instead. *)
Definition decode_error_at {A : Type} (depth : nat) : parse A :=
  if (depth <=? report_room)%nat then JSONDecodeError
  else OtherError RecursionError.

(** The recursive-descent scanner, inside [depth] arrays and objects.  An
    array or an object is entered through Py_EnterRecursiveCall, before
    anything of it is read.  Every call uses up one unit of fuel;
    [scan_fuel] below is enough for it never to run out. *)
Fixpoint scan (fuel : nat) (depth : nat) (mode : scan_mode) (x : str)
    : parse (json * str) :=
  match fuel with
  | O => JSONDecodeError
  | S fuel' =>
      match mode with
      | ScanValue =>
          match next_is 34 x with
          | Some rest =>
              match scanstring (string_fuel rest) rest with
              | Some (v, r) => Parsed (JStr v, r)
              | None => decode_error_at depth
              end
          | None =>
          match next_is 123 x with
          | Some rest =>
              if (depth <? recursion_room)%nat then
                match next_is 125 (skip_ws rest) with
                | Some r => Parsed (JObj [], r)
                | None =>
                    match next_is 34 (skip_ws rest) with
                    | Some r => scan fuel' (S depth) (ScanObject []) r
                    | None => decode_error_at (S depth)
                    end
                end
              else OtherError RecursionError
          | None =>
          match next_is 91 x with
          | Some rest =>
              if (depth <? recursion_room)%nat then
                match next_is 93 (skip_ws rest) with
                | Some r => Parsed (JArr [], r)
                | None => scan fuel' (S depth) (ScanArray []) (skip_ws rest)
                end
              else OtherError RecursionError
          | None => scan_atom depth x
          end end end
      | ScanArray values =>
          match scan fuel' depth ScanValue x with
          | Parsed (v, r) =>
              match next_is 93 (skip_ws r) with
              | Some r' => Parsed (JArr (values ++ [v]), r')
              | None =>
                  match next_is 44 (skip_ws r) with
                  | Some r' =>
                      scan fuel' depth (ScanArray (values ++ [v]))
                           (skip_ws r')
                  | None => decode_error_at depth
                  end
              end
          | JSONDecodeError => JSONDecodeError
          | OtherError e => OtherError e
          end
      | ScanObject pairs =>
          match scanstring (string_fuel x) x with
          | None => decode_error_at depth
          | Some (key, r) =>
              match next_is 58 (skip_ws r) with
              | None => decode_error_at depth
              | Some r' =>
                  match scan fuel' depth ScanValue (skip_ws r') with
                  | Parsed (v, r'') =>
                      match next_is 125 (skip_ws r'') with
                      | Some r3 =>
                          Parsed (JObj (dict_of_pairs (pairs ++ [(key, v)])),
                                  r3)
                      | None =>
                          match next_is 44 (skip_ws r'') with
                          | None => decode_error_at depth
                          | Some r3 =>
                              match next_is 34 (skip_ws r3) with
                              | Some r4 =>
                                  scan fuel' depth
                                       (ScanObject (pairs ++ [(key, v)])) r4
                              | None => decode_error_at depth
                              end
                          end
                      end
                  | JSONDecodeError => JSONDecodeError
                  | OtherError e => OtherError e
                  end
              end
          end
      end
  end.

(** The calls the scanner can make on a text, at most. *)
Definition scan_need (mode : scan_mode) (x : str) : nat :=
  2 * length x + match mode with ScanValue => 0 | _ => 1 end.

Definition scan_fuel (x : str) : nat := S (scan_need ScanValue x).

Definition bom : N := 65279.

(** [json.loads] of a [str]. *)
Definition json_loads (x : str) : parse json :=
  if starts_with [bom] x then JSONDecodeError
  else
    match scan (scan_fuel (skip_ws x)) 0 ScanValue (skip_ws x) with
    | Parsed (v, r) =>
        match skip_ws r with
        | [] => Parsed v
        | _ => JSONDecodeError
        end
    | JSONDecodeError => JSONDecodeError
    | OtherError e => OtherError e
    end.

End Scanner.

Definition hex_digit (d : N) : N := if d <? 10 then 48 + d else 87 + d.

(** [\uXXXX] *)
Definition u_escape (c : N) : str :=
  [92; 117; hex_digit (c / 4096 mod 16); hex_digit (c / 256 mod 16);
   hex_digit (c / 16 mod 16); hex_digit (c mod 16)].

(** One character of [encode_basestring_ascii] *)
Definition escape_char (c : N) : str :=
  if c =? 34 then [92; 34]
  else if c =? 92 then [92; 92]
  else if c =? 10 then [92; 110]
  else if c =? 13 then [92; 114]
  else if c =? 9 then [92; 116]
  else if c =? 12 then [92; 102]
  else if c =? 8 then [92; 98]
  else if in_range 32 126 c then [c]
  else if c <? 65536 then u_escape c
  else
    let n := c - 65536 in
    u_escape (55296 + n / 1024 mod 1024) ++ u_escape (56320 + n mod 1024).

Definition encode_string (x : str) : str :=
  dquote :: flat_map escape_char x ++ [dquote].

(** [", ".join(parts)] *)
Fixpoint join (sep : str) (parts : list str) : str :=
  match parts with
  | [] => []
  | [p] => p
  | p :: ps => p ++ sep ++ join sep ps
  end.

(** The first exception of a list of checks. *)
Fixpoint first_exn (checks : list (option exn)) : option exn :=
  match checks with
  | [] => None
  | Some e :: _ => Some e
  | None :: checks' => first_exn checks'
  end.

(** [str(z)] has more than [n] digits. *)
Definition longer_than (n : nat) (z : Z) : bool :=
  (10 ^ Z.of_nat n <=? Z.abs z)%Z.

Section Dumps.
Context {R : PyRuntime} {L : PyLimits}.

(** The text that [json.dumps] builds, with its default separators and
    [ensure_ascii]. *)
Fixpoint json_text (v : json) : str :=
  match v with
  | JNull => s "null"
  | JBool true => s "true"
  | JBool false => s "false"
  | JInt z => str_of_Z z
  | JFloat literal => float_repr literal
  | JNaN => s "NaN"
  | JInfinity false => s "Infinity"
  | JInfinity true => s "-Infinity"
  | JStr x => encode_string x
  | JArr items => s "[" ++ join (s ", ") (map json_text items) ++ s "]"
  | JObj pairs =>
      s "{" ++
      join (s ", ")
           (map (fun kv => encode_string (fst kv) ++ s ": " ++
                           json_text (snd kv)) pairs) ++
      s "}"
  end.

(** The exception that the encoder runs into first, if any: it enters a
    list or a dict through Py_EnterRecursiveCall as the scanner does, and
    [str] refuses an integer of more digits than the limit. *)
Fixpoint encoder_exn (depth : nat) (v : json) : option exn :=
  match v with
  | JInt z =>
      if (0 <? int_max_str_digits)%nat && longer_than int_max_str_digits z
      then Some ValueError
      else None
  | JArr items =>
      if (depth <? recursion_room)%nat
      then first_exn (map (encoder_exn (S depth)) items)
      else Some RecursionError
  | JObj pairs =>
      if (depth <? recursion_room)%nat
      then first_exn (map (fun kv => encoder_exn (S depth) (snd kv)) pairs)
      else Some RecursionError
  | _ => None
  end.

(** [json.dumps] of a value that [json.loads] has returned. *)
Definition json_dumps (v : json) : outcome str :=
  match encoder_exn 0 v with
  | Some e => Raises e
  | None => Returns (json_text v)
  end.

End Dumps.

(** ** ResultHeuristics *)

Section ToolOutput.
Context {R : PyRuntime} {L : PyLimits}.

Definition invalid_json_message (tool_name : str) : str :=
  s "Invalid JSON output from " ++ tool_name.

(** (is_valid, fixed_output, messages) when the function returns; [None]
    in the middle is Python's [None].  Only [JSONDecodeError] is caught:
    any other exception of [json.loads] or [json.dumps] leaves the
    function. *)
Definition validate_tool_output (tool_name output : str)
    : outcome (bool * option str * list str) :=
  if ends_with (s "_json") tool_name || contains (s "json") tool_name
  then
    match json_loads output with
    | Parsed json_output =>
        match json_dumps json_output with
        | Returns text => Returns (true, Some text, [])
        | Raises e => Raises e
        end
    | JSONDecodeError =>
        Returns (false, None, [invalid_json_message tool_name])
    | OtherError e => Raises e
    end
  else Returns (true, Some output, []).

Definition validate_result (tool_name output : str)
    : outcome (bool * option str * list str) :=
  validate_tool_output tool_name output.

End ToolOutput.

Section ResultHeuristics.
Context {R : PyRuntime}.

Definition letters : regex := Cls [CRange 65 90; CRange 97 122].

(** [\b[A-Za-z]+\b] *)
Definition term_pattern : regex := seqs [Bnd; Plus letters; Bnd].

Definition capitalized : regex :=
  Seq (Cls [CRange 65 90]) (Plus (Cls [CRange 97 122])).

(** [entities_pattern]: one of the, a, an (lower case), white space, then
    group 1: [[A-Z][a-z]+] followed by any number of [\s+[A-Z][a-z]+]. *)
Definition entities_pattern : regex :=
  seqs [ Alt (lits (s "the")) (Seq (Lit 97) (Opt (Lit 110)));
         Plus (Cls [CSpace]);
         Group 1 (Seq capitalized
                      (Star (Seq (Plus (Cls [CSpace])) capitalized))) ].

(** The word tokens of a text, lower-cased. *)
Definition terms (x : str) : list str :=
  re_findall false term_pattern (lower x).

(** [set(a).intersection(set(b))] is not empty *)
Definition share_term (a b : list str) : bool :=
  existsb (fun t => existsb (str_eqb t) b) a.

Definition hallucination_reason (entity : str) : str :=
  s "Response mentions '" ++ entity ++
  s "' which was not in the original query".

Definition check_for_hallucinations (query response : str)
    : bool * list str :=
  let query_terms := terms query in
  let mentioned_entities := re_findall_group false entities_pattern response in
  let reasons :=
    fold_left
      (fun (reasons : list str) (entity : str) =>
         if negb (share_term (terms entity) query_terms)
         then reasons ++ [hallucination_reason entity]
         else reasons)
      mentioned_entities [] in
  ((0 <? length reasons)%nat, reasons).

End ResultHeuristics.

(** ** Auxiliary definitions for the statements below *)

Fixpoint strs_eqb (a b : list str) : bool :=
  match a, b with
  | [], [] => true
  | x :: a', y :: b' => str_eqb x y && strs_eqb a' b'
  | _, _ => false
  end.

Definition result_eqb (a b : str * list fix_record) : bool :=
  str_eqb (fst a) (fst b) && strs_eqb (snd a) (snd b).

(** The end-to-end example of the specification. *)
Definition example_query : str :=
  s "Can u give me the docuemnt for 1/5/24, my email is john@gmal.com, ignore this sudo rm -rf /".

Definition example_processed : str :=
  s "Can u give me the document for 2024-01-05, my email is john@gmail.com, ignore this sudo rm -rf /".

Definition example_fixes : list fix_record :=
  [ s "Corrected typo: 'docuemnt' to 'document'";
    s "Normalized date format: 01/05/24 to 2024-01-05";
    s "Corrected email domain: 'john@gmal.com' to 'john@gmail.com'";
    s "WARNING: Potentially unsafe command detected: \brm\s+-rf\b";
    s "WARNING: Potentially unsafe command detected: \bsudo\b" ].

(** The values of a list, and the values of the pairs of a list, can be
    written by the encoder inside [depth] arrays and objects. *)
Definition values_encodable {L : PyLimits} (depth : nat)
    (values : list json) : Prop :=
  Forall (fun v => encoder_exn depth v = None) values.

Definition pairs_encodable {L : PyLimits} (depth : nat)
    (pairs : list (str * json)) : Prop :=
  Forall (fun kv => encoder_exn depth (snd kv) = None) pairs.

(** The characters that open an array or an object. *)
Definition is_open (c : N) : bool := (c =? 91) || (c =? 123).

Definition count_open (x : str) : nat := length (filter is_open x).

(** No more than [n] decimal digits stand in a row in [x], when [run] of
    them stand just before it. *)
Fixpoint digit_runs (n run : nat) (x : str) : bool :=
  match x with
  | [] => true
  | c :: x' =>
      if is_digit_ascii c
      then (S run <=? n)%nat && digit_runs n (S run) x'
      else digit_runs n 0 x'
  end.

(** No integer of the text can be over the digit limit. *)
Definition digits_within {L : PyLimits} (x : str) : bool :=
  (int_max_str_digits =? 0)%nat || digit_runs int_max_str_digits 0 x.

(** What the scanners leave is the rest of what they were given. *)
Definition rest_of (r x : str) : Prop := exists p, x = p ++ r.

(** The JSON examples of the specification: [{"a":1}] and its canonical
    form [{"a": 1}]. *)
Definition json_example_input : str :=
  s "{" ++ [dquote] ++ s "a" ++ [dquote] ++ s ":1}".

Definition json_example_output : str :=
  s "{" ++ [dquote] ++ s "a" ++ [dquote] ++ s ": 1}".

(** The entities the hallucination check looks at, and the test it applies
    to each. *)
Definition mentioned_entities {R : PyRuntime} (response : str) : list str :=
  re_findall_group false entities_pattern response.

Definition unsupported {R : PyRuntime} (query entity : str) : bool :=
  negb (share_term (terms entity) (terms query)).

(** White-space runs, seen directly on the text: the number of leading
    white-space characters, the text with every run replaced by one space
    ([in_run] tells that the run has begun), and the test that a text has
    no run left to replace. *)
Section Runs.
Context {R : PyRuntime}.

Fixpoint leading (x : str) : nat :=
  match x with
  | c :: x' => if is_space c then S (leading x') else O
  | [] => O
  end.

Fixpoint squeeze (in_run : bool) (x : str) : str :=
  match x with
  | [] => []
  | c :: x' =>
      if is_space c
      then (if in_run then squeeze true x' else 32 :: squeeze true x')
      else c :: squeeze false x'
  end.

Fixpoint tidy (in_run : bool) (x : str) : bool :=
  match x with
  | [] => true
  | c :: x' =>
      if is_space c
      then (c =? 32) && negb in_run && tidy true x'
      else tidy false x'
  end.

End Runs.

(** The text [x], which starts at position [pos] of the subject, with every
    match of [ms] replaced by what [repl] gives for it. *)
Fixpoint splice (repl : rmatch_obj -> str) (pos : nat) (x : str)
    (ms : list rmatch_obj) : str :=
  match ms with
  | [] => x
  | m :: ms' =>
      let gap := (m_start m - pos)%nat in
      let n := length (m_text m) in
      firstn gap x ++ repl m ++
      splice repl (m_start m + n) (skipn (gap + n) x) ms'
  end.

Definition not_comma (c : N) : bool := negb (c =? 44).

(** Whole-word occurrences, seen directly on the text.  [q] tells whether
    the character in front of the text is a word character. *)
Section Occurrences.
Context {R : PyRuntime}.

(** The rest [r] of a word stands at the head of [x], and a word boundary
    follows it. *)
Fixpoint tail_occ (r : str) (q : bool) (x : str) : bool :=
  match r with
  | [] => xorb q (word_at x)
  | p :: r' =>
      match x with
      | [] => false
      | c :: x' => char_eq true p c && tail_occ r' (is_word c) x'
      end
  end.

(** The word [w] stands at the head of [x] between two word boundaries. *)
Definition occ (w : str) (q : bool) (x : str) : bool :=
  xorb q (word_at x) && tail_occ w q x.

(** The word occurs somewhere in [x]. *)
Fixpoint has (w : str) (q : bool) (x : str) : bool :=
  occ w q x ||
  match x with
  | [] => false
  | c :: x' => has w (is_word c) x'
  end.

(** The text with the occurrences of [w] replaced by [repl], left to right;
    [skip] counts the characters of the occurrence being passed. *)
Fixpoint filt (w repl : str) (q : bool) (x : str) (skip : nat) : str :=
  match skip with
  | S skip' =>
      match x with
      | [] => []
      | c :: x' => filt w repl (is_word c) x' skip'
      end
  | O =>
      match x with
      | [] => []
      | c :: x' =>
          if occ w q x
          then repl ++ filt w repl (is_word c) x' (length w - 1)
          else c :: filt w repl (is_word c) x' 0
      end
  end.

(** A character of a denylisted word: a lower-case letter or a space. *)
Definition plain (p : N) : bool := is_lower_ascii p || (p =? 32).

(** A word of the kind the denylist holds: letters and spaces, with a
    letter at both ends. *)
Definition plain_word (w : str) : bool :=
  forallb plain w && is_lower_ascii (hd 0 w) && is_lower_ascii (last w 0).

(** [w] and [t] differ at a position that both have. *)
Fixpoint clash (w t : str) : bool :=
  match w, t with
  | p :: w', c :: t' => negb (char_eq true p c) || clash w' t'
  | _, _ => false
  end.

Fixpoint all_clash (w t : str) : bool :=
  match t with
  | [] => true
  | _ :: t' => clash w t && all_clash w t'
  end.

(** Can the rests [a] and [b] of two words stand at the same place, each
    followed by a word boundary?  A necessary condition. *)
Fixpoint both (a b : str) (q : bool) : bool :=
  match a, b with
  | [], [] => true
  | [], c :: _ => xorb q (is_lower_ascii c)
  | c :: _, [] => xorb q (is_lower_ascii c)
  | c :: a', d :: b' => (c =? d) && both a' b' (is_lower_ascii c)
  end.

(** Can the word [w] start where the rest [r] of another word stands? *)
Definition can_occur (r : str) (q : bool) (w : str) : bool :=
  xorb q (is_lower_ascii (hd 0 w)) && both r w q.

(** No occurrence of [w] starts inside or right behind the rest [r] of an
    occurrence of another word. *)
Fixpoint safe (w r : str) (q : bool) : bool :=
  negb (can_occur r q w) &&
  match r with
  | [] => true
  | p :: r' => safe w r' (is_lower_ascii p)
  end.

(** The word character test of the character in front of the position
    [k] characters further on. *)
Fixpoint ctx_after (k : nat) (q : bool) (x : str) : bool :=
  match k with
  | O => q
  | S k' =>
      match x with
      | [] => q
      | c :: x' => ctx_after k' (is_word c) x'
      end
  end.

(** The same for the end of a plain word. *)
Fixpoint last_q (r : str) (q : bool) : bool :=
  match r with
  | [] => q
  | p :: r' => last_q r' (is_lower_ascii p)
  end.

(** The replacement text begins with a character that no letter or space
    matches, and has no word character at either end. *)
Definition repl_ok (repl : str) : bool :=
  match repl with
  | e :: _ => negb (plain (fold_case e))
  | [] => false
  end && negb (word_at repl) && negb (word_at (rev repl)).

Definition self_ok (repl w : str) : bool :=
  plain_word w && all_clash w repl && safe w (tl w) true.

Definition pair_ok (w w' : str) : bool :=
  safe w' w false && safe w (tl w') true.

Fixpoint distinct (ws : list str) : bool :=
  match ws with
  | [] => true
  | w :: ws' => negb (existsb (str_eqb w) ws') && distinct ws'
  end.

(** The conditions on a word list under which replacing one word neither
    hides nor creates an occurrence of another. *)
Definition words_ok (repl : str) (ws : list str) : bool :=
  repl_ok repl && distinct ws && forallb (self_ok repl) ws &&
  forallb (fun w => forallb (fun w' => str_eqb w w' || pair_ok w w') ws) ws.

(** One step of the loop of [remove_banned_words], on the text. *)
Definition banned_step_text (acc : str * list fix_record) (word : str)
    : str * list fix_record :=
  if has word false (fst acc)
  then (filt word filtered false (fst acc) 0, snd acc ++ [banned_fix word])
  else acc.

End Occurrences.

(** One step of the loop of [fix_typos], on the text. *)
Definition typo_step_text {R : PyRuntime} (acc : str * list fix_record)
    (e : str * str) : str * list fix_record :=
  if has (fst e) false (fst acc)
  then (filt (fst e) (snd e) false (fst acc) 0,
        snd acc ++ [typo_fix (fst e) (snd e)])
  else acc.

(** The conditions under which correcting the typos of a table neither
    hides nor creates an occurrence of a word of the list [ws]. *)
Definition typos_ok (typos : list (str * str)) (ws : list str) : bool :=
  forallb plain_word ws &&
  forallb
    (fun e =>
       plain_word (fst e) && plain_word (snd e) &&
       forallb
         (fun w =>
            safe (fst e) (tl w) true && safe (snd e) (tl w) true &&
            safe w (fst e) false && safe w (snd e) false) ws)
    typos.

(** The domain of an address, the entry of the typo table for a domain,
    and the corrected address (when the domain is in the table). *)
Definition email_domain (email : str) : str := nth 1 (split_on 64 email) [].

Definition domain_entry (domain : str) : option (str * str) :=
  find (fun e => str_eqb domain (fst e)) common_domains.

Definition corrected_email (email : str) : option str :=
  match domain_entry (email_domain email) with
  | Some (typo_domain, correct_domain) =>
      Some (str_replace typo_domain correct_domain email)
  | None => None
  end.

(** The heuristics behind the banned-word step. *)
Definition later_heuristics {R : PyRuntime} (current_year : N)
    : list (str -> str * list fix_record) :=
  skipn 2 (heuristics current_year).

(** The records of the banned-word step. *)
Definition is_banned_fix (f : fix_record) : bool :=
  starts_with (s "Removed banned word: '") f.

Definition years_2000s : list N :=
  map (fun k => 2000 + N.of_nat k) (seq 0 100).

(** Case analysis on every comparison of code points in sight. *)
Ltac split_tests :=
  repeat match goal with
         | H : context [N.leb ?a ?b] |- _ => destruct (N.leb_spec a b)
         | H : context [N.ltb ?a ?b] |- _ => destruct (N.ltb_spec a b)
         | H : context [N.eqb ?a ?b] |- _ => destruct (N.eqb_spec a b)
         | |- context [N.leb ?a ?b] => destruct (N.leb_spec a b)
         | |- context [N.ltb ?a ?b] => destruct (N.ltb_spec a b)
         | |- context [N.eqb ?a ?b] => destruct (N.eqb_spec a b)
         end;
  cbn [andb orb negb] in *.

(** The conditions on a table of (word, replacement) pairs under which
    replacing one word of the table removes it and neither hides nor creates
    an occurrence of another word of the table. *)
Definition table_ok {R : PyRuntime} (entries : list (str * str)) : bool :=
  distinct (map fst entries) &&
  forallb
    (fun e =>
       plain_word (fst e) && plain_word (snd e) &&
       forallb
         (fun e' =>
            safe (fst e) (tl (fst e')) true &&
            safe (snd e) (tl (fst e')) true &&
            (str_eqb (fst e') (fst e) || safe (fst e') (fst e) false) &&
            safe (fst e') (snd e) false)
         entries)
    entries.

(** The heuristics in front of the white-space step. *)
Definition early_heuristics {R : PyRuntime} (current_year : N)
    : list (str -> str * list fix_record) :=
  firstn 8 (heuristics current_year).

(** The records of the URL step for one URL. *)
Definition url_records_of {R : PyRuntime} (url : str) : list fix_record :=
  match first_suspicious url with
  | Some pattern => [url_fix pattern]
  | None => []
  end.

Definition not_space {R : PyRuntime} (c : N) : bool := negb (is_space c).

(** A text in the form the white-space step produces: no white-space
    character but the space, no two of them in a row, and none at either
    end. *)
Definition normal_form {R : PyRuntime} (x : str) : Prop :=
  tidy false x = true /\ lstrip x = x /\ rstrip x = x.

(** A run of exactly [n] digits, and a separator of the card and social
    security patterns: nothing, a hyphen or one white-space character. *)
Definition digits {R : PyRuntime} (n : nat) (x : str) : bool :=
  Nat.eqb (length x) n && forallb is_digit x.

Definition is_sep {R : PyRuntime} (x : str) : bool :=
  match x with
  | [] => true
  | [c] => (c =? 45) || is_space c
  | _ => false
  end.

(** The characters that open an amount. *)
Definition is_currency_symbol (c : N) : bool :=
  (c =? 36) || (c =? euro) || (c =? pound) || (c =? yen).

(** The groups of thousands of an amount, each with its comma in front. *)
Definition comma_groups (groups : list str) : str :=
  flat_map (fun g => 44 :: g) groups.

(** The decimal part of an amount: nothing, or a point and digits. *)
Definition decimal_part {R : PyRuntime} (dec : str) : bool :=
  match dec with
  | [] => true
  | c :: ds => (c =? 46) && (0 <? length ds)%nat && forallb is_digit ds
  end.

(** One group of thousands: a comma and three digits. *)
Definition thousands : regex := Seq (Lit 44) (Rep 3 digit).

(** [W] is the word [w] in some letter case, as IGNORECASE sees it. *)
Fixpoint same_word {R : PyRuntime} (w W : str) : bool :=
  match w, W with
  | [], [] => true
  | p :: w', c :: W' => char_eq true p c && same_word w' W'
  | _, _ => false
  end.

Definition letters_only (w : str) : bool := forallb is_lower_ascii w.

(** * Properties *)

Lemma str_eqb_eq (a b : str) : str_eqb a b = true <-> a = b.
Proof.
  revert b; induction a as [|x a IH]; intros [|y b]; simpl;
    try (split; congruence).
  rewrite andb_true_iff, N.eqb_eq, IH. split.
  - intros [-> ->]; reflexivity.
  - intros H; injection H; auto.
Qed.

Lemma str_eqb_refl (a : str) : str_eqb a a = true.
Proof. apply str_eqb_eq; reflexivity. Qed.

Lemma strs_eqb_eq (a b : list str) : strs_eqb a b = true <-> a = b.
Proof.
  revert b; induction a as [|x a IH]; intros [|y b]; simpl;
    try (split; congruence).
  rewrite andb_true_iff, str_eqb_eq, IH. split.
  - intros [-> ->]; reflexivity.
  - intros H; injection H; auto.
Qed.

Lemma result_eqb_eq (a b : str * list fix_record) :
  result_eqb a b = true <-> a = b.
Proof.
  destruct a as [a1 a2], b as [b1 b2]; unfold result_eqb; simpl.
  rewrite andb_true_iff, str_eqb_eq, strs_eqb_eq. split.
  - intros [-> ->]; reflexivity.
  - intros H; injection H; auto.
Qed.

Lemma fold_left_collect {A B : Type} (test : A -> bool) (f : A -> B)
    (l : list A) (acc : list B) :
  fold_left (fun fixes p => if test p then fixes ++ [f p] else fixes) l acc =
  acc ++ map f (filter test l).
Proof.
  revert acc; induction l as [|a l IH]; intros acc; simpl.
  - now rewrite app_nil_r.
  - rewrite IH. destruct (test a); simpl; [|reflexivity].
    now rewrite <- app_assoc.
Qed.

(** ** Substrings *)

Lemma starts_with_app (p r : str) : starts_with p (p ++ r) = true.
Proof.
  induction p as [|a p IH]; simpl; [reflexivity|].
  now rewrite N.eqb_refl, IH.
Qed.

Lemma starts_with_iff (p x : str) :
  starts_with p x = true <-> exists r, x = p ++ r.
Proof.
  split.
  - revert x; induction p as [|a p IH]; intros x H; simpl in *.
    + now exists x.
    + destruct x as [|b x]; [discriminate|].
      apply andb_true_iff in H as [E H]. apply N.eqb_eq in E; subst b.
      destruct (IH _ H) as [r ->]. now exists r.
  - intros [r ->]. apply starts_with_app.
Qed.

Lemma contains_head (p x : str) :
  starts_with p x = true -> contains p x = true.
Proof. intros H. destruct x; simpl; now rewrite H. Qed.

Lemma contains_iff (p x : str) :
  contains p x = true <-> exists a b, x = a ++ p ++ b.
Proof.
  split.
  - induction x as [|c x IH]; simpl; intros H.
    + rewrite orb_false_r in H. apply starts_with_iff in H as [r E].
      exists [], r. exact E.
    + apply orb_true_iff in H as [H|H].
      * apply starts_with_iff in H as [r E]. exists [], r. exact E.
      * destruct (IH H) as (a & b & ->). now exists (c :: a), b.
  - intros (a & b & ->). induction a as [|c a IH]; simpl.
    + apply contains_head, starts_with_app.
    + rewrite IH. apply orb_true_r.
Qed.

Lemma ends_with_iff (p x : str) :
  ends_with p x = true <-> exists a, x = a ++ p.
Proof.
  unfold ends_with. rewrite starts_with_iff. split.
  - intros [r E]. exists (rev r).
    apply (f_equal (@rev N)) in E.
    now rewrite rev_involutive, rev_app_distr, rev_involutive in E.
  - intros [a ->]. exists (rev a). apply rev_app_distr.
Qed.

(** The first test of [validate_tool_output] adds nothing to the second. *)
Lemma json_name_test (tool_name : str) :
  ends_with (s "_json") tool_name || contains (s "json") tool_name =
  contains (s "json") tool_name.
Proof.
  destruct (ends_with (s "_json") tool_name) eqn:E; [|reflexivity].
  apply ends_with_iff in E as [a ->]. simpl. symmetry.
  apply contains_iff. exists (a ++ s "_"), []. rewrite app_nil_r.
  now rewrite <- app_assoc.
Qed.

(** ** The matcher *)

Section Engine.
Context {R : PyRuntime}.

(** The matcher moves forward only: when a match succeeds, the rest of the
    pattern was entered at a position further on in the same text. *)
Lemma rmatch_forward (ic : bool) (r : regex) :
  forall (st : mstate) (k : mstate -> option mstate) (res : mstate),
    rmatch ic r st k = Some res ->
    exists st' p, k st' = Some res /\ after st = p ++ after st'.
Proof.
  induction r as [| c | items | | | a IHa b IHb | a IHa b IHb | a IHa
                  | n a IHa]; intros st k res; cbn [rmatch].
  - intros H. now exists st, [].
  - unfold step_char. destruct (after st) as [|c' rest] eqn:E; [discriminate|].
    destruct (char_eq ic c c'); [|discriminate]. intros H.
    exists (MState (c' :: before st) rest (caps st)), [c']. now split.
  - unfold step_char. destruct (after st) as [|c' rest] eqn:E; [discriminate|].
    destruct (in_class ic items c'); [|discriminate]. intros H.
    exists (MState (c' :: before st) rest (caps st)), [c']. now split.
  - unfold step_char. destruct (after st) as [|c' rest] eqn:E; [discriminate|].
    destruct (negb (c' =? 10)); [|discriminate]. intros H.
    exists (MState (c' :: before st) rest (caps st)), [c']. now split.
  - destruct (at_boundary (before st) (after st)); [|discriminate].
    intros H. now exists st, [].
  - intros H. apply IHa in H as (st1 & p1 & H & E1).
    apply IHb in H as (st2 & p2 & H & E2).
    exists st2, (p1 ++ p2). split; [exact H|].
    now rewrite E1, E2, app_assoc.
  - destruct (rmatch ic a st k) eqn:Ea.
    + intros [= <-]. now apply IHa in Ea.
    + apply IHb.
  - generalize (length (after st)). intros fuel. revert st.
    induction fuel as [|fuel IHf]; intros st; cbn [star_loop].
    + intros H. now exists st, [].
    + destruct (rmatch ic a st _) eqn:Ea.
      * intros [= <-]. apply IHa in Ea as (st1 & p1 & H & E1).
        destruct (length (after st1) <? length (after st))%nat;
          [|discriminate].
        apply IHf in H as (st2 & p2 & H & E2).
        exists st2, (p1 ++ p2). split; [exact H|].
        now rewrite E1, E2, app_assoc.
      * intros H. now exists st, [].
  - intros H. apply IHa in H as (st1 & p1 & H & E1).
    exists (close_group n st st1), p1. now split.
Qed.

(** The result depends on the rest of the pattern only through what it
    returns. *)
Lemma rmatch_ext (ic : bool) (r : regex) :
  forall (st : mstate) (k k' : mstate -> option mstate),
    (forall st', k st' = k' st') -> rmatch ic r st k = rmatch ic r st k'.
Proof.
  induction r as [| c | items | | | a IHa b IHb | a IHa b IHb | a IHa
                  | n a IHa]; intros st k k' H; cbn [rmatch].
  - apply H.
  - unfold step_char. destruct (after st); [reflexivity|].
    destruct (char_eq ic c n); [apply H | reflexivity].
  - unfold step_char. destruct (after st); [reflexivity|].
    destruct (in_class ic items n); [apply H | reflexivity].
  - unfold step_char. destruct (after st); [reflexivity|].
    destruct (negb (n =? 10)); [apply H | reflexivity].
  - destruct (at_boundary (before st) (after st)); [apply H | reflexivity].
  - apply IHa. intros st'. now apply IHb.
  - rewrite (IHa st k k' H), (IHb st k k' H). reflexivity.
  - generalize (length (after st)). intros fuel. revert st.
    induction fuel as [|fuel IHf]; intros st; cbn [star_loop]; [apply H|].
    rewrite (IHa st _ (fun st' =>
               if (length (after st') <? length (after st))%nat
               then star_loop (rmatch ic a) k' fuel st' else None)).
    + now rewrite H.
    + intros st'. destruct (_ <? _)%nat; [apply IHf | reflexivity].
  - apply IHa. intros st'. apply H.
Qed.

Lemma rmatch_fail (ic : bool) (r : regex) (st : mstate) :
  rmatch ic r st (fun _ => None) = None.
Proof.
  destruct (rmatch ic r st (fun _ => None)) eqn:E; [|reflexivity].
  apply rmatch_forward in E as (st' & p & E & _). discriminate.
Qed.

(** The fuel of a loop is never used up: any supply that covers the text
    ahead gives the same result. *)
Lemma star_loop_enough (ic : bool) (a : regex)
    (k : mstate -> option mstate) (f g : nat) (st : mstate) :
  (length (after st) <= f)%nat -> (length (after st) <= g)%nat ->
  star_loop (rmatch ic a) k f st = star_loop (rmatch ic a) k g st.
Proof.
  revert g st; induction f as [|f IH]; intros g st Hf Hg.
  - destruct g as [|g]; [reflexivity|]. cbn [star_loop].
    rewrite (rmatch_ext ic a st _ (fun _ => None)), rmatch_fail;
      [reflexivity|].
    intros st'. destruct (Nat.ltb_spec (length (after st'))
                                       (length (after st))); [lia|reflexivity].
  - destruct g as [|g]; cbn [star_loop].
    + rewrite (rmatch_ext ic a st _ (fun _ => None)), rmatch_fail;
        [reflexivity|].
      intros st'. destruct (Nat.ltb_spec (length (after st'))
                                         (length (after st)));
        [lia|reflexivity].
    + rewrite (rmatch_ext ic a st _ (fun st' =>
                 if (length (after st') <? length (after st))%nat
                 then star_loop (rmatch ic a) k g st' else None));
        [reflexivity|].
      intros st'. destruct (Nat.ltb_spec (length (after st'))
                                         (length (after st)));
        [apply IH; lia | reflexivity].
Qed.

(** The text of a match is what the matcher passed over. *)
Lemma match_here_text (ic : bool) (r : regex) (bef aft : str)
    (m : rmatch_obj) :
  match_here ic r bef aft = Some m ->
  exists st, rmatch ic r (MState bef aft []) Some = Some st /\
             aft = m_text m ++ after st.
Proof.
  unfold match_here.
  destruct (rmatch ic r _ Some) as [st|] eqn:E; [|discriminate].
  intros [= <-]. exists st. split; [reflexivity|]. cbn [m_text].
  apply rmatch_forward in E as (st' & p & [= ->] & E). cbn [after] in E.
  subst aft. rewrite length_app, Nat.add_sub.
  now rewrite firstn_app, firstn_all, Nat.sub_diag, firstn_O, app_nil_r.
Qed.

Lemma finditer_match (ic : bool) (r : regex) (aft bef : str) (skip : nat)
    (m : rmatch_obj) :
  In m (finditer_from ic r bef aft skip) ->
  exists bef' aft', match_here ic r bef' aft' = Some m.
Proof.
  revert bef skip; induction aft as [|c rest IH]; intros bef skip.
  - destruct skip; simpl; [|tauto].
    destruct (match_here ic r bef []) eqn:E; simpl; [|tauto].
    intros [<-|[]]. now exists bef, [].
  - destruct skip; simpl.
    + destruct (match_here ic r bef (c :: rest)) eqn:E.
      * intros [<-|H]; [now exists bef, (c :: rest) | now apply IH in H].
      * apply IH.
    + apply IH.
Qed.

(** Every address that [findall] returns for the email pattern holds an
    [@], so [email.split('@')[1]] exists. *)
Lemma email_has_at (query email : str) :
  In email (re_findall false email_pattern query) -> In 64 email.
Proof.
  unfold re_findall, re_finditer. intros H.
  apply in_map_iff in H as (m & <- & H).
  apply finditer_match in H as (bef & aft & H).
  apply match_here_text in H as (st & E & Ht).
  unfold email_pattern, seqs in E. cbn [rmatch] in E.
  destruct (at_boundary _ _); [|discriminate].
  apply rmatch_forward in E as (st1 & p1 & E & E1).
  unfold step_char in E.
  destruct (after st1) as [|c rest1] eqn:A1; [discriminate|].
  destruct (char_eq false 64 c) eqn:C; [|discriminate].
  apply N.eqb_eq in C; subst c.
  apply rmatch_forward in E as (st2 & p2 & E & E2). cbn [after] in E1, E2.
  assert (S2 : exists p3, after st2 = p3 ++ after st).
  { unfold step_char in E.
    destruct (after st2) as [|c rest2] eqn:A2; [discriminate|].
    destruct (char_eq false 46 c); [|discriminate].
    apply rmatch_forward in E as (st3 & p3 & E & E3). cbn [after] in E3.
    destruct (at_boundary _ _); [|discriminate]. injection E as <-.
    exists (c :: p3). now rewrite E3. }
  destruct S2 as [p3 E3].
  rewrite E1, E2, E3 in Ht.
  assert (Em : m_text m = p1 ++ 64 :: p2 ++ p3).
  { apply (app_inv_tail (after st)). rewrite <- Ht.
    rewrite <- app_assoc. cbn [app]. now rewrite <- app_assoc. }
  rewrite Em. apply in_or_app. right. now left.
Qed.

Lemma split_on_parts (sep : N) (x : str) :
  In sep x -> (2 <= length (split_on sep x))%nat.
Proof.
  induction x as [|c x IH]; [intros []|]. cbn [split_on].
  destruct (N.eqb_spec c sep) as [->|Hne].
  - intros _. destruct x; simpl; [lia|].
    destruct (_ =? _); simpl; [lia|]. destruct (split_on sep x); simpl; lia.
  - intros [H|H]; [congruence|]. apply IH in H.
    destruct (split_on sep x); simpl in *; lia.
Qed.

Lemma email_domain_exists (query email : str) :
  In email (re_findall false email_pattern query) ->
  (2 <= length (split_on 64 email))%nat.
Proof. intros H. now apply split_on_parts, (email_has_at query). Qed.

End Engine.

(** ** Substitution and the list of matches *)

Section SubMatches.
Context {R : PyRuntime}.
Variables (ic : bool) (r : regex).

Lemma match_here_start (bef aft : str) (m : rmatch_obj) :
  match_here ic r bef aft = Some m ->
  m_start m = length bef /\
  m_text m = firstn (length (m_text m)) aft.
Proof.
  unfold match_here. destruct (rmatch ic r _ Some) as [st|]; [|discriminate].
  intros H; injection H as <-. simpl. split; [reflexivity|].
  rewrite length_firstn.
  destruct (Nat.min_spec (length aft - length (after st)) (length aft))
    as [[_ ->]|[L ->]]; [reflexivity|].
  now rewrite firstn_all, firstn_all2 by lia.
Qed.

Lemma finditer_start (aft bef : str) (skip : nat) (m : rmatch_obj) :
  In m (finditer_from ic r bef aft skip) -> (length bef <= m_start m)%nat.
Proof.
  revert bef skip; induction aft as [|c rest IH]; intros bef skip.
  - destruct skip; simpl; [|tauto].
    destruct (match_here ic r bef []) eqn:E; simpl; [|tauto].
    intros [<-|[]]. apply match_here_start in E. lia.
  - destruct skip; simpl.
    + destruct (match_here ic r bef (c :: rest)) eqn:E.
      * intros [<-|H].
        -- apply match_here_start in E. lia.
        -- apply IH in H. simpl in H. lia.
      * intros H. apply IH in H. simpl in H. lia.
    + intros H. apply IH in H. simpl in H. lia.
Qed.

Lemma splice_cons (repl : rmatch_obj -> str) (pos : nat) (c : N)
    (rest : str) (ms : list rmatch_obj) :
  (forall m, In m ms -> (pos < m_start m)%nat) ->
  splice repl pos (c :: rest) ms = c :: splice repl (S pos) rest ms.
Proof.
  destruct ms as [|m ms]; [reflexivity|]. intros H.
  assert (L : (pos < m_start m)%nat) by (apply H; now left).
  simpl. replace (m_start m - pos)%nat with (S (m_start m - S pos)) by lia.
  reflexivity.
Qed.

(** [re.sub] replaces exactly the matches that [re.finditer] lists. *)
Lemma sub_from_splice (repl : rmatch_obj -> str) (aft bef : str)
    (skip : nat) :
  sub_from ic r repl bef aft skip =
  splice repl (length bef + skip) (skipn skip aft)
         (finditer_from ic r bef aft skip).
Proof.
  revert bef skip; induction aft as [|c rest IH]; intros bef skip.
  - destruct skip; simpl; [|reflexivity].
    destruct (match_here ic r bef []) as [m|] eqn:E; [|reflexivity].
    destruct (match_here_start _ _ E) as [Hs Ht]. simpl.
    rewrite firstn_nil in Ht. rewrite Ht, Hs. simpl.
    now rewrite firstn_nil, skipn_nil.
  - destruct skip as [|skip].
    + cbn [sub_from finditer_from skipn].
      destruct (match_here ic r bef (c :: rest)) as [m|] eqn:E.
      * destruct (match_here_start _ _ E) as [Hs Ht].
        cbn [splice]. rewrite Hs.
        replace (length bef - (length bef + 0))%nat with O by lia.
        cbn [firstn app]. f_equal.
        destruct (length (m_text m)) as [|n] eqn:En.
        -- rewrite IH. cbn [Nat.sub Nat.add skipn length].
           rewrite splice_cons.
           ++ now rewrite !Nat.add_0_r.
           ++ intros m' Hm'. apply finditer_start in Hm'. simpl in Hm'. lia.
        -- rewrite IH. cbn [Nat.sub Nat.add skipn length].
           rewrite Nat.sub_0_r.
           now replace (length bef + S n)%nat with (S (length bef + n))
             by lia.
      * rewrite IH. rewrite splice_cons.
        -- cbn [length skipn]. now rewrite !Nat.add_0_r.
        -- intros m' Hm'. apply finditer_start in Hm'. simpl in Hm'. lia.
    + cbn [sub_from finditer_from skipn]. rewrite IH. cbn [length].
      now replace (length bef + S skip)%nat with (S (length bef) + skip)%nat
        by lia.
Qed.

Lemma re_sub_fn_splice (repl : rmatch_obj -> str) (x : str) :
  re_sub_fn ic r repl x = splice repl 0 x (re_finditer ic r x).
Proof. apply (sub_from_splice repl x [] 0). Qed.

(** When every match is replaced by its own text nothing changes. *)
Lemma sub_from_same (repl : rmatch_obj -> str) (aft bef : str) (skip : nat) :
  (forall m, In m (finditer_from ic r bef aft skip) -> repl m = m_text m) ->
  sub_from ic r repl bef aft skip = skipn skip aft.
Proof.
  revert bef skip; induction aft as [|c rest IH]; intros bef skip H.
  - destruct skip; simpl in *; [|reflexivity].
    destruct (match_here ic r bef []) as [m|] eqn:E; [|reflexivity].
    rewrite app_nil_r, H by now left.
    destruct (match_here_start _ _ E) as [_ Ht].
    now rewrite firstn_nil in Ht.
  - destruct skip as [|skip]; cbn [sub_from finditer_from skipn] in *.
    + destruct (match_here ic r bef (c :: rest)) as [m|] eqn:E.
      * destruct (match_here_start _ _ E) as [_ Ht].
        rewrite H by now left.
        destruct (length (m_text m)) as [|n] eqn:En.
        -- rewrite IH by (intros; apply H; now right).
           destruct (m_text m); [reflexivity | discriminate].
        -- rewrite IH.
           ++ rewrite Ht. apply (firstn_skipn (S n) (c :: rest)).
           ++ intros m' Hm'. apply H. right.
              now replace (S n - 1)%nat with n by lia.
      * now rewrite IH.
    + now apply IH.
Qed.

End SubMatches.

(** ** Whole-word patterns *)

Section WholeWord.
Context {R : PyRuntime}.

Lemma tail_occ_length (r : str) (q : bool) (x : str) :
  tail_occ r q x = true -> (length r <= length x)%nat.
Proof.
  revert q x; induction r as [|p r IH]; intros q x; simpl; [lia|].
  destruct x as [|c x]; [discriminate|]. intros H.
  apply andb_true_iff in H as [_ H]. apply IH in H. simpl. lia.
Qed.

(** The literal part of the pattern and the boundary behind it. *)
Lemma rmatch_lits_bnd (w bef aft : str) (cs : list (nat * str)) :
  rmatch true (lits w) (MState bef aft cs)
         (fun st' => rmatch true Bnd st' Some) =
  if tail_occ w (word_at bef) aft
  then Some (MState (rev (firstn (length w) aft) ++ bef)
                    (skipn (length w) aft) cs)
  else None.
Proof.
  revert bef aft; induction w as [|p w IH]; intros bef aft.
  - reflexivity.
  - cbn [lits rmatch tail_occ]. unfold step_char. cbn [after before caps].
    destruct aft as [|c rest]; [reflexivity|].
    destruct (char_eq true p c); [|reflexivity].
    cbn [andb]. rewrite IH. cbn [word_at length firstn skipn rev].
    now rewrite <- app_assoc.
Qed.

Lemma match_here_whole_word (w bef aft : str) :
  match_here true (whole_word w) bef aft =
  if occ w (word_at bef) aft
  then Some (MatchObj (length bef) (firstn (length w) aft) [])
  else None.
Proof.
  unfold match_here, whole_word, re_escape, occ.
  change (xorb (word_at bef) (word_at aft)) with (at_boundary bef aft).
  cbn [rmatch before after].
  destruct (at_boundary bef aft); [|reflexivity].
  cbn [andb].
  change (fun st' : mstate =>
            if at_boundary (before st') (after st') then Some st' else None)
    with (fun st' => rmatch true Bnd st' Some).
  rewrite rmatch_lits_bnd.
  destruct (tail_occ w (word_at bef) aft) eqn:E; [|reflexivity].
  cbn [after caps]. apply tail_occ_length in E.
  rewrite length_skipn.
  now replace (length aft - (length aft - length w))%nat with (length w)
    by lia.
Qed.

Lemma search_whole_word (w aft bef : str) :
  match search_from true (whole_word w) bef aft with
  | Some _ => true
  | None => false
  end = has w (word_at bef) aft.
Proof.
  revert bef; induction aft as [|c rest IH]; intros bef;
    cbn [search_from has]; rewrite match_here_whole_word.
  - destruct (occ w (word_at bef) []); reflexivity.
  - destruct (occ w (word_at bef) (c :: rest)); [reflexivity|].
    cbn [orb]. apply (IH (c :: bef)).
Qed.

Lemma re_test_whole_word (w x : str) :
  re_test true (whole_word w) x = has w false x.
Proof. unfold re_test, re_search. apply (search_whole_word w x []). Qed.

Lemma sub_whole_word (w repl aft bef : str) (skip : nat) :
  w <> [] ->
  sub_from true (whole_word w) (fun _ => repl) bef aft skip =
  filt w repl (word_at bef) aft skip.
Proof.
  intros Hw. revert bef skip; induction aft as [|c rest IH]; intros bef skip.
  - destruct skip; cbn [sub_from filt]; [|reflexivity].
    rewrite match_here_whole_word.
    destruct (occ w (word_at bef) []) eqn:E; [|reflexivity].
    unfold occ in E. apply andb_true_iff in E as [_ E].
    apply tail_occ_length in E. destruct w; [congruence | simpl in E; lia].
  - destruct skip as [|skip]; cbn [sub_from filt].
    + rewrite match_here_whole_word.
      destruct (occ w (word_at bef) (c :: rest)) eqn:E.
      * cbn [m_text]. unfold occ in E. apply andb_true_iff in E as [_ E].
        apply tail_occ_length in E. rewrite length_firstn, Nat.min_l by exact E.
        destruct w as [|p w]; [congruence|]. cbn [length].
        replace (S (length w) - 1)%nat with (length w) by lia.
        f_equal. apply (IH (c :: bef)).
      * f_equal. apply (IH (c :: bef)).
    + apply (IH (c :: bef)).
Qed.

Lemma re_sub_whole_word (w repl x : str) :
  w <> [] ->
  re_sub true (whole_word w) repl x = filt w repl false x 0.
Proof. intros Hw. now apply (@sub_whole_word w repl x [] 0). Qed.

End WholeWord.

(** ** Case folding and word characters *)

Section Folding.
Context {R : PyRuntime}.

Lemma plain_fold (p : N) : plain p = true -> fold_case p = p.
Proof.
  unfold plain, fold_case, is_lower_ascii, is_upper_ascii, is_ascii, in_range.
  intros H. split_tests; try discriminate; try reflexivity; lia.
Qed.

(** What folds to a lower-case letter is a word character; only the space
    folds to the space. *)
Lemma fold_plain_word (p c : N) :
  plain p = true -> fold_case c = p -> is_word c = is_lower_ascii p.
Proof.
  unfold plain, fold_case, is_word, is_lower_ascii, is_upper_ascii,
    is_digit_ascii, is_ascii, in_range.
  intros Hp Hc.
  destruct (c <? 128) eqn:Ea.
  - split_tests; try discriminate; try reflexivity; lia.
  - destruct (uni_class c) as [| | |[l|]].
    1-3, 5: subst p; split_tests; try discriminate; try reflexivity; lia.
    unfold is_lower_ascii, in_range in Hc.
    split_tests; try discriminate; try reflexivity; lia.
Qed.

Lemma char_eq_plain_word (p c : N) :
  plain p = true -> char_eq true p c = true ->
  is_word c = is_lower_ascii p.
Proof.
  intros Hp H. unfold char_eq in H. apply N.eqb_eq in H.
  rewrite (plain_fold _ Hp) in H. now apply fold_plain_word.
Qed.

Lemma char_eq_plain_inj (p p' c : N) :
  plain p = true -> plain p' = true ->
  char_eq true p c = true -> char_eq true p' c = true -> p = p'.
Proof.
  intros Hp Hp' H H'. unfold char_eq in *.
  apply N.eqb_eq in H, H'.
  rewrite (plain_fold _ Hp) in H. rewrite (plain_fold _ Hp') in H'.
  congruence.
Qed.

End Folding.

(** ** Occurrences of two words in one text *)

Section TwoWords.
Context {R : PyRuntime}.

Lemma plain_word_parts (w : str) :
  plain_word w = true ->
  exists p r, w = p :: r /\ is_lower_ascii p = true /\
              plain p = true /\ forallb plain r = true.
Proof.
  unfold plain_word. intros H.
  apply andb_true_iff in H as [H _]. apply andb_true_iff in H as [H1 H2].
  destruct w as [|p r]; [discriminate H2|].
  simpl in H1, H2. apply andb_true_iff in H1 as [Hp Hr].
  now exists p, r.
Qed.

Lemma plain_word_plain (w : str) :
  plain_word w = true -> forallb plain w = true.
Proof.
  unfold plain_word. intros H.
  apply andb_true_iff in H as [H _]. now apply andb_true_iff in H as [H _].
Qed.

Lemma last_q_last (p : N) (r : str) (q : bool) :
  last_q (p :: r) q = is_lower_ascii (last (p :: r) 0).
Proof.
  revert p q; induction r as [|p' r IH]; intros p q; [reflexivity|].
  change (last_q (p :: p' :: r) q) with (last_q (p' :: r) (is_lower_ascii p)).
  rewrite IH. reflexivity.
Qed.

Lemma plain_word_last_q (w : str) (q : bool) :
  plain_word w = true -> last_q w q = true.
Proof.
  intros H. destruct (plain_word_parts _ H) as (p & r & -> & _).
  rewrite last_q_last. unfold plain_word in H.
  now apply andb_true_iff in H as [_ H].
Qed.

(** An occurrence of a plain word begins with a word character. *)
Lemma tail_occ_word_head (w : str) (q : bool) (x : str) :
  plain_word w = true -> tail_occ w q x = true -> word_at x = true.
Proof.
  intros Hw H. destruct (plain_word_parts _ Hw) as (p & r & -> & Hl & Hp & _).
  destruct x as [|c x]; [discriminate|]. simpl in H.
  apply andb_true_iff in H as [H _]. simpl.
  now rewrite (char_eq_plain_word _ _ Hp H).
Qed.

Lemma occ_context (w : str) (q : bool) (x : str) :
  plain_word w = true -> occ w q x = true ->
  q = false /\ tail_occ w false x = true.
Proof.
  intros Hw H. unfold occ in H. apply andb_true_iff in H as [H1 H2].
  rewrite (tail_occ_word_head _ _ _ Hw H2) in H1.
  destruct q; [discriminate|]. now split.
Qed.

Lemma occ_nonword_head (w : str) (q : bool) (x : str) :
  plain_word w = true -> word_at x = false -> occ w q x = false.
Proof.
  intros Hw Hx. unfold occ.
  destruct (tail_occ w q x) eqn:E; [|apply andb_false_r].
  apply (tail_occ_word_head _ _ _ Hw) in E. congruence.
Qed.

(** After the occurrence of a plain word the text goes on with a character
    that is not a word character, or ends. *)
Lemma tail_occ_after (r : str) (q : bool) (x : str) :
  forallb plain r = true -> tail_occ r q x = true ->
  ctx_after (length r) q x = last_q r q /\
  xorb (last_q r q) (word_at (skipn (length r) x)) = true.
Proof.
  revert q x; induction r as [|p r IH]; intros q x Hr H.
  - simpl in *. now split.
  - destruct x as [|c x]; [discriminate|]. simpl in H, Hr.
    apply andb_true_iff in H as [H1 H2].
    apply andb_true_iff in Hr as [Hp Hr].
    cbn [length ctx_after last_q skipn].
    rewrite <- (char_eq_plain_word _ _ Hp H1). now apply IH.
Qed.

Lemma both_sound (a b : str) (q : bool) (x : str) :
  forallb plain a = true -> forallb plain b = true ->
  tail_occ a q x = true -> tail_occ b q x = true ->
  both a b q = true.
Proof.
  revert b q x; induction a as [|c a IH]; intros [|d b] q x Ha Hb Ta Tb.
  - reflexivity.
  - simpl in *. destruct x as [|e x]; [discriminate|].
    apply andb_true_iff in Tb as [Tb _]. apply andb_true_iff in Hb as [Hd _].
    simpl in Ta. now rewrite <- (char_eq_plain_word _ _ Hd Tb).
  - simpl in *. destruct x as [|e x]; [discriminate|].
    apply andb_true_iff in Ta as [Ta _]. apply andb_true_iff in Ha as [Hc _].
    simpl in Tb. now rewrite <- (char_eq_plain_word _ _ Hc Ta).
  - simpl in *. destruct x as [|e x]; [discriminate|].
    apply andb_true_iff in Ta as [Ta1 Ta2].
    apply andb_true_iff in Tb as [Tb1 Tb2].
    apply andb_true_iff in Ha as [Hc Ha].
    apply andb_true_iff in Hb as [Hd Hb].
    rewrite (char_eq_plain_inj _ _ _ Hc Hd Ta1 Tb1), N.eqb_refl. simpl.
    rewrite <- (char_eq_plain_inj _ _ _ Hc Hd Ta1 Tb1).
    rewrite <- (char_eq_plain_word _ _ Hc Ta1). now apply (IH b _ x).
Qed.

Lemma can_occur_sound (r w : str) (q : bool) (x : str) :
  forallb plain r = true -> plain_word w = true ->
  tail_occ r q x = true -> occ w q x = true ->
  can_occur r q w = true.
Proof.
  intros Hr Hw Tr Ow. unfold can_occur.
  pose proof (plain_word_plain _ Hw) as Hp.
  destruct (plain_word_parts _ Hw) as (p & w' & -> & Hl & _ & _).
  unfold occ in Ow. apply andb_true_iff in Ow as [B Tw].
  apply andb_true_iff. split.
  - simpl hd. rewrite Hl.
    now rewrite (tail_occ_word_head _ _ _ Hw Tw) in B.
  - now apply (both_sound _ _ _ x).
Qed.

Lemma safe_head (w r : str) (q : bool) :
  safe w r q = true -> can_occur r q w = false.
Proof.
  destruct r; simpl; intros H; apply andb_true_iff in H as [H _];
    now apply negb_true_iff in H.
Qed.

Lemma safe_no_occ (w r : str) (q : bool) (x : str) :
  forallb plain r = true -> plain_word w = true -> safe w r q = true ->
  tail_occ r q x = true -> occ w q x = false.
Proof.
  intros Hr Hw Hs Tr. destruct (occ w q x) eqn:E; [|reflexivity].
  pose proof (safe_head _ _ _ Hs) as F.
  rewrite (@can_occur_sound r w q x Hr Hw Tr E) in F. discriminate.
Qed.

(** Behind the occurrence of one word, up to its end, no occurrence of the
    other word starts. *)
Lemma has_skip (w' r : str) (q : bool) (x : str) :
  forallb plain r = true -> plain_word w' = true -> safe w' r q = true ->
  tail_occ r q x = true ->
  has w' q x = has w' (last_q r q) (skipn (length r) x).
Proof.
  revert q x; induction r as [|p r IH]; intros q x Hr Hw Hs Tr.
  - reflexivity.
  - pose proof (@safe_no_occ w' (p :: r) q x Hr Hw Hs Tr) as E.
    destruct x as [|c x]; [discriminate|].
    cbn [has length skipn last_q]. rewrite E. cbn [orb].
    simpl in Tr, Hr, Hs.
    apply andb_true_iff in Tr as [T1 T2].
    apply andb_true_iff in Hr as [Hp Hr].
    apply andb_true_iff in Hs as [_ Hs].
    rewrite (char_eq_plain_word _ _ Hp T1) in *. now apply IH.
Qed.

Lemma clash_no_tail_occ (w t : str) (q : bool) (rest : str) :
  clash w t = true -> tail_occ w q (t ++ rest) = false.
Proof.
  revert t q; induction w as [|p w IH]; intros [|c t] q H;
    cbn [clash] in H; try discriminate.
  cbn [app tail_occ]. destruct (char_eq true p c); cbn [andb orb negb] in *.
  - now apply IH.
  - reflexivity.
Qed.

Lemma has_clash_prefix (w t : str) (q : bool) (rest : str) :
  all_clash w t = true ->
  has w q (t ++ rest) = has w (ctx_after (length t) q (t ++ rest)) rest.
Proof.
  revert q; induction t as [|c t IH]; intros q H; [reflexivity|].
  cbn [all_clash] in H. apply andb_true_iff in H as [H1 H2].
  cbn [app has length ctx_after]. unfold occ.
  change (c :: t ++ rest) with ((c :: t) ++ rest).
  rewrite (clash_no_tail_occ _ _ q rest H1), andb_false_r. cbn [orb].
  now apply IH.
Qed.

Lemma ctx_after_app (t : str) (q : bool) (rest : str) :
  t <> [] -> ctx_after (length t) q (t ++ rest) = word_at (rev t).
Proof.
  revert q; induction t as [|c t IH]; intros q H; [congruence|].
  cbn [length app ctx_after]. destruct t as [|d t]; [reflexivity|].
  rewrite IH by discriminate. cbn [rev].
  destruct (rev t ++ [d]) eqn:E; [destruct (rev t); discriminate|].
  reflexivity.
Qed.

Lemma has_nonword_head (w : str) (a b : bool) (x : str) :
  plain_word w = true -> word_at x = false -> has w a x = has w b x.
Proof.
  intros Hw Hx. destruct x as [|c x]; cbn [has];
    now rewrite !(occ_nonword_head _ _ _ Hw Hx).
Qed.

End TwoWords.

(** ** Replacing one word and looking for another *)

Section Filtering.
Context {R : PyRuntime}.

Lemma char_eq_not_plain (p e : N) :
  plain p = true -> plain (fold_case e) = false -> char_eq true p e = false.
Proof.
  intros Hp He. unfold char_eq. rewrite (plain_fold _ Hp).
  destruct (N.eqb_spec p (fold_case e)) as [E|]; [|reflexivity].
  rewrite <- E in He. congruence.
Qed.

Lemma repl_ok_parts (repl : str) :
  repl_ok repl = true ->
  exists e t, repl = e :: t /\ plain (fold_case e) = false /\
              is_word e = false /\ word_at (rev repl) = false.
Proof.
  unfold repl_ok. intros H.
  apply andb_true_iff in H as [H H3]. apply andb_true_iff in H as [H1 H2].
  destruct repl as [|e t]; [discriminate|]. exists e, t.
  apply negb_true_iff in H1, H2, H3. now repeat split.
Qed.

Lemma filt_skip (w repl : str) (k : nat) (q : bool) (x : str) :
  filt w repl q x k = filt w repl (ctx_after k q x) (skipn k x) 0.
Proof.
  revert q x; induction k as [|k IH]; intros q x; [reflexivity|].
  destruct x as [|c x]; [reflexivity|]. cbn [filt ctx_after skipn].
  apply IH.
Qed.

Lemma safe_nil (w : str) (q : bool) :
  plain_word w = true -> safe w [] q = q.
Proof.
  intros Hw. destruct (plain_word_parts _ Hw) as (p & r & -> & Hl & _).
  unfold safe, can_occur. simpl. rewrite Hl. now destruct q.
Qed.

Lemma filt_nonword_head (w repl : str) (q : bool) (x : str) :
  plain_word w = true -> word_at x = false ->
  word_at (filt w repl q x 0) = false.
Proof.
  intros Hw Hx. destruct x as [|c x]; [reflexivity|]. cbn [filt].
  now rewrite (occ_nonword_head _ q _ Hw Hx).
Qed.

(** The step of the scan at an occurrence of [w]. *)
Lemma filt_at_occ (w repl : str) (q : bool) (x : str) :
  plain_word w = true -> occ w q x = true ->
  q = false /\ tail_occ w false x = true /\
  word_at (skipn (length w) x) = false /\
  filt w repl q x 0 = repl ++ filt w repl true (skipn (length w) x) 0.
Proof.
  intros Hw E. destruct (occ_context _ _ _ Hw E) as [-> Tw].
  pose proof (plain_word_plain _ Hw) as Hpw.
  destruct (tail_occ_after _ _ _ Hpw Tw) as [A B].
  rewrite (plain_word_last_q _ false Hw) in A, B.
  split; [reflexivity|]. split; [exact Tw|].
  split; [now destruct (word_at (skipn (length w) x))|].
  destruct (plain_word_parts _ Hw) as (p & r & Ew & _).
  destruct x as [|c x']; [rewrite Ew in Tw; discriminate Tw|].
  cbn [filt]. rewrite E, filt_skip. f_equal.
  rewrite Ew in A |- *. cbn [length ctx_after skipn] in A |- *.
  replace (S (length r) - 1)%nat with (length r) by lia.
  now rewrite A.
Qed.

(** The replacement text is known through two facts only: what stands in
    front of it cannot run on into it ([repl_tail], for the rests of words
    that [tail_ok] admits), and no occurrence of the other word begins in
    it (a hypothesis of [has_filt]). *)
Section Replacement.
Variables (w repl : str) (tail_ok : str -> bool -> bool).
Hypothesis w_plain : plain_word w = true.
Hypothesis tail_ok_step :
  forall p r q,
    tail_ok (p :: r) q = true -> tail_ok r (is_lower_ascii p) = true.
Hypothesis repl_tail :
  forall p r rest,
    forallb plain (p :: r) = true -> tail_ok (p :: r) false = true ->
    word_at rest = false -> tail_occ (p :: r) false (repl ++ rest) = false.

(** Replacing the occurrences of [w] behind the beginning of an
    occurrence of another word does not change whether that occurrence is
    one. *)
Lemma tail_occ_filt (r : str) (q : bool) (x : str) :
  forallb plain r = true -> safe w r q = true -> tail_ok r q = true ->
  tail_occ r q (filt w repl q x 0) = tail_occ r q x.
Proof.
  revert q x; induction r as [|p r IH]; intros q x Hr Hs Ht.
  - rewrite (safe_nil w q w_plain) in Hs. subst q.
    destruct x as [|c x]; [reflexivity|]. cbn [filt].
    destruct (occ w true (c :: x)) eqn:E; [|reflexivity].
    destruct (occ_context _ _ _ w_plain E). discriminate.
  - destruct (occ w q x) eqn:E.
    + assert (T : tail_occ (p :: r) q x = false).
      { destruct (tail_occ (p :: r) q x) eqn:T; [|reflexivity].
        rewrite (@safe_no_occ _ w (p :: r) q x Hr w_plain Hs T) in E.
        discriminate. }
      rewrite T.
      destruct (@filt_at_occ w repl q x w_plain E) as (-> & _ & Hy & ->).
      apply repl_tail; [exact Hr | exact Ht |].
      now apply filt_nonword_head.
    + destruct x as [|c x]; [reflexivity|]. cbn [filt]. rewrite E.
      cbn [tail_occ]. destruct (char_eq true p c) eqn:C; [|reflexivity].
      cbn [andb]. pose proof (@tail_ok_step p r q Ht) as Ht'.
      simpl in Hr, Hs.
      apply andb_true_iff in Hr as [Hp Hr].
      apply andb_true_iff in Hs as [_ Hs].
      rewrite (char_eq_plain_word _ _ Hp C). now apply IH.
Qed.

Lemma occ_filt (w' : str) (q : bool) (x : str) :
  plain_word w' = true ->
  safe w (tl w') true = true -> tail_ok (tl w') true = true ->
  occ w q x = false ->
  occ w' q (filt w repl q x 0) = occ w' q x.
Proof.
  intros Hw' Hs Ht E.
  destruct (plain_word_parts _ Hw') as (p & r & -> & Hl & Hp & Hr).
  destruct x as [|c x]; [reflexivity|]. cbn [filt]. rewrite E.
  unfold occ. cbn [word_at tail_occ]. f_equal.
  destruct (char_eq true p c) eqn:C; [|reflexivity]. cbn [andb].
  rewrite (char_eq_plain_word _ _ Hp C), Hl.
  now apply tail_occ_filt.
Qed.

(** After the occurrences of [w] are replaced, [w] occurs no more, and
    every other word occurs exactly if it did. *)
Lemma has_filt (w' : str) :
  plain_word w' = true ->
  safe w (tl w') true = true -> tail_ok (tl w') true = true ->
  (forall rest, word_at rest = false ->
                has w' false (repl ++ rest) = has w' true rest) ->
  (str_eqb w' w = false -> safe w' w false = true) ->
  forall (n : nat) (x : str) (q : bool),
    (length x <= n)%nat ->
    has w' q (filt w repl q x 0) =
    if str_eqb w' w then false else has w' q x.
Proof.
  intros Hw' Hs1 Ht Hrepl Hs2.
  assert (Hnil : forall q, has w' q [] = false).
  { intros q. cbn [has]. now rewrite (occ_nonword_head w' q [] Hw'). }
  induction n as [|n IH]; intros x q Hn.
  - destruct x; [|simpl in Hn; lia]. cbn [filt]. rewrite Hnil.
    now destruct (str_eqb w' w).
  - destruct x as [|c x'].
    { cbn [filt]. rewrite Hnil. now destruct (str_eqb w' w). }
    destruct (occ w q (c :: x')) eqn:E.
    + destruct (@filt_at_occ w repl q (c :: x') w_plain E)
        as (-> & Tw & Hy & ->).
      rewrite Hrepl by (now apply filt_nonword_head).
      rewrite IH.
      * destruct (str_eqb w' w) eqn:Eq; [reflexivity|].
        rewrite (@has_skip _ w' w false (c :: x')
                   (plain_word_plain _ w_plain) Hw' (Hs2 eq_refl) Tw).
        now rewrite (plain_word_last_q _ false w_plain).
      * rewrite length_skipn.
        destruct (plain_word_parts _ w_plain) as (p & r & -> & _).
        simpl in *. lia.
    + pose proof (@occ_filt w' q (c :: x') Hw' Hs1 Ht E) as L.
      cbn [filt] in L |- *. rewrite E in L |- *.
      cbn [has]. rewrite L, IH by (simpl in Hn; lia).
      destruct (str_eqb w' w) eqn:Eq; [|reflexivity].
      apply str_eqb_eq in Eq; subst w'. now rewrite E.
Qed.

End Replacement.

(** *** The replacement is a token in brackets *)

Lemma has_filt_token (w w' repl : str) :
  plain_word w = true -> plain_word w' = true -> repl_ok repl = true ->
  all_clash w' repl = true ->
  safe w (tl w') true = true ->
  (str_eqb w' w = false -> safe w' w false = true) ->
  forall (n : nat) (x : str) (q : bool),
    (length x <= n)%nat ->
    has w' q (filt w repl q x 0) =
    if str_eqb w' w then false else has w' q x.
Proof.
  intros Hw Hw' Hrepl Hclash Hs1 Hs2.
  destruct (repl_ok_parts _ Hrepl) as (e & t & Er & He & _ & Hlast).
  apply (@has_filt w repl (fun _ _ => true) Hw); auto.
  - intros p r rest Hr _ _. rewrite Er. cbn [app tail_occ].
    simpl in Hr. apply andb_true_iff in Hr as [Hp _].
    now rewrite (char_eq_not_plain _ _ Hp He).
  - intros rest Hrest.
    rewrite has_clash_prefix by exact Hclash.
    rewrite ctx_after_app by (rewrite Er; discriminate).
    rewrite Hlast. now apply has_nonword_head.
Qed.

(** *** The replacement is a plain word *)

Lemma plain_is_word (p : N) : plain p = true -> is_word p = is_lower_ascii p.
Proof. intros Hp. apply fold_plain_word; [exact Hp | now apply plain_fold]. Qed.

Lemma char_eq_same (p : N) : char_eq true p p = true.
Proof. unfold char_eq. apply N.eqb_refl. Qed.

Lemma tail_occ_self (r : str) (q : bool) (rest : str) :
  forallb plain r = true ->
  tail_occ r q (r ++ rest) = xorb (last_q r q) (word_at rest).
Proof.
  revert q; induction r as [|p r IH]; intros q Hr; [reflexivity|].
  simpl in Hr. apply andb_true_iff in Hr as [Hp Hr].
  cbn [app tail_occ last_q]. rewrite char_eq_same, (plain_is_word _ Hp).
  now apply IH.
Qed.

(** The word stands where it was put. *)
Lemma occ_self (w rest : str) :
  plain_word w = true -> word_at rest = false ->
  occ w false (w ++ rest) = true.
Proof.
  intros Hw Hrest. unfold occ.
  rewrite (tail_occ_self _ false rest (plain_word_plain _ Hw)).
  rewrite (plain_word_last_q _ false Hw), Hrest.
  destruct (plain_word_parts _ Hw) as (p & r & -> & Hl & Hp & _).
  cbn [app word_at]. now rewrite (plain_is_word _ Hp), Hl.
Qed.

Lemma both_same (a : str) (q : bool) : both a a q = true.
Proof.
  revert q; induction a as [|c a IH]; intros q; [reflexivity|].
  cbn [both]. now rewrite N.eqb_refl, IH.
Qed.

Lemma safe_differs (w w' : str) :
  plain_word w = true -> safe w' w false = true -> str_eqb w' w = false.
Proof.
  intros Hw Hs. destruct (str_eqb w' w) eqn:E; [|reflexivity].
  apply str_eqb_eq in E; subst w'. apply safe_head in Hs.
  unfold can_occur in Hs. rewrite both_same in Hs.
  destruct (plain_word_parts _ Hw) as (p & r & -> & Hl & _).
  simpl in Hs. now rewrite Hl in Hs.
Qed.

Lemma has_filt_word (w corr w' : str) :
  plain_word w = true -> plain_word corr = true -> plain_word w' = true ->
  safe w (tl w') true = true -> safe corr (tl w') true = true ->
  safe w' w false = true -> safe w' corr false = true ->
  forall (x : str) (q : bool),
    has w' q (filt w corr q x 0) = has w' q x.
Proof.
  intros Hw Hc Hw' Hs1 Hs2 Hs3 Hs4 x q.
  pose proof (@has_filt w corr (safe corr) Hw) as H.
  rewrite (H) with (n := length x) (w' := w'); auto.
  - now rewrite (safe_differs _ _ Hw Hs3).
  - intros p r q0 Hs. simpl in Hs. now apply andb_true_iff in Hs as [_ Hs].
  - intros p r rest Hr Hs Hrest.
    destruct (tail_occ (p :: r) false (corr ++ rest)) eqn:T; [|reflexivity].
    pose proof (@safe_no_occ _ corr (p :: r) false (corr ++ rest)
                  Hr Hc Hs T) as F.
    rewrite (occ_self _ _ Hc Hrest) in F. discriminate.
  - intros rest Hrest.
    rewrite (@has_skip _ w' corr false (corr ++ rest)
               (plain_word_plain _ Hc) Hw' Hs4).
    + rewrite (plain_word_last_q _ false Hc).
      now rewrite skipn_app, skipn_all, Nat.sub_diag.
    + rewrite (tail_occ_self _ false rest (plain_word_plain _ Hc)).
      now rewrite (plain_word_last_q _ false Hc), Hrest.
Qed.

End Filtering.

(** ** Banned-word filtering *)

Section Banned.
Context {R : PyRuntime}.

Lemma remove_banned_step_text (acc : str * list fix_record) (word : str) :
  word <> [] -> remove_banned_step acc word = banned_step_text acc word.
Proof.
  intros Hw. destruct acc as [cur fixes].
  unfold remove_banned_step, banned_step_text. cbn [fst snd].
  rewrite re_test_whole_word. now rewrite re_sub_whole_word.
Qed.

Lemma fold_left_same {A B : Type} (f g : A -> B -> A) (l : list B) (a : A) :
  (forall x b, In b l -> f x b = g x b) ->
  fold_left f l a = fold_left g l a.
Proof.
  revert a; induction l as [|b l IH]; intros a H; [reflexivity|].
  simpl. rewrite H by now left. apply IH. intros x b' Hb. apply H. now right.
Qed.

Variable all : list str.
Hypothesis all_ok : words_ok filtered all = true.

Lemma all_repl_ok : repl_ok filtered = true.
Proof.
  unfold words_ok in all_ok.
  repeat (apply andb_true_iff in all_ok as [all_ok _]). exact all_ok.
Qed.

Lemma all_self_ok (w : str) : In w all -> self_ok filtered w = true.
Proof.
  unfold words_ok in all_ok.
  apply andb_true_iff in all_ok as [H _].
  apply andb_true_iff in H as [_ H].
  rewrite forallb_forall in H. apply H.
Qed.

Lemma all_pair_ok (w w' : str) :
  In w all -> In w' all -> str_eqb w w' = false -> pair_ok w w' = true.
Proof.
  unfold words_ok in all_ok.
  apply andb_true_iff in all_ok as [_ H].
  rewrite forallb_forall in H. intros Hw Hw' E.
  specialize (H w Hw). rewrite forallb_forall in H.
  specialize (H w' Hw'). now rewrite E in H.
Qed.

Lemma all_plain_word (w : str) : In w all -> plain_word w = true.
Proof.
  intros H. apply all_self_ok in H. unfold self_ok in H.
  apply andb_true_iff in H as [H _]. now apply andb_true_iff in H as [H _].
Qed.

Lemma str_eqb_sym (a b : str) : str_eqb a b = str_eqb b a.
Proof.
  destruct (str_eqb a b) eqn:E.
  - apply str_eqb_eq in E; subst. now rewrite str_eqb_refl.
  - destruct (str_eqb b a) eqn:E'; [|reflexivity].
    apply str_eqb_eq in E'; subst. now rewrite str_eqb_refl in E.
Qed.

(** One step of the loop: the word of the step is gone, and every other
    word of the list occurs exactly if it did before. *)
Lemma banned_step_has (w w' cur : str) (fixes : list fix_record) :
  In w all -> In w' all ->
  has w' false (fst (banned_step_text (cur, fixes) w)) =
  if str_eqb w' w then false else has w' false cur.
Proof.
  intros Hw Hw'. unfold banned_step_text. cbn [fst snd].
  destruct (has w false cur) eqn:E; cbn [fst].
  - pose proof (all_self_ok _ Hw') as S'. unfold self_ok in S'.
    apply andb_true_iff in S' as [S' S3].
    apply andb_true_iff in S' as [S1 S2].
    apply (@has_filt_token _ w w' filtered (all_plain_word _ Hw) S1 all_repl_ok S2)
      with (n := length cur); [| |lia].
    + destruct (str_eqb w w') eqn:Eq.
      * apply str_eqb_eq in Eq; subst w'. exact S3.
      * pose proof (all_pair_ok _ _ Hw Hw' Eq) as P. unfold pair_ok in P.
        now apply andb_true_iff in P as [_ P].
    + intros Eq. rewrite str_eqb_sym in Eq.
      pose proof (all_pair_ok _ _ Hw Hw' Eq) as P. unfold pair_ok in P.
      now apply andb_true_iff in P as [P _].
  - destruct (str_eqb w' w) eqn:Eq; [|reflexivity].
    apply str_eqb_eq in Eq; subst w'. exact E.
Qed.

Lemma banned_step_fixes (w cur : str) (fixes : list fix_record) :
  snd (banned_step_text (cur, fixes) w) =
  fixes ++ map banned_fix (filter (fun w => has w false cur) [w]).
Proof.
  unfold banned_step_text. cbn [fst snd filter].
  destruct (has w false cur); cbn [snd map]; [reflexivity|].
  now rewrite app_nil_r.
Qed.

Lemma fold_banned_text (todo : list str) :
  incl todo all -> distinct todo = true ->
  forall (cur : str) (fixes : list fix_record),
    let result := fold_left banned_step_text todo (cur, fixes) in
    (forall w', In w' all ->
       has w' false (fst result) =
       if existsb (str_eqb w') todo then false else has w' false cur) /\
    snd result =
      fixes ++ map banned_fix (filter (fun w => has w false cur) todo).
Proof.
  induction todo as [|w rest IH]; intros Hin Hd cur fixes.
  - cbn. split; [reflexivity | now rewrite app_nil_r].
  - cbn [fold_left].
    assert (Hw : In w all) by (apply Hin; now left).
    assert (Hrest : incl rest all) by (intros a Ha; apply Hin; now right).
    cbn [distinct] in Hd. apply andb_true_iff in Hd as [Hnew Hd].
    apply negb_true_iff in Hnew.
    pose proof (fun w' => @banned_step_has w w' cur fixes Hw) as K.
    pose proof (banned_step_fixes w cur fixes) as F.
    destruct (banned_step_text (cur, fixes) w) as [cur1 fixes1].
    cbn [fst snd] in K, F.
    destruct (IH Hrest Hd cur1 fixes1) as [A B]. split.
    + intros w' Hw'. rewrite (A w' Hw'), (K w' Hw'). cbn [existsb].
      destruct (str_eqb w' w); cbn [orb];
        now destruct (existsb (str_eqb w') rest).
    + rewrite B, F. cbn [filter].
      assert (Ef : filter (fun w0 => has w0 false cur1) rest =
                   filter (fun w0 => has w0 false cur) rest).
      { apply filter_ext_in. intros a Ha. rewrite (K a (Hrest a Ha)).
        destruct (str_eqb a w) eqn:Eq; [|reflexivity].
        apply str_eqb_eq in Eq; subst a.
        assert (existsb (str_eqb w) rest = true)
          by (apply existsb_exists; exists w; split;
              [exact Ha | apply str_eqb_refl]).
        congruence. }
      rewrite Ef. destruct (has w false cur); cbn [map app].
      * now rewrite <- app_assoc.
      * now rewrite app_nil_r.
Qed.

End Banned.

Lemma banned_words_ok (R : PyRuntime) : words_ok filtered banned_words = true.
Proof. vm_compute. reflexivity. Qed.

(** *** Typo correction leaves the denylisted words alone *)

Section Typos.
Context {R : PyRuntime}.

Lemma fix_typos_step_text (acc : str * list fix_record) (e : str * str) :
  fst e <> [] -> fix_typos_step acc e = typo_step_text acc e.
Proof.
  intros He. destruct acc as [cur fixes], e as [typo correction].
  unfold fix_typos_step, typo_step_text. cbn [fst snd] in *.
  rewrite re_test_whole_word. now rewrite re_sub_whole_word.
Qed.

Lemma typo_step_has (typos : list (str * str)) (ws : list str)
    (acc : str * list fix_record) (e : str * str) (w : str) :
  typos_ok typos ws = true -> In e typos -> In w ws ->
  has w false (fst (typo_step_text acc e)) = has w false (fst acc).
Proof.
  unfold typos_ok. intros H He Hw.
  apply andb_true_iff in H as [Hws H].
  rewrite forallb_forall in Hws, H.
  specialize (H e He). apply andb_true_iff in H as [H Hall].
  apply andb_true_iff in H as [Ht Hc].
  rewrite forallb_forall in Hall. specialize (Hall w Hw).
  apply andb_true_iff in Hall as [Hall S4].
  apply andb_true_iff in Hall as [Hall S3].
  apply andb_true_iff in Hall as [S1 S2].
  unfold typo_step_text.
  destruct (has (fst e) false (fst acc)); [|reflexivity]. cbn [fst].
  apply has_filt_word; auto.
Qed.

Lemma fold_left_unchanged {A B C : Type} (inv : A -> C) (step : A -> B -> A)
    (l : list B) (a : A) :
  (forall x b, In b l -> inv (step x b) = inv x) ->
  inv (fold_left step l a) = inv a.
Proof.
  revert a; induction l as [|b l IH]; intros a H; [reflexivity|].
  simpl. rewrite IH by (intros x b' Hb; apply H; now right).
  apply H. now left.
Qed.

Lemma common_typos_ok : typos_ok common_typos banned_words = true.
Proof. vm_compute. reflexivity. Qed.

Lemma fix_typos_text (query : str) :
  fix_typos query = fold_left typo_step_text common_typos (query, []).
Proof.
  unfold fix_typos. apply fold_left_same. intros x e He.
  apply fix_typos_step_text.
  repeat (destruct He as [<-|He]; [discriminate|]). destruct He.
Qed.

(** A denylisted word occurs in the typo-corrected query exactly if it
    occurs in the query. *)
Lemma fix_typos_keeps_banned (query word : str) :
  In word banned_words ->
  re_test true (whole_word word) (fst (fix_typos query)) =
  re_test true (whole_word word) query.
Proof.
  intros Hw. rewrite !re_test_whole_word, fix_typos_text.
  apply (fold_left_unchanged (fun acc => has word false (fst acc))).
  intros acc e He.
  now apply (@typo_step_has common_typos banned_words acc e word
               common_typos_ok).
Qed.

End Typos.

(** *** The records of the other steps *)

Section OtherRecords.
Context {R : PyRuntime}.

Lemma fold_keeps {A : Type} (P : fix_record -> Prop)
    (step : str * list fix_record -> A -> str * list fix_record)
    (l : list A) :
  (forall acc a, (forall f, In f (snd acc) -> P f) ->
                 forall f, In f (snd (step acc a)) -> P f) ->
  forall acc, (forall f, In f (snd acc) -> P f) ->
              forall f, In f (snd (fold_left step l acc)) -> P f.
Proof.
  intros Hstep. induction l as [|a l IH]; intros acc Hacc; [exact Hacc|].
  simpl. apply IH. now apply Hstep.
Qed.

Lemma in_snoc {A : Type} (l : list A) (a x : A) :
  In x (l ++ [a]) -> In x l \/ x = a.
Proof.
  intros H. apply in_app_or in H as [H|[H|[]]]; [now left | now right].
Qed.

Lemma fix_typos_records (query : str) (f : fix_record) :
  In f (snd (fix_typos query)) -> is_banned_fix f = false.
Proof.
  unfold fix_typos.
  apply (fold_keeps (fun f => is_banned_fix f = false)); [|intros ? []].
  intros [cur fixes] [typo correction] Hacc f0. unfold fix_typos_step.
  destruct (re_test _ _ _); [|apply Hacc]. cbn [snd] in *.
  intros H. apply in_snoc in H as [H| ->]; [now apply Hacc | reflexivity].
Qed.

Lemma date_records (current_year : N) (query : str) (f : fix_record) :
  In f (snd (normalize_date_formats current_year query)) ->
  is_banned_fix f = false.
Proof.
  unfold normalize_date_formats. cbn [snd]. intros H.
  apply in_map_iff in H as (m & <- & _). unfold date_fix.
  now destruct (date_parts current_year m) as [[month day] year].
Qed.

Lemma email_records (query : str) (f : fix_record) :
  In f (snd (validate_email_format query)) -> is_banned_fix f = false.
Proof.
  unfold validate_email_format.
  apply (fold_keeps (fun f => is_banned_fix f = false)); [|intros ? []].
  intros acc email Hacc. unfold email_step.
  apply (fold_keeps (fun f => is_banned_fix f = false)); [|exact Hacc].
  intros [cur fixes] [typo good] Hacc' f0.
  destruct (str_eqb _ _); [|apply Hacc']. cbn [snd] in *.
  intros H. apply in_snoc in H as [H| ->]; [now apply Hacc' | reflexivity].
Qed.

Lemma unsafe_records (query : str) (f : fix_record) :
  In f (snd (detect_unsafe_commands query)) -> is_banned_fix f = false.
Proof.
  unfold detect_unsafe_commands. cbn [snd].
  rewrite (fold_left_collect (fun p => re_test true (snd p) query)
                             (fun p => unsafe_warning (fst p))).
  intros H. apply in_map_iff in H as (p & <- & _). reflexivity.
Qed.

Lemma url_records (query : str) (f : fix_record) :
  In f (snd (validate_urls query)) -> is_banned_fix f = false.
Proof.
  unfold validate_urls.
  apply (fold_keeps (fun f => is_banned_fix f = false)); [|intros ? []].
  intros [cur fixes] url Hacc f0.
  destruct (first_suspicious url); [|apply Hacc]. cbn [snd] in *.
  intros H. apply in_snoc in H as [H| ->]; [now apply Hacc | reflexivity].
Qed.

Lemma currency_records (query : str) (f : fix_record) :
  In f (snd (normalize_numeric_values query)) -> is_banned_fix f = false.
Proof.
  unfold normalize_numeric_values. cbn [snd]. intros H.
  apply in_map_iff in H as (m & <- & _). reflexivity.
Qed.

Lemma pii_records (query : str) (f : fix_record) :
  In f (snd (detect_pii query)) -> is_banned_fix f = false.
Proof.
  unfold detect_pii.
  destruct (re_test false cc_pattern query);
    match goal with
    | |- context [re_test false ssn_pattern ?q] =>
        destruct (re_test false ssn_pattern q)
    end; cbn [snd app];
    intros H; repeat (destruct H as [<-|H]; [reflexivity|]); destruct H.
Qed.

Lemma whitespace_records (query : str) (f : fix_record) :
  In f (snd (remove_excessive_whitespace query)) -> is_banned_fix f = false.
Proof.
  unfold remove_excessive_whitespace. destruct (negb _); cbn [snd];
    intros H; repeat (destruct H as [<-|H]; [reflexivity|]); destruct H.
Qed.

Lemma limit_records (query : str) (max_length : Z) (f : fix_record) :
  In f (snd (limit_query_length query max_length)) -> is_banned_fix f = false.
Proof.
  unfold limit_query_length. destruct (_ >? _)%Z; cbn [snd];
    intros H; repeat (destruct H as [<-|H]; [reflexivity|]); destruct H.
Qed.

Lemma run_heuristic_eq (acc : str * list fix_record)
    (h : str -> str * list fix_record) :
  run_heuristic acc h = (fst (h (fst acc)), snd acc ++ snd (h (fst acc))).
Proof.
  destruct acc as [q fx]. unfold run_heuristic. cbn [fst snd].
  now destruct (h q).
Qed.

Lemma run_fixes (hs : list (str -> str * list fix_record)) (q : str)
    (fx : list fix_record) :
  fold_left run_heuristic hs (q, fx) =
  (fst (fold_left run_heuristic hs (q, [])),
   fx ++ snd (fold_left run_heuristic hs (q, []))).
Proof.
  revert q fx; induction hs as [|h hs IH]; intros q fx.
  - cbn. now rewrite app_nil_r.
  - cbn [fold_left]. rewrite !run_heuristic_eq. cbn [fst snd app].
    rewrite (IH _ (fx ++ snd (h q))), (IH _ (snd (h q))). cbn [fst snd].
    now rewrite app_assoc.
Qed.

Lemma run_keeps (P : fix_record -> Prop)
    (hs : list (str -> str * list fix_record)) :
  (forall h, In h hs -> forall q f, In f (snd (h q)) -> P f) ->
  forall q f, In f (snd (fold_left run_heuristic hs (q, []))) -> P f.
Proof.
  induction hs as [|h hs IH]; intros H q f; [intros []|].
  cbn [fold_left]. rewrite run_heuristic_eq, run_fixes. cbn [fst snd app].
  intros Hf. apply in_app_or in Hf as [Hf|Hf].
  - apply (H h (or_introl eq_refl) q f Hf).
  - apply (IH (fun h' Hh' => H h' (or_intror Hh')) _ f Hf).
Qed.

(** The fix list of the pipeline: the records of the typo step, those of
    the banned-word step on the typo-corrected query, and those of the
    eight later steps. *)
Lemma pipeline_fixes (current_year : N) (query : str) :
  exists later : list fix_record,
    snd (apply_heuristics current_year query) =
      snd (fix_typos query) ++
      snd (remove_banned_words (fst (fix_typos query))) ++ later /\
    forall f, In f later -> is_banned_fix f = false.
Proof.
  unfold apply_heuristics, validate_and_fix_query.
  change (heuristics current_year)
    with (fix_typos :: remove_banned_words :: later_heuristics current_year).
  cbn [fold_left]. rewrite !run_heuristic_eq. cbn [fst snd app].
  rewrite run_fixes. cbn [snd].
  eexists. split; [now rewrite <- app_assoc|].
  apply (run_keeps (fun f => is_banned_fix f = false)).
  intros h Hh q f. unfold later_heuristics, heuristics in Hh.
  cbn [skipn] in Hh.
  repeat (destruct Hh as [<-|Hh];
          [first [ apply date_records | apply email_records
                 | apply unsafe_records | apply url_records
                 | apply currency_records | apply pii_records
                 | apply whitespace_records | apply limit_records ]|]).
  destruct Hh.
Qed.

Lemma filter_none {A : Type} (p : A -> bool) (l : list A) :
  (forall x, In x l -> p x = false) -> filter p l = [].
Proof.
  induction l as [|a l IH]; intros H; [reflexivity|]. simpl.
  rewrite (H a) by now left. apply IH. intros x Hx. apply H. now right.
Qed.

Lemma filter_all {A : Type} (p : A -> bool) (l : list A) :
  (forall x, In x l -> p x = true) -> filter p l = l.
Proof.
  induction l as [|a l IH]; intros H; [reflexivity|]. simpl.
  rewrite (H a) by now left. f_equal. apply IH. intros x Hx. apply H.
  now right.
Qed.

End OtherRecords.

(** C2, as stated, fails: the second credit card of the query is written
    with two spaces, so the filter leaves it, and white-space normalization
    then turns it into the denylisted phrase. *)
Lemma C2_banned_word_in_pipeline_output :
  let query := s "credit card credit  card" in
  let result := @apply_heuristics ascii_runtime 2026 query in
  In (s "credit card") banned_words /\
  @re_test ascii_runtime true (whole_word (s "credit card")) query = true /\
  result = (s "[FILTERED] credit card",
            [s "Removed banned word: 'credit card'";
             s "Removed excessive whitespace"]) /\
  contains (s "credit card") (fst result) = true /\
  @re_test ascii_runtime true (whole_word (s "credit card")) (fst result)
    = true.
Proof.
  cbv zeta. split.
  - do 5 right. left. reflexivity.
  - repeat split; vm_compute; reflexivity.
Qed.

(** The banned-word step on any input. *)
Lemma remove_banned_words_spec (R : PyRuntime) (query : str) :
  let result := remove_banned_words query in
  (forall word, In word banned_words ->
     re_test true (whole_word word) (fst result) = false) /\
  snd result =
    map banned_fix
        (filter (fun word => re_test true (whole_word word) query)
                banned_words).
Proof.
  intros result.
  assert (E : result = fold_left banned_step_text banned_words (query, [])).
  { unfold result, remove_banned_words. apply fold_left_same.
    intros x b Hb. apply remove_banned_step_text.
    repeat (destruct Hb as [<-|Hb]; [discriminate|]). destruct Hb. }
  assert (D : distinct banned_words = true) by (vm_compute; reflexivity).
  destruct (@fold_banned_text R banned_words (banned_words_ok R)
              banned_words (incl_refl _) D query []) as [A B].
  rewrite <- E in A, B. split.
  - intros word Hw. rewrite re_test_whole_word, (A word Hw).
    assert (X : existsb (str_eqb word) banned_words = true)
      by (apply existsb_exists; exists word; split;
          [exact Hw | apply str_eqb_refl]).
    now rewrite X.
  - rewrite B. cbn [app]. f_equal. apply filter_ext.
    intros a. now rewrite re_test_whole_word.
Qed.

(** C2 (amended): in the pipeline, the string returned by the banned-word
    step (which works on the typo-corrected query) holds no denylisted word
    as a whole word, searched as the step itself searches, with IGNORECASE;
    and the fix list of the whole pipeline holds exactly one banned-word
    record for each denylisted word that occurs as a whole word in the
    query, in the order of the denylist, however often the word occurs.
    Nothing is promised for the string the whole pipeline returns: later
    steps can bring a denylisted phrase back. *)
Theorem C2_banned_words (R : PyRuntime) (current_year : N) (query : str) :
  let step := remove_banned_words (fst (fix_typos query)) in
  (forall word, In word banned_words ->
     re_test true (whole_word word) (fst step) = false) /\
  filter is_banned_fix (snd (apply_heuristics current_year query)) =
    map banned_fix
        (filter (fun word => re_test true (whole_word word) query)
                banned_words).
Proof.
  intros step.
  destruct (remove_banned_words_spec R (fst (fix_typos query))) as [A B].
  fold step in A, B. split; [exact A|].
  destruct (pipeline_fixes current_year query) as (later & E & Hl).
  fold step in E. rewrite E, !filter_app.
  rewrite (filter_none _ _ (fix_typos_records query)).
  rewrite (filter_none _ _ Hl), app_nil_r. cbn [app].
  rewrite filter_all.
  - rewrite B. f_equal. apply filter_ext_in. intros word Hw.
    now apply fix_typos_keeps_banned.
  - intros f Hf. rewrite B in Hf. apply in_map_iff in Hf as (word & <- & _).
    apply starts_with_app.
Qed.

Lemma C2_banned_words_witness :
  let query := s "Hack the PASSWORD, then hack again" in
  @re_test ascii_runtime true (whole_word (s "hack"))
     (fst (@remove_banned_words ascii_runtime
             (fst (@fix_typos ascii_runtime query)))) = false /\
  filter is_banned_fix (snd (@apply_heuristics ascii_runtime 2026 query)) =
    [s "Removed banned word: 'hack'"; s "Removed banned word: 'password'"].
Proof.
  intros query.
  destruct (@C2_banned_words ascii_runtime 2026 query) as [A B]. split.
  - apply A. left. reflexivity.
  - rewrite B. vm_compute. reflexivity.
Defined.

(** ** Date normalization *)

Lemma last_n_app (c t : str) :
  last_n (length t) (c ++ t) = t.
Proof.
  unfold last_n. rewrite length_app.
  replace (length c + length t - length t)%nat with (length c + 0)%nat by lia.
  now rewrite skipn_app, Nat.add_0_r, skipn_all, Nat.sub_diag.
Qed.

Lemma str_of_uint_nil (d : Decimal.uint) : str_of_uint d = [] -> d = Decimal.Nil.
Proof. destruct d; simpl; congruence. Qed.

Lemma century_not_empty (current_year : N) : century current_year <> [].
Proof.
  unfold century, str_of_N. intros H.
  assert (E : str_of_uint (N.to_uint current_year) = []).
  { destruct (str_of_uint (N.to_uint current_year)) as [|a [|b l]];
      simpl in H; congruence. }
  apply str_of_uint_nil in E. destruct current_year as [|p]; simpl in E.
  - discriminate.
  - exact (Unsigned.to_uint_nonnil p E).
Qed.

(** The year group of the date pattern: whenever it matches, it has taken
    exactly two digits, because the two-digit alternative is tried first
    and nothing behind the group can make the matcher come back. *)
Lemma year_group_two_digits (R : PyRuntime) (st res : mstate) :
  rmatch false (Group 3 (Alt (Rep 2 digit) (Rep 4 digit))) st Some
    = Some res ->
  exists year, caps res = (3%nat, year) :: caps st /\ length year = 2%nat.
Proof.
  destruct st as [bef aft cs].
  unfold digit. cbn [rmatch Rep]. unfold step_char. cbn [after before caps].
  destruct aft as [|c1 [|c2 rest]].
  - discriminate.
  - destruct (in_class false [CDigit] c1); discriminate.
  - destruct (in_class false [CDigit] c1); [|discriminate].
    destruct (in_class false [CDigit] c2); [|discriminate].
    intros [= <-]. unfold close_group. cbn [before after caps length].
    replace (S (S (length bef)) - length bef)%nat with 2%nat by lia.
    exists [c1; c2]. split; reflexivity.
Qed.

Lemma date_match_year (R : PyRuntime) (bef aft : str) (m : rmatch_obj) :
  match_here false date_pattern bef aft = Some m ->
  length (group m 3) = 2%nat.
Proof.
  unfold match_here.
  destruct (rmatch false date_pattern _ Some) as [res|] eqn:E;
    [|discriminate].
  intros [= <-]. cbn [group m_groups].
  unfold date_pattern, seqs in E. cbn [rmatch] in E.
  apply rmatch_forward in E as (st1 & p1 & E & _).
  unfold step_char in E. cbn [after before caps close_group] in E.
  destruct (after st1) as [|c1 r1]; [discriminate|].
  destruct (char_eq false 47 c1); [|discriminate].
  apply rmatch_forward in E as (st2 & p2 & E & _).
  unfold step_char in E. cbn [after before caps close_group] in E.
  destruct (after st2) as [|c2 r2]; [discriminate|].
  destruct (char_eq false 47 c2); [|discriminate].
  change (rmatch false (Group 3 (Alt (Rep 2 digit) (Rep 4 digit)))
            (MState (c2 :: before st2) r2
               ((2%nat, rev (firstn (length (before st2) -
                                      length (c1 :: before st1))
                                    (before st2))) :: caps st2))
            Some = Some res) in E.
  apply year_group_two_digits in E as (year & -> & L).
  cbn [group_lookup Nat.eqb]. exact L.
Qed.

(** The four-digit alternative of the year is never taken: every match
    that [normalize_date_formats] rewrites has a year of two digits. *)
Lemma date_year_always_two_digits (R : PyRuntime) (query : str)
    (m : rmatch_obj) :
  In m (re_finditer false date_pattern query) -> length (group m 3) = 2%nat.
Proof.
  intros H. apply finditer_match in H as (bef & aft & H).
  now apply date_match_year in H.
Qed.

(** C10: no calendar check is made (month 99 and day 99 go through), but on
    the claim's own example 99/99/9999 the year group takes the first two
    digits only, because the two-digit alternative comes first: the match is
    99/99/99, the century of the current year is put in front of it, and the
    last two digits are left behind the rewritten date. *)
Theorem C10_four_digit_year_cut (R : PyRuntime) (current_year : N) :
  normalize_date_formats current_year (s "99/99/9999") =
    (century current_year ++ s "99-99-99" ++ s "99",
     [s "Normalized date format: 99/99/99 to " ++
      century current_year ++ s "99-99-99"]) /\
  normalize_date_formats current_year (s "99/99/9999") <>
    (s "9999-99-99", [s "Normalized date format: 99/99/99 to 9999-99-99"]).
Proof.
  assert (E : normalize_date_formats current_year (s "99/99/9999") =
    (century current_year ++ s "99-99-99" ++ s "99",
     [s "Normalized date format: 99/99/99 to " ++
      century current_year ++ s "99-99-99"])).
  { unfold normalize_date_formats.
    set (m := MatchObj 0 (s "99/99/99")
                [(3%nat, s "99"); (2%nat, s "99"); (1%nat, s "99")]).
    assert (Hs : forall repl,
               re_sub_fn false date_pattern repl (s "99/99/9999") =
               repl m ++ s "99") by (intros repl; vm_compute; reflexivity).
    assert (Hm : re_finditer false date_pattern (s "99/99/9999") = [m])
      by (vm_compute; reflexivity).
    rewrite Hs, Hm. unfold date_iso, date_fix, date_parts. simpl map.
    change (group m 1) with (s "99"); change (group m 2) with (s "99");
      change (group m 3) with (s "99").
    change (Nat.eqb (length (s "99")) 2) with true. cbv iota.
    change (zfill 2 (s "99")) with (s "99").
    change 2%nat with (length (s "99")) at 1.
    rewrite last_n_app. f_equal.
    - now rewrite <- !app_assoc.
    - f_equal. simpl. now rewrite <- !app_assoc. }
  split; [exact E|]. rewrite E. intros H. injection H as H _.
  pose proof (century_not_empty current_year) as Hc.
  apply (f_equal (@length N)) in H. rewrite length_app in H.
  destruct (century current_year); [congruence|]. simpl in H. lia.
Qed.

(** ** Email domain correction *)

Lemma replace_from_skip (old new p b : str) :
  replace_from old new (p ++ b) (length p) = replace_from old new b 0.
Proof. induction p as [|c p IH]; simpl; [reflexivity | exact IH]. Qed.

Lemma replace_from_here (old new b : str) :
  old <> [] ->
  replace_from old new (old ++ b) 0 = new ++ replace_from old new b 0.
Proof.
  intros H. destruct old as [|c old]; [congruence|].
  cbn [app replace_from].
  change (c :: old ++ b) with ((c :: old) ++ b).
  rewrite starts_with_app.
  replace (length (c :: old) - 1)%nat with (length old) by (simpl; lia).
  now rewrite replace_from_skip.
Qed.

(** [str.replace] works on the first occurrence and then goes on with the
    text behind it. *)
Lemma str_replace_first (old new a b : str) :
  old <> [] ->
  (forall a1 a2, a = a1 ++ a2 -> a2 <> [] ->
                 starts_with old (a2 ++ old ++ b) = false) ->
  str_replace old new (a ++ old ++ b) = a ++ new ++ str_replace old new b.
Proof.
  intros Ho H. unfold str_replace.
  destruct old as [|o old]; [congruence|].
  induction a as [|c a IH].
  - exact (@replace_from_here (o :: old) new b Ho).
  - assert (H0 : starts_with (o :: old) ((c :: a) ++ (o :: old) ++ b)
                 = false) by (apply (H []); [reflexivity | discriminate]).
    cbn [app] in H0 |- *. cbn [replace_from]. rewrite H0.
    f_equal. apply IH. intros a1 a2 -> Ha2.
    apply (H (c :: a1) a2); [reflexivity | exact Ha2].
Qed.

Lemma str_replace_absent (old new x : str) :
  contains old x = false -> str_replace old new x = x.
Proof.
  intros H. unfold str_replace.
  destruct old as [|o old]; [destruct x; discriminate H|].
  induction x as [|c x IH]; [reflexivity|].
  cbn [contains] in H. apply orb_false_iff in H as [H1 H2].
  cbn [replace_from]. rewrite H1. f_equal. now apply IH.
Qed.

(** The loop over the typo table changes the query once, when the domain
    of the address is in the table, and not at all otherwise. *)
Lemma email_step_spec (validated : str) (fixes : list fix_record)
    (email : str) :
  email_step (validated, fixes) email =
  match corrected_email email with
  | Some corrected =>
      (str_replace email corrected validated,
       fixes ++ [email_fix email corrected])
  | None => (validated, fixes)
  end.
Proof.
  unfold email_step, corrected_email, domain_entry.
  fold (email_domain email). generalize (email_domain email) as domain.
  intros domain. unfold common_domains. cbn [fold_left find fst snd].
  repeat match goal with
         | |- context [str_eqb domain ?t] =>
             let E := fresh "E" in
             destruct (str_eqb domain t) eqn:E;
             [apply str_eqb_eq in E; subst domain; reflexivity|]
         end.
  reflexivity.
Qed.

Lemma email_fold_spec (emails : list str) (validated : str)
    (fixes : list fix_record) :
  snd (fold_left email_step emails (validated, fixes)) =
  fixes ++
  flat_map (fun email =>
              match corrected_email email with
              | Some corrected => [email_fix email corrected]
              | None => []
              end) emails.
Proof.
  revert validated fixes; induction emails as [|email emails IH];
    intros validated fixes; cbn [fold_left flat_map].
  - now rewrite app_nil_r.
  - rewrite email_step_spec.
    destruct (corrected_email email) as [corrected|]; rewrite IH.
    + now rewrite <- app_assoc.
    + reflexivity.
Qed.

(** C6, as stated, fails: [str.replace] rewrites every occurrence of the
    address, so the second one is corrected too (and reported again). *)
Lemma C6_every_occurrence_replaced :
  @validate_email_format ascii_runtime (s "a@gmal.com a@gmal.com") =
    (s "a@gmail.com a@gmail.com",
     [s "Corrected email domain: 'a@gmal.com' to 'a@gmail.com'";
      s "Corrected email domain: 'a@gmal.com' to 'a@gmail.com'"]).
Proof. vm_compute. reflexivity. Qed.

(** C6 (amended): when [validate_email_format] corrects an address whose
    domain is one of the known typo domains, every occurrence of that
    address in the query, left to right and without overlap, is replaced by
    the corrected address, not only the first; and a fix record is added for
    each match of the address that [findall] returned. *)
Theorem C6_validate_email_format (R : PyRuntime) :
  (forall query : str,
     validate_email_format query =
       fold_left
         (fun acc email =>
            match corrected_email email with
            | Some corrected =>
                (str_replace email corrected (fst acc),
                 snd acc ++ [email_fix email corrected])
            | None => acc
            end)
         (re_findall false email_pattern query) (query, []) /\
     snd (validate_email_format query) =
       flat_map (fun email =>
                   match corrected_email email with
                   | Some corrected => [email_fix email corrected]
                   | None => []
                   end)
                (re_findall false email_pattern query)) /\
  (forall typo good email,
     In (typo, good) common_domains -> email_domain email = typo ->
     corrected_email email = Some (str_replace typo good email)) /\
  (forall email corrected before_it after_it : str,
     email <> [] ->
     (forall a1 a2, before_it = a1 ++ a2 -> a2 <> [] ->
                    starts_with email (a2 ++ email ++ after_it) = false) ->
     str_replace email corrected (before_it ++ email ++ after_it) =
       before_it ++ corrected ++ str_replace email corrected after_it) /\
  (forall email corrected rest : str,
     contains email rest = false ->
     str_replace email corrected rest = rest) /\
  validate_email_format
     (s "to a@gmal.com, cc a@gmal.com and b@yaho.com; a@gmal.com") =
    (s "to a@gmail.com, cc a@gmail.com and b@yahoo.com; a@gmail.com",
     [ s "Corrected email domain: 'a@gmal.com' to 'a@gmail.com'";
       s "Corrected email domain: 'a@gmal.com' to 'a@gmail.com'";
       s "Corrected email domain: 'b@yaho.com' to 'b@yahoo.com'";
       s "Corrected email domain: 'a@gmal.com' to 'a@gmail.com'" ]).
Proof.
  split; [|split; [|split; [|split]]].
  - intros query. split.
    + unfold validate_email_format. apply fold_left_same.
      intros [validated fixes] email _. apply email_step_spec.
    + apply (email_fold_spec _ query []).
  - intros typo good email Hin <-. unfold corrected_email, domain_entry.
    repeat (destruct Hin as [E|Hin];
            [injection E as E <-; rewrite <- E; reflexivity|]).
    destruct Hin.
  - intros; now apply str_replace_first.
  - intros; now apply str_replace_absent.
  - vm_compute. reflexivity.
Qed.

Lemma C6_validate_email_format_witness :
  corrected_email (s "a@gmal.com") = Some (s "a@gmail.com") /\
  str_replace (s "a@gmal.com") (s "a@gmail.com") (s "x a@gmal.com y") =
    s "x a@gmail.com" ++ str_replace (s "a@gmal.com") (s "a@gmail.com")
                                     (s " y") /\
  str_replace (s "a@gmal.com") (s "a@gmail.com") (s " y") = s " y".
Proof.
  destruct (@C6_validate_email_format ascii_runtime) as (_ & A & B & C & _).
  split; [|split].
  - apply (A (s "gmal.com") (s "gmail.com")); [now left | reflexivity].
  - apply (B (s "a@gmal.com") (s "a@gmail.com") (s "x ") (s " y")).
    + discriminate.
    + intros a1 a2 E Hn.
      destruct a1 as [|c1 [|c2 [|c3 a1]]]; simpl in E;
        try (injection E as <- <-; reflexivity);
        try (injection E as <- <- <-; exfalso; now apply Hn);
        try (rewrite <- E; reflexivity).
      injection E as _ _ E. destruct a1; discriminate E.
  - apply C. reflexivity.
Defined.

(** ** Unsafe-command detection *)

(** C8: [detect_unsafe_commands] returns the query it was given, and its
    fix list holds one warning for each unsafe pattern that is found in the
    query (searched with IGNORECASE), in the order of the pattern list. *)
Theorem C8_detect_unsafe_commands (R : PyRuntime) (query : str) :
  fst (detect_unsafe_commands query) = query /\
  snd (detect_unsafe_commands query) =
    map (fun p => unsafe_warning (fst p))
        (filter (fun p => re_test true (snd p) query) unsafe_patterns).
Proof.
  split; [reflexivity|].
  exact (fold_left_collect (fun p => re_test true (snd p) query)
                           (fun p => unsafe_warning (fst p))
                           unsafe_patterns []).
Qed.

(** ** Currency normalization *)

Lemma strip_commas (x : str) : str_replace [44] [] x = filter not_comma x.
Proof.
  unfold str_replace.
  induction x as [|c x IH]; [reflexivity|].
  cbn [replace_from starts_with filter]. unfold not_comma at 1.
  rewrite N.eqb_sym.
  destruct (c =? 44); simpl; [exact IH | now rewrite IH].
Qed.

Lemma filter_not_comma_same (x : str) :
  ~ In 44 x -> filter not_comma x = x.
Proof.
  induction x as [|c x IH]; simpl; intros H; [reflexivity|].
  unfold not_comma at 1. destruct (N.eqb_spec c 44) as [->|_]; simpl.
  - exfalso; apply H; now left.
  - rewrite IH; [reflexivity|]. intros H'; apply H; now right.
Qed.

Lemma currency_plain_filter (m : rmatch_obj) :
  currency_plain m =
  firstn 1 (m_text m) ++ filter not_comma (skipn 1 (m_text m)).
Proof. unfold currency_plain. now rewrite strip_commas. Qed.

Lemma currency_plain_same (m : rmatch_obj) :
  ~ In 44 (m_text m) -> currency_plain m = m_text m.
Proof.
  intros H. rewrite currency_plain_filter.
  rewrite filter_not_comma_same; [apply firstn_skipn|].
  intros H'. apply H. destruct (m_text m); [exact H' | now right].
Qed.

(** C7, as stated, fails: an amount without separators is matched as well,
    and the replacer records a fix for every match. *)
Lemma C7_plain_amount_gets_a_record :
  @normalize_numeric_values ascii_runtime (s "$100") =
    (s "$100", [s "Normalized currency value: $100 to $100"]).
Proof. vm_compute. reflexivity. Qed.

(** C7 (amended): [normalize_numeric_values] replaces every match of the
    currency pattern (a currency symbol and an amount, with or without
    thousands separators) by its first character followed by the rest of
    the match without its commas, the decimal part included, and records
    exactly one fix per match, in order.  An amount without separators is
    therefore left as it is in the text, but it still gets its record
    (Normalized currency value: X to X). *)
Theorem C7_normalize_numeric_values (R : PyRuntime) :
  (forall query : str,
     let ms := re_finditer false currency_pattern query in
     let result := normalize_numeric_values query in
     fst result = splice currency_plain 0 query ms /\
     snd result = map currency_fix ms /\
     length (snd result) = length ms /\
     ((forall m, In m ms -> ~ In 44 (m_text m)) -> fst result = query)) /\
  (forall m : rmatch_obj,
     currency_plain m =
       firstn 1 (m_text m) ++ filter not_comma (skipn 1 (m_text m)) /\
     (~ In 44 (m_text m) ->
      currency_plain m = m_text m /\
      currency_fix m =
        s "Normalized currency value: " ++ m_text m ++ s " to " ++ m_text m))
  /\
  normalize_numeric_values
     (s "pay $1,234,567.89 or " ++ [euro] ++ s "2,000 or $100.5") =
    (s "pay $1234567.89 or " ++ [euro] ++ s "2000 or $100.5",
     [ s "Normalized currency value: $1,234,567.89 to $1234567.89";
       s "Normalized currency value: " ++ [euro] ++ s "2,000 to " ++
         [euro] ++ s "2000";
       s "Normalized currency value: $100.5 to $100.5" ]).
Proof.
  split; [|split].
  - intros query ms result. unfold result, normalize_numeric_values.
    cbn [fst snd]. fold ms.
    split; [apply re_sub_fn_splice|]. split; [reflexivity|].
    split; [apply length_map|].
    intros H. unfold re_sub_fn. rewrite sub_from_same; [reflexivity|].
    intros m Hm. apply currency_plain_same, H, Hm.
  - intros m. split; [apply currency_plain_filter|].
    intros H. pose proof (currency_plain_same m H) as E.
    split; [exact E|]. unfold currency_fix. now rewrite E.
  - vm_compute. reflexivity.
Qed.

Lemma C7_normalize_numeric_values_witness :
  fst (@normalize_numeric_values ascii_runtime (s "$100")) = s "$100" /\
  length (snd (@normalize_numeric_values ascii_runtime (s "$100"))) = 1%nat.
Proof.
  pose proof (proj1 (@C7_normalize_numeric_values ascii_runtime) (s "$100"))
    as H.
  cbv zeta in H. destruct H as (_ & _ & L & H). split.
  - apply H. intros m Hm.
    assert (E : @re_finditer ascii_runtime false currency_pattern (s "$100")
                = [MatchObj 0 (s "$100") [(1%nat, s "100")]])
      by (vm_compute; reflexivity).
    rewrite E in Hm. destruct Hm as [<-|[]]. simpl.
    intros [A|[A|[A|[A|[]]]]]; discriminate A.
  - rewrite L. vm_compute. reflexivity.
Defined.

(** ** White-space normalization *)

Section Whitespace.
Context {R : PyRuntime}.

Lemma in_class_space (c : N) : in_class false [CSpace] c = is_space c.
Proof. unfold in_class; simpl. apply orb_false_r. Qed.

Lemma leading_lstrip (x : str) :
  (leading x + length (lstrip x) = length x)%nat.
Proof.
  induction x as [|c x IH]; simpl; [reflexivity|].
  destruct (is_space c); simpl; lia.
Qed.

Lemma step_spaces (st : mstate) (k : mstate -> option mstate) :
  rmatch false (Cls [CSpace]) st k =
  match after st with
  | c :: rest =>
      if is_space c then k (MState (c :: before st) rest (caps st)) else None
  | [] => None
  end.
Proof.
  simpl. unfold step_char. destruct (after st) as [|c rest]; [reflexivity|].
  now rewrite in_class_space.
Qed.

(** The loop of [\s*] runs to the end of the white space. *)
Lemma star_spaces (body : mstate -> (mstate -> option mstate) -> option mstate)
    (fuel : nat) (bef aft : str) (cs : list (nat * str)) :
  (forall st k, body st k = rmatch false (Cls [CSpace]) st k) ->
  (length aft <= fuel)%nat ->
  exists bef',
    star_loop body Some fuel (MState bef aft cs) =
    Some (MState bef' (lstrip aft) cs).
Proof.
  intros Hbody.
  revert bef aft. induction fuel as [|fuel IH]; intros bef aft Hf.
  - destruct aft; [|simpl in Hf; lia]. now exists bef.
  - destruct aft as [|c rest].
    + cbn [star_loop]. rewrite Hbody, step_spaces. now exists bef.
    + cbn [star_loop]. rewrite Hbody, step_spaces. cbn [after before caps].
      cbn [lstrip]. destruct (is_space c) eqn:E.
      * cbn [length].
        assert (L : (length rest <? S (length rest))%nat = true)
          by (apply Nat.ltb_lt; lia).
        rewrite L.
        destruct (IH (c :: bef) rest) as [bef' ->]; [simpl in Hf; lia|].
        now exists bef'.
      * now exists bef.
Qed.

(** [\s+] matches at a position exactly when a white-space character
    stands there, and then takes the whole run. *)
Lemma match_here_spaces (bef aft : str) :
  match_here false spaces_pattern bef aft =
  match leading aft with
  | O => None
  | n => Some (MatchObj (length bef) (firstn n aft) [])
  end.
Proof.
  unfold match_here, spaces_pattern, Plus.
  change (rmatch false (Seq ?a (Star ?b)) ?st ?k)
    with (rmatch false a st
            (fun st' => star_loop (rmatch false b) k (length (after st')) st')).
  rewrite step_spaces. cbn [after before caps].
  destruct aft as [|c rest]; [reflexivity|].
  cbn [leading]. destruct (is_space c) eqn:E; [|reflexivity].
  destruct (@star_spaces (rmatch false (Cls [CSpace])) (length rest)
              (c :: bef) rest [] (fun _ _ => eq_refl) (le_n _))
    as [bef' ->].
  cbn [after caps]. do 2 f_equal.
  pose proof (leading_lstrip rest) as L. cbn [length].
  replace (S (length rest) - length (lstrip rest))%nat
    with (S (leading rest)) by lia.
  reflexivity.
Qed.

Lemma sub_spaces_squeeze (aft bef : str) :
  sub_from false spaces_pattern (fun _ => [32]) bef aft 0 =
    squeeze false aft /\
  sub_from false spaces_pattern (fun _ => [32]) bef aft (leading aft) =
    squeeze true aft.
Proof.
  revert bef; induction aft as [|c rest IH]; intros bef.
  - split; reflexivity.
  - assert (A : sub_from false spaces_pattern (fun _ => [32]) bef
                  (c :: rest) 0 = squeeze false (c :: rest)).
    { cbn [sub_from]. rewrite match_here_spaces. cbn [leading squeeze].
      destruct (is_space c) eqn:E.
      - cbn [m_text firstn length]. rewrite length_firstn.
        pose proof (leading_lstrip rest) as L.
        rewrite Nat.min_l by lia.
        now rewrite (proj2 (IH (c :: bef))).
      - now rewrite (proj1 (IH (c :: bef))). }
    split; [exact A|].
    simpl leading. simpl squeeze. destruct (is_space c) eqn:E.
    + simpl sub_from. apply (proj2 (IH (c :: bef))).
    + rewrite A. simpl. now rewrite E.
Qed.

Lemma re_sub_spaces (x : str) :
  re_sub false spaces_pattern [32] x = squeeze false x.
Proof. apply (proj1 (sub_spaces_squeeze x [])). Qed.

Lemma tidy_squeeze (x : str) (in_run : bool) :
  tidy in_run (squeeze in_run x) = true.
Proof.
  revert in_run; induction x as [|c x IH]; intros in_run; simpl;
    [reflexivity|].
  destruct (is_space c) eqn:E.
  - destruct in_run; [apply IH|]. simpl.
    change (is_space 32) with true. simpl. apply IH.
  - simpl. rewrite E. apply IH.
Qed.

Lemma squeeze_tidy (x : str) (in_run : bool) :
  tidy in_run x = true -> squeeze in_run x = x.
Proof.
  revert in_run; induction x as [|c x IH]; intros in_run; simpl;
    [reflexivity|].
  destruct (is_space c) eqn:E.
  - intros H. apply andb_true_iff in H as [H H3].
    apply andb_true_iff in H as [H1 H2].
    apply N.eqb_eq in H1; subst c. destruct in_run; [discriminate|].
    now rewrite (IH true H3).
  - intros H. now rewrite (IH false H).
Qed.

Lemma tidy_lstrip (x : str) (a b : bool) :
  tidy a x = true -> tidy b (lstrip x) = true.
Proof.
  revert a; induction x as [|c x IH]; intros a; simpl; [reflexivity|].
  destruct (is_space c) eqn:E.
  - intros H. apply andb_true_iff in H as [_ H]. now apply (IH true).
  - intros H. simpl. now rewrite E.
Qed.

Lemma tidy_rstrip (x : str) (a : bool) :
  tidy a x = true -> tidy a (rstrip x) = true.
Proof.
  revert a; induction x as [|c x IH]; intros a; simpl; [reflexivity|].
  intros H.
  destruct (rstrip x) as [|d r] eqn:Er.
  - destruct (is_space c) eqn:E; [reflexivity|]. simpl. now rewrite E.
  - simpl. destruct (is_space c) eqn:E.
    + apply andb_true_iff in H as [H1 H2]. rewrite H1. simpl.
      apply (IH true H2).
    + apply (IH false H).
Qed.

Lemma lstrip_fixed (x : str) :
  lstrip x = x <-> match x with c :: _ => is_space c = false | [] => True end.
Proof.
  destruct x as [|c x]; simpl; [tauto|].
  destruct (is_space c) eqn:E; [|tauto].
  split; [|discriminate]. intros H.
  pose proof (leading_lstrip x) as L. rewrite H in L. simpl in L. lia.
Qed.

Lemma lstrip_idem (x : str) : lstrip (lstrip x) = lstrip x.
Proof.
  induction x as [|c x IH]; simpl; [reflexivity|].
  destruct (is_space c) eqn:E; [exact IH|]. simpl. now rewrite E.
Qed.

Lemma rstrip_idem (x : str) : rstrip (rstrip x) = rstrip x.
Proof.
  induction x as [|c x IH]; simpl; [reflexivity|].
  destruct (rstrip x) as [|d r] eqn:Er.
  - destruct (is_space c) eqn:E; [reflexivity|]. simpl. now rewrite E.
  - simpl. simpl in IH. now rewrite IH.
Qed.

Lemma lstrip_rstrip (x : str) :
  lstrip x = x -> lstrip (rstrip x) = rstrip x.
Proof.
  intros H. apply lstrip_fixed in H. apply lstrip_fixed.
  destruct x as [|c x]; simpl; [exact I|].
  destruct (rstrip x); [|exact H]. now rewrite H.
Qed.

Lemma strip_idem (x : str) : strip (strip x) = strip x.
Proof.
  unfold strip.
  rewrite (lstrip_rstrip (lstrip_idem x)).
  apply rstrip_idem.
Qed.

Lemma strip_squeeze_fixed (x : str) :
  let t := strip (squeeze false x) in
  strip (squeeze false t) = t.
Proof.
  intros t.
  assert (T : tidy false t = true).
  { apply tidy_rstrip, (tidy_lstrip _ false false), tidy_squeeze. }
  rewrite squeeze_tidy by exact T. apply strip_idem.
Qed.

End Whitespace.

(** C9: [remove_excessive_whitespace] applied to its own output returns
    that output again, and this second application records no fix. *)
Theorem C9_whitespace_idempotent (R : PyRuntime) (query : str) :
  let once := remove_excessive_whitespace query in
  remove_excessive_whitespace (fst once) = (fst once, []).
Proof.
  intros once.
  assert (E : fst once = strip (squeeze false query)).
  { unfold once, remove_excessive_whitespace. rewrite re_sub_spaces.
    now destruct (negb _). }
  rewrite E. unfold remove_excessive_whitespace.
  rewrite re_sub_spaces, strip_squeeze_fixed, str_eqb_refl. reflexivity.
Qed.

(** ** Length capping *)

Lemma slice_to_length (x : str) (n : Z) :
  (0 <= n)%Z -> (n < len x)%Z -> len (slice_to x n) = n.
Proof.
  intros Hn Hlt. unfold slice_to, len in *.
  destruct (n <? 0)%Z eqn:E; [apply Z.ltb_lt in E; lia|].
  rewrite length_firstn. lia.
Qed.

Lemma limit_query_length_noop (query : str) (max_length : Z) :
  (len query <= max_length)%Z ->
  limit_query_length query max_length = (query, []).
Proof.
  intros H. unfold limit_query_length.
  destruct (len query >? max_length)%Z eqn:E; [|reflexivity].
  apply Z.gtb_lt in E. lia.
Qed.

Lemma limit_query_length_bound (query : str) (max_length : Z) :
  (0 <= max_length)%Z ->
  (len (fst (limit_query_length query max_length)) <= max_length + 3)%Z.
Proof.
  intros H. unfold limit_query_length.
  destruct (len query >? max_length)%Z eqn:E; simpl.
  - apply Z.gtb_lt in E.
    unfold len at 1. rewrite length_app. simpl length.
    pose proof (slice_to_length query H E) as L. unfold len in L at 1. lia.
  - rewrite Z.gtb_ltb in E. apply Z.ltb_ge in E. lia.
Qed.

(** C4, as stated, fails for a negative [max_length]: the slice
    [query[:-1]] drops one character only, so ["ab"] capped at -1 comes back
    as ["a..."], four characters where the bound is two. *)
Lemma C4_negative_max_length :
  limit_query_length (s "ab") (-1) =
    (s "a...", [s "Truncated query from 2 to -1 characters"]) /\
  ~ (len (fst (limit_query_length (s "ab") (-1))) <= -1 + 3)%Z.
Proof.
  split; [reflexivity|]. vm_compute. intros H; apply H; reflexivity.
Qed.

(** C4 (amended): for every string and every maximum length that is not
    negative, [limit_query_length] returns at most [max_length + 3]
    characters; and whenever the string is at or under the maximum it comes
    back unchanged, with no fix record. *)
Theorem C4_limit_query_length (query : str) (max_length : Z) :
  ((0 <= max_length)%Z ->
   (len (fst (limit_query_length query max_length)) <= max_length + 3)%Z) /\
  ((len query <= max_length)%Z ->
   limit_query_length query max_length = (query, [])).
Proof.
  split; [apply limit_query_length_bound | apply limit_query_length_noop].
Qed.

Lemma C4_limit_query_length_witness :
  (len (fst (limit_query_length (s "abcdef") 3)) <= 3 + 3)%Z /\
  limit_query_length (s "abc") 3 = (s "abc", []).
Proof.
  split.
  - apply (proj1 (C4_limit_query_length (s "abcdef") 3)). lia.
  - apply (proj2 (C4_limit_query_length (s "abc") 3)).
    vm_compute. discriminate.
Defined.

(** ** The end-to-end example *)

Lemma in_years_2000s (y : N) : 2000 <= y <= 2099 -> In y years_2000s.
Proof.
  intros H. unfold years_2000s. apply in_map_iff.
  exists (N.to_nat (y - 2000)). split; [lia|].
  apply in_seq. lia.
Qed.

Lemma century_2000s (y : N) : 2000 <= y <= 2099 -> century y = s "20".
Proof.
  intros H. apply str_eqb_eq.
  assert (A : forallb (fun y => str_eqb (century y) (s "20")) years_2000s
              = true) by (vm_compute; reflexivity).
  rewrite forallb_forall in A. apply A. now apply in_years_2000s.
Qed.

Lemma example_checks :
  contains (s "docuemnt") example_processed = false /\
  contains (s "document") example_processed = true /\
  contains (s "1/5/24") example_processed = false /\
  contains (s "2024-01-05") example_processed = true /\
  contains (s "john@gmal.com") example_processed = false /\
  contains (s "john@gmail.com") example_processed = true /\
  contains (s "sudo rm -rf /") example_processed = true /\
  In (unsafe_warning (s "\bsudo\b")) example_fixes /\
  In (unsafe_warning (s "\brm\s+-rf\b")) example_fixes.
Proof.
  repeat split; try (vm_compute; reflexivity).
  - right; right; right; right; left; vm_compute; reflexivity.
  - right; right; right; left; vm_compute; reflexivity.
Qed.

Lemma example_result (R : PyRuntime) (current_year : N) :
  2000 <= current_year <= 2099 ->
  apply_heuristics current_year example_query =
    (example_processed, example_fixes).
Proof.
  intros Hy.
  unfold apply_heuristics, validate_and_fix_query, heuristics,
    normalize_date_formats, date_iso, date_fix, date_parts.
  rewrite (century_2000s Hy). vm_compute. reflexivity.
Qed.

(** C1: with the current year in 2000..2099, [apply_heuristics] on the
    example query returns the query with docuemnt replaced by document,
    1/5/24 by 2024-01-05 and john@gmal.com by john@gmail.com; the text
    sudo rm -rf / is still there; and the fix list holds the warning for the
    sudo pattern and the warning for the rm -rf pattern. *)
Theorem C1_end_to_end_example (R : PyRuntime) (current_year : N) :
  2000 <= current_year <= 2099 ->
  let result := apply_heuristics current_year example_query in
  result = (example_processed, example_fixes) /\
  contains (s "docuemnt") (fst result) = false /\
  contains (s "document") (fst result) = true /\
  contains (s "1/5/24") (fst result) = false /\
  contains (s "2024-01-05") (fst result) = true /\
  contains (s "john@gmal.com") (fst result) = false /\
  contains (s "john@gmail.com") (fst result) = true /\
  contains (s "sudo rm -rf /") (fst result) = true /\
  In (unsafe_warning (s "\bsudo\b")) (snd result) /\
  In (unsafe_warning (s "\brm\s+-rf\b")) (snd result).
Proof.
  intros Hy result.
  assert (E : result = (example_processed, example_fixes))
    by exact (example_result R Hy).
  clearbody result. subst result.
  split; [reflexivity|]. exact example_checks.
Qed.

Lemma C1_end_to_end_example_witness :
  2000 <= 2026 <= 2099 /\
  @apply_heuristics ascii_runtime 2026 example_query =
    (example_processed, example_fixes).
Proof.
  assert (H : 2000 <= 2026 <= 2099) by lia.
  split; [exact H|].
  exact (proj1 (@C1_end_to_end_example ascii_runtime 2026 H)).
Defined.

(** ** The JSON scanner always has fuel enough *)

Lemma next_is_length (c : N) (x r : str) :
  next_is c x = Some r -> length x = S (length r).
Proof.
  destruct x as [|d x]; simpl; [discriminate|].
  destruct (d =? c); [|discriminate]. now intros [= ->].
Qed.

Lemma skip_ws_length (x : str) : (length (skip_ws x) <= length x)%nat.
Proof.
  induction x as [|c x IH]; simpl; [lia|].
  destruct (is_json_ws c); simpl; lia.
Qed.

Lemma after_prefix_length (p x r : str) :
  after_prefix p x = Some r -> length x = (length p + length r)%nat.
Proof.
  unfold after_prefix. destruct (starts_with p x) eqn:E; [|discriminate].
  intros [= <-]. apply starts_with_iff in E as [t ->].
  rewrite skipn_app, skipn_all, Nat.sub_diag. simpl. apply length_app.
Qed.

Lemma hex4_length (x r : str) (u : N) :
  hex4 x = Some (u, r) -> length x = (4 + length r)%nat.
Proof.
  unfold hex4. destruct x as [|a [|b [|c [|d x]]]]; try discriminate.
  destruct (hex_value a), (hex_value b), (hex_value c), (hex_value d);
    try discriminate.
  now intros [= _ ->].
Qed.

Lemma scan_u_escape_length (x r : str) (ch : N) :
  scan_u_escape x = Some (ch, r) -> (length r < length x)%nat.
Proof.
  unfold scan_u_escape.
  destruct (hex4 x) as [[u rest]|] eqn:H1; [|discriminate].
  apply hex4_length in H1.
  destruct (is_high_surrogate u); [|intros [= _ <-]; lia].
  destruct (after_prefix [92; 117] rest) as [r2|] eqn:H2;
    [|intros [= _ <-]; lia].
  apply after_prefix_length in H2.
  destruct (hex4 r2) as [[u2 r3]|] eqn:H3; [|discriminate].
  apply hex4_length in H3.
  destruct (is_low_surrogate u2); intros [= _ <-]; simpl in *; lia.
Qed.

Lemma scan_char_length (x r : str) (o : option N) :
  scan_char x = Some (o, r) -> (length r < length x)%nat.
Proof.
  unfold scan_char. destruct x as [|c rest]; [discriminate|].
  destruct (c =? 34); [intros [= _ <-]; simpl; lia|].
  destruct (c =? 92).
  - destruct rest as [|e rest']; [discriminate|].
    destruct (e =? 117).
    + destruct (scan_u_escape rest') as [[ch r0]|] eqn:E; [|discriminate].
      apply scan_u_escape_length in E. intros [= _ <-]. simpl. lia.
    + destruct (simple_escape e); [|discriminate].
      intros [= _ <-]. simpl. lia.
  - destruct (c <? 32); [discriminate|]. intros [= _ <-]. simpl. lia.
Qed.

Lemma scanstring_consumes (fuel : nat) (x v r : str) :
  scanstring fuel x = Some (v, r) -> (length r < length x)%nat.
Proof.
  revert x v r; induction fuel as [|fuel IH]; intros x v r; [discriminate|].
  cbn [scanstring].
  destruct (scan_char x) as [[[ch|] r0]|] eqn:E; [| |discriminate].
  - apply scan_char_length in E.
    destruct (scanstring fuel r0) as [[v' r']|] eqn:E'; [|discriminate].
    apply IH in E'. intros [= _ <-]. lia.
  - apply scan_char_length in E. now intros [= _ <-].
Qed.

Lemma scanstring_enough (f g : nat) (x : str) :
  (length x < f)%nat -> (length x < g)%nat ->
  scanstring f x = scanstring g x.
Proof.
  revert g x; induction f as [|f IH]; intros g x Hf Hg; [lia|].
  destruct g as [|g]; [lia|]. cbn [scanstring].
  destruct (scan_char x) as [[[ch|] r0]|] eqn:E; try reflexivity.
  apply scan_char_length in E. now rewrite (IH g r0) by lia.
Qed.

Lemma take_digits_length (x d r : str) :
  take_digits x = (d, r) -> length x = (length d + length r)%nat.
Proof.
  revert d r; induction x as [|c x IH]; intros d r; simpl.
  - now intros [= <- <-].
  - destruct (is_digit_ascii c).
    + destruct (take_digits x) as [d' r'] eqn:E. intros [= <- <-].
      simpl. now rewrite (IH d' r' eq_refl).
    + now intros [= <- <-].
Qed.

Lemma take_digits_head (c : N) (x d r : str) :
  in_range 49 57 c = true -> take_digits (c :: x) = (d, r) ->
  (length r <= length x)%nat.
Proof.
  intros D. cbn [take_digits].
  assert (Dc : is_digit_ascii c = true).
  { unfold is_digit_ascii, in_range in *.
    apply andb_true_iff in D as [D1 D2]. apply andb_true_iff. split;
      [apply N.leb_le; apply N.leb_le in D1; lia | exact D2]. }
  rewrite Dc. destruct (take_digits x) as [d' r'] eqn:T.
  apply take_digits_length in T. intros [= _ <-]. lia.
Qed.

Lemma match_int_part_length (x i r : str) :
  match_int_part x = Some (i, r) -> (length r < length x)%nat.
Proof.
  unfold match_int_part.
  destruct (next_is 45 x) as [x'|] eqn:E.
  - apply next_is_length in E.
    destruct x' as [|c r0]; [discriminate|].
    destruct (c =? 48); [intros [= _ <-]; simpl in *; lia|].
    destruct (in_range 49 57 c) eqn:D; [|discriminate].
    destruct (take_digits (c :: r0)) as [d r'] eqn:T.
    apply (take_digits_head _ _ D) in T. intros [= _ <-]. simpl in *. lia.
  - destruct x as [|c r0]; [discriminate|].
    destruct (c =? 48); [intros [= _ <-]; simpl; lia|].
    destruct (in_range 49 57 c) eqn:D; [|discriminate].
    destruct (take_digits (c :: r0)) as [d r'] eqn:T.
    apply (take_digits_head _ _ D) in T. intros [= _ <-]. simpl in *. lia.
Qed.

Lemma match_frac_length (x f r : str) :
  match_frac x = (f, r) -> (length r <= length x)%nat.
Proof.
  unfold match_frac. destruct (next_is 46 x) as [x'|] eqn:E.
  - apply next_is_length in E.
    destruct (take_digits x') as [[|d0 d] r'] eqn:T.
    + intros [= _ <-]. lia.
    + apply take_digits_length in T. intros [= _ <-]. lia.
  - intros [= _ <-]. lia.
Qed.

Lemma match_exp_length (x e r : str) :
  match_exp x = (e, r) -> (length r <= length x)%nat.
Proof.
  unfold match_exp. destruct x as [|c x']; [intros [= _ <-]; lia|].
  destruct ((c =? 101) || (c =? 69)); [|intros [= _ <-]; lia].
  destruct x' as [|c' x''].
  - cbn [take_digits]. intros [= _ <-]. simpl. lia.
  - destruct ((c' =? 45) || (c' =? 43)).
    + destruct (take_digits x'') as [[|d0 d] r'] eqn:T.
      * intros [= _ <-]. simpl. lia.
      * apply take_digits_length in T. intros [= _ <-]. simpl in *. lia.
    + destruct (take_digits (c' :: x'')) as [[|d0 d] r'] eqn:T.
      * intros [= _ <-]. simpl. lia.
      * apply take_digits_length in T. intros [= _ <-]. simpl in *. lia.
Qed.

Section ScannerFuel.
Context {L : PyLimits}.

Lemma decode_error_at_not_parsed {A : Type} (depth : nat) (a : A) :
  decode_error_at depth <> Parsed a.
Proof. unfold decode_error_at. destruct (_ <=? _)%nat; discriminate. Qed.

Lemma match_number_consumes (x r : str) (v : json) :
  match_number x = Parsed (v, r) -> (length r < length x)%nat.
Proof.
  unfold match_number.
  destruct (match_int_part x) as [[i r1]|] eqn:E1; [|discriminate].
  apply match_int_part_length in E1.
  destruct (match_frac r1) as [f r2] eqn:E2. apply match_frac_length in E2.
  destruct (match_exp r2) as [e r3] eqn:E3. apply match_exp_length in E3.
  destruct f, e; try destruct (over_digit_limit _); try discriminate;
    intros [= _ <-]; lia.
Qed.

Lemma scan_word_consumes (table : list (str * json)) (x r : str) (v : json) :
  forallb (fun e => negb (str_eqb (fst e) [])) table = true ->
  scan_word table x = Some (v, r) -> (length r < length x)%nat.
Proof.
  induction table as [|[word v'] table IH]; simpl; [discriminate|].
  intros H. apply andb_true_iff in H as [Hw H].
  destruct (after_prefix word x) as [r'|] eqn:E.
  - apply after_prefix_length in E. intros [= _ <-].
    destruct word; [discriminate|]. simpl in E. lia.
  - now apply IH.
Qed.

Lemma scan_atom_consumes (depth : nat) (x r : str) (v : json) :
  scan_atom depth x = Parsed (v, r) -> (length r < length x)%nat.
Proof.
  unfold scan_atom.
  destruct (scan_word constants x) as [res|] eqn:E1.
  - intros [= ->]. now apply (scan_word_consumes constants x) in E1.
  - destruct (match_number x) as [[v0 r0]| |e] eqn:E2.
    + intros [= -> ->]. now apply match_number_consumes in E2.
    + destruct (scan_word special_numbers x) as [res|] eqn:E3;
        [|discriminate].
      destruct (depth <? recursion_room)%nat; [|discriminate].
      intros [= ->]. now apply (scan_word_consumes special_numbers x) in E3.
    + discriminate.
Qed.

(** Whatever the scanner returns, it has consumed something. *)
Lemma scan_consumes (fuel depth : nat) (mode : scan_mode) (x r : str)
    (v : json) :
  scan fuel depth mode x = Parsed (v, r) -> (length r < length x)%nat.
Proof.
  revert depth mode x r v; induction fuel as [|fuel IH];
    intros depth mode x r v; [discriminate|].
  cbn [scan]. destruct mode as [|values|pairs].
  - destruct (next_is 34 x) as [rest|] eqn:E1.
    { apply next_is_length in E1.
      destruct (scanstring _ rest) as [[v0 r0]|] eqn:E2.
      - apply scanstring_consumes in E2. intros [= _ <-]. lia.
      - intros H. now apply decode_error_at_not_parsed in H. }
    destruct (next_is 123 x) as [rest|] eqn:E2.
    { apply next_is_length in E2. pose proof (skip_ws_length rest) as W.
      destruct (depth <? recursion_room)%nat; [|discriminate].
      destruct (next_is 125 (skip_ws rest)) as [r0|] eqn:E3.
      { apply next_is_length in E3. intros [= _ <-]. lia. }
      destruct (next_is 34 (skip_ws rest)) as [r0|] eqn:E4.
      - apply next_is_length in E4. intros H. apply IH in H. lia.
      - intros H. now apply decode_error_at_not_parsed in H. }
    destruct (next_is 91 x) as [rest|] eqn:E3.
    { apply next_is_length in E3. pose proof (skip_ws_length rest) as W.
      destruct (depth <? recursion_room)%nat; [|discriminate].
      destruct (next_is 93 (skip_ws rest)) as [r0|] eqn:E4.
      { apply next_is_length in E4. intros [= _ <-]. lia. }
      intros H. apply IH in H. lia. }
    apply scan_atom_consumes.
  - destruct (scan fuel depth ScanValue x) as [[v0 r0]| |e] eqn:E1;
      [|discriminate|discriminate].
    apply IH in E1. pose proof (skip_ws_length r0) as W.
    destruct (next_is 93 (skip_ws r0)) as [r1|] eqn:E2.
    { apply next_is_length in E2. intros [= _ <-]. lia. }
    destruct (next_is 44 (skip_ws r0)) as [r1|] eqn:E3.
    + apply next_is_length in E3. pose proof (skip_ws_length r1) as W1.
      intros H. apply IH in H. lia.
    + intros H. now apply decode_error_at_not_parsed in H.
  - destruct (scanstring _ x) as [[key r0]|] eqn:E1;
      [|intros H; now apply decode_error_at_not_parsed in H].
    apply scanstring_consumes in E1. pose proof (skip_ws_length r0) as W.
    destruct (next_is 58 (skip_ws r0)) as [r1|] eqn:E2;
      [|intros H; now apply decode_error_at_not_parsed in H].
    apply next_is_length in E2. pose proof (skip_ws_length r1) as W1.
    destruct (scan fuel depth ScanValue (skip_ws r1)) as [[v0 r2]| |e] eqn:E3;
      [|discriminate|discriminate].
    apply IH in E3. pose proof (skip_ws_length r2) as W2.
    destruct (next_is 125 (skip_ws r2)) as [r3|] eqn:E4.
    { apply next_is_length in E4. intros [= _ <-]. lia. }
    destruct (next_is 44 (skip_ws r2)) as [r3|] eqn:E5;
      [|intros H; now apply decode_error_at_not_parsed in H].
    apply next_is_length in E5. pose proof (skip_ws_length r3) as W3.
    destruct (next_is 34 (skip_ws r3)) as [r4|] eqn:E6;
      [|intros H; now apply decode_error_at_not_parsed in H].
    apply next_is_length in E6. intros H. apply IH in H. lia.
Qed.

(** With more than [scan_need] units of fuel the result of the scanner no
    longer depends on the fuel: it never runs out. *)
Lemma scan_enough (f g depth : nat) (mode : scan_mode) (x : str) :
  (scan_need mode x < f)%nat -> (scan_need mode x < g)%nat ->
  scan f depth mode x = scan g depth mode x.
Proof.
  revert g depth mode x; induction f as [|f IH]; intros g depth mode x Hf Hg;
    [lia|].
  destruct g as [|g]; [lia|]. cbn [scan].
  destruct mode as [|values|pairs]; unfold scan_need in Hf, Hg.
  - destruct (next_is 34 x) as [rest|] eqn:E1; [reflexivity|].
    destruct (next_is 123 x) as [rest|] eqn:E2.
    { apply next_is_length in E2. pose proof (skip_ws_length rest) as W.
      destruct (depth <? recursion_room)%nat; [|reflexivity].
      destruct (next_is 125 (skip_ws rest)) as [r0|] eqn:E3; [reflexivity|].
      destruct (next_is 34 (skip_ws rest)) as [r0|] eqn:E4; [|reflexivity].
      apply next_is_length in E4.
      apply IH; unfold scan_need; lia. }
    destruct (next_is 91 x) as [rest|] eqn:E3; [|reflexivity].
    apply next_is_length in E3. pose proof (skip_ws_length rest) as W.
    destruct (depth <? recursion_room)%nat; [|reflexivity].
    destruct (next_is 93 (skip_ws rest)) as [r0|] eqn:E4; [reflexivity|].
    apply IH; unfold scan_need; lia.
  - rewrite (IH g depth ScanValue x) by (unfold scan_need; lia).
    destruct (scan g depth ScanValue x) as [[v0 r0]| |e] eqn:E1;
      [|reflexivity|reflexivity].
    apply scan_consumes in E1. pose proof (skip_ws_length r0) as W.
    destruct (next_is 93 (skip_ws r0)) as [r1|] eqn:E2; [reflexivity|].
    destruct (next_is 44 (skip_ws r0)) as [r1|] eqn:E3; [|reflexivity].
    apply next_is_length in E3. pose proof (skip_ws_length r1) as W1.
    apply IH; unfold scan_need; lia.
  - destruct (scanstring _ x) as [[key r0]|] eqn:E1; [|reflexivity].
    apply scanstring_consumes in E1. pose proof (skip_ws_length r0) as W.
    destruct (next_is 58 (skip_ws r0)) as [r1|] eqn:E2; [|reflexivity].
    apply next_is_length in E2. pose proof (skip_ws_length r1) as W1.
    rewrite (IH g depth ScanValue (skip_ws r1)) by (unfold scan_need; lia).
    destruct (scan g depth ScanValue (skip_ws r1)) as [[v0 r2]| |e] eqn:E3;
      [|reflexivity|reflexivity].
    apply scan_consumes in E3. pose proof (skip_ws_length r2) as W2.
    destruct (next_is 125 (skip_ws r2)) as [r3|] eqn:E4; [reflexivity|].
    destruct (next_is 44 (skip_ws r2)) as [r3|] eqn:E5; [|reflexivity].
    apply next_is_length in E5. pose proof (skip_ws_length r3) as W3.
    destruct (next_is 34 (skip_ws r3)) as [r4|] eqn:E6; [|reflexivity].
    apply next_is_length in E6.
    apply IH; unfold scan_need; lia.
Qed.

(** [json_loads] is what the scanner gives with any larger supply of fuel,
    and the fuel given to a string literal is enough as well. *)
Lemma json_loads_any_fuel (x : str) (fuel : nat) :
  (scan_fuel (skip_ws x) <= fuel)%nat ->
  json_loads x =
  if starts_with [bom] x then JSONDecodeError
  else match scan fuel 0 ScanValue (skip_ws x) with
       | Parsed (v, r) =>
           match skip_ws r with [] => Parsed v | _ => JSONDecodeError end
       | JSONDecodeError => JSONDecodeError
       | OtherError e => OtherError e
       end.
Proof.
  intros H. unfold json_loads.
  now rewrite (@scan_enough (scan_fuel (skip_ws x)) fuel 0 ScanValue
                 (skip_ws x)) by (unfold scan_fuel in *; lia).
Qed.

End ScannerFuel.

Lemma string_fuel_enough (x : str) (fuel : nat) :
  (string_fuel x <= fuel)%nat ->
  scanstring fuel x = scanstring (string_fuel x) x.
Proof.
  intros H. apply scanstring_enough; unfold string_fuel in *; lia.
Qed.

(** ** What the scanner returns, the encoder can write *)

Lemma first_exn_none (checks : list (option exn)) :
  Forall (fun c => c = None) checks -> first_exn checks = None.
Proof.
  induction 1 as [|c checks Hc _ IH]; [reflexivity|].
  subst c. exact IH.
Qed.

Lemma take_digits_all (x d r : str) :
  take_digits x = (d, r) -> forallb is_digit_ascii d = true.
Proof.
  revert d r; induction x as [|c x IH]; intros d r; cbn [take_digits].
  - now intros [= <- <-].
  - destruct (is_digit_ascii c) eqn:D.
    + destruct (take_digits x) as [d' r'] eqn:E. intros [= <- <-].
      cbn [forallb]. now rewrite D, (IH d' r' eq_refl).
    + now intros [= <- <-].
Qed.

(** The integer part of a number is an optional minus and digits. *)
Lemma match_int_part_digits (x integer r : str) :
  match_int_part x = Some (integer, r) ->
  forallb is_digit_ascii (int_digits integer) = true.
Proof.
  unfold match_int_part.
  assert (D : forall c, (c =? 48) = true \/ in_range 49 57 c = true ->
                        is_digit_ascii c = true /\ (c =? 45) = false).
  { intros c [H|H].
    - apply N.eqb_eq in H. subst c. now split.
    - unfold in_range in H. apply andb_true_iff in H as [H1 H2].
      apply N.leb_le in H1, H2. unfold is_digit_ascii, in_range. split.
      + apply andb_true_iff. split; apply N.leb_le; lia.
      + apply N.eqb_neq. lia. }
  assert (K : forall sign x' d r',
             sign = [45] \/ sign = [] ->
             match x' with
             | c :: r0 =>
                 if c =? 48 then Some (sign ++ [c], r0)
                 else if in_range 49 57 c
                      then let (d, r') := take_digits x' in Some (sign ++ d, r')
                      else None
             | [] => None
             end = Some (d, r') ->
             forallb is_digit_ascii (int_digits d) = true).
  { intros sign x' d r' Hs. destruct x' as [|c r0]; [discriminate|].
    destruct (c =? 48) eqn:Z.
    - intros [= <- _]. destruct (D c (or_introl Z)) as [Dc Mc].
      destruct Hs as [-> | ->]; unfold int_digits; cbn [app next_is].
      + cbn. now rewrite Dc.
      + rewrite Mc. cbn [forallb]. now rewrite Dc.
    - destruct (in_range 49 57 c) eqn:Rg; [|discriminate].
      destruct (D c (or_intror Rg)) as [Dc Mc].
      destruct (take_digits (c :: r0)) as [d0 r1] eqn:T.
      intros [= <- _]. pose proof (take_digits_all _ T) as A.
      cbn [take_digits] in T. rewrite Dc in T.
      destruct (take_digits r0) as [d1 r2]. injection T as <- _.
      destruct Hs as [-> | ->]; unfold int_digits; cbn [app next_is].
      + rewrite N.eqb_refl. exact A.
      + rewrite Mc. exact A. }
  destruct (next_is 45 x) as [x'|]; intros H.
  - exact (K [45] x' integer r (or_introl eq_refl) H).
  - exact (K [] x integer r (or_intror eq_refl) H).
Qed.

Lemma digits_value_bound (d : str) :
  forallb is_digit_ascii d = true ->
  digits_value d < 10 ^ N.of_nat (length d).
Proof.
  unfold digits_value.
  assert (G : forall acc,
             forallb is_digit_ascii d = true ->
             fold_left (fun acc c => acc * 10 + (c - 48)) d acc <
             (acc + 1) * 10 ^ N.of_nat (length d)).
  { induction d as [|c d IH]; intros acc H.
    - cbn. lia.
    - cbn [forallb] in H. apply andb_true_iff in H as [Hc H].
      cbn [fold_left length]. specialize (IH (acc * 10 + (c - 48)) H).
      rewrite Nat2N.inj_succ, N.pow_succ_r'.
      unfold is_digit_ascii, in_range in Hc.
      apply andb_true_iff in Hc as [H1 H2]. apply N.leb_le in H1, H2.
      assert (acc * 10 + (c - 48) + 1 <= (acc + 1) * 10) by lia.
      nia. }
  intros H. specialize (G 0 H). now rewrite N.mul_1_l in G.
Qed.

Lemma int_value_abs (integer : str) :
  Z.abs (int_value integer) = Z.of_N (digits_value (int_digits integer)).
Proof.
  unfold int_value, int_digits. destruct (next_is 45 integer); lia.
Qed.

Section Encodable.
Context {L : PyLimits}.

(** An integer that [int] has accepted has no more digits than the limit
    when [str] writes it again. *)
Lemma int_encodable (depth : nat) (x integer r : str) :
  match_int_part x = Some (integer, r) ->
  over_digit_limit (length (int_digits integer)) = false ->
  encoder_exn depth (JInt (int_value integer)) = None.
Proof.
  intros M H. cbn [encoder_exn]. unfold over_digit_limit in H.
  destruct (0 <? int_max_str_digits)%nat; [|reflexivity]. cbn [andb] in *.
  apply Nat.ltb_ge in H.
  assert (E : longer_than int_max_str_digits (int_value integer) = false).
  { unfold longer_than. apply Z.leb_gt. rewrite int_value_abs.
    pose proof (digits_value_bound _ (match_int_part_digits _ M)) as B.
    apply N2Z.inj_lt in B. rewrite N2Z.inj_pow, nat_N_Z in B.
    change (Z.of_N 10) with 10%Z in B.
    eapply Z.lt_le_trans; [exact B|].
    apply Z.pow_le_mono_r; lia. }
  now rewrite E.
Qed.

Lemma scan_word_value (table : list (str * json)) (x r : str) (v : json) :
  scan_word table x = Some (v, r) -> In v (map snd table).
Proof.
  induction table as [|[word v'] table IH]; cbn [scan_word map];
    [discriminate|].
  destruct (after_prefix word x).
  - intros [= <- _]. now left.
  - intros H. right. now apply IH.
Qed.

Lemma scan_atom_encodable (depth : nat) (x r : str) (v : json) :
  scan_atom depth x = Parsed (v, r) -> encoder_exn depth v = None.
Proof.
  unfold scan_atom.
  destruct (scan_word constants x) as [[v0 r0]|] eqn:E1.
  - intros [= <- _]. apply scan_word_value in E1.
    repeat (destruct E1 as [<-|E1]; [reflexivity|]). destruct E1.
  - destruct (match_number x) as [[v0 r0]| |e] eqn:E2; [| |discriminate].
    + intros [= <- _]. unfold match_number in E2.
      destruct (match_int_part x) as [[i r1]|] eqn:M; [|discriminate].
      destruct (match_frac r1) as [f r2]. destruct (match_exp r2) as [e r3].
      destruct f, e;
        try (injection E2 as <- _; reflexivity).
      destruct (over_digit_limit _) eqn:O; [discriminate|].
      injection E2 as <- _. exact (int_encodable depth _ M O).
    + destruct (scan_word special_numbers x) as [[v0 r0]|] eqn:E3;
        [|discriminate].
      destruct (depth <? recursion_room)%nat; [|discriminate].
      intros [= <- _]. apply scan_word_value in E3.
      repeat (destruct E3 as [<-|E3]; [reflexivity|]). destruct E3.
Qed.

Lemma dict_set_encodable (depth : nat) (k : str) (v : json)
    (d : list (str * json)) :
  encoder_exn depth v = None -> pairs_encodable depth d ->
  pairs_encodable depth (dict_set k v d).
Proof.
  intros Hv. induction 1 as [|[k' v'] d Hk Hd IH]; cbn [dict_set].
  - now repeat constructor.
  - destruct (str_eqb k k'); constructor; assumption.
Qed.

Lemma dict_of_pairs_encodable (depth : nat) (pairs : list (str * json)) :
  pairs_encodable depth pairs -> pairs_encodable depth (dict_of_pairs pairs).
Proof.
  unfold dict_of_pairs.
  assert (G : forall d, pairs_encodable depth d ->
                        pairs_encodable depth pairs ->
                        pairs_encodable depth
                          (fold_left (fun d kv => dict_set (fst kv) (snd kv) d)
                                     pairs d)).
  { induction pairs as [|kv pairs IH]; intros d Hd Hp; [exact Hd|].
    cbn [fold_left]. inversion Hp as [|? ? Hkv Hrest]; subst.
    apply IH; [|exact Hrest]. now apply dict_set_encodable. }
  apply G. constructor.
Qed.

Lemma array_encodable (depth : nat) (items : list json) :
  (depth <? recursion_room)%nat = true ->
  values_encodable (S depth) items ->
  encoder_exn depth (JArr items) = None.
Proof.
  intros Hd H. cbn [encoder_exn]. rewrite Hd. apply first_exn_none.
  apply Forall_map. exact H.
Qed.

Lemma object_encodable (depth : nat) (pairs : list (str * json)) :
  (depth <? recursion_room)%nat = true ->
  pairs_encodable (S depth) pairs ->
  encoder_exn depth (JObj pairs) = None.
Proof.
  intros Hd H. cbn [encoder_exn]. rewrite Hd. apply first_exn_none.
  apply Forall_map. exact H.
Qed.

(** The values that the scanner returns inside [depth] arrays and objects
    can be written by the encoder at the same depth. *)
Lemma scan_encodable (fuel depth : nat) (mode : scan_mode) (x r : str)
    (v : json) :
  scan fuel depth mode x = Parsed (v, r) ->
  match mode with
  | ScanValue => encoder_exn depth v = None
  | ScanArray values =>
      values_encodable depth values ->
      exists items, v = JArr items /\ values_encodable depth items
  | ScanObject pairs =>
      pairs_encodable depth pairs ->
      exists items, v = JObj items /\ pairs_encodable depth items
  end.
Proof.
  revert depth mode x r v; induction fuel as [|fuel IH];
    intros depth mode x r v; [discriminate|].
  cbn [scan]. destruct mode as [|values|pairs].
  - destruct (next_is 34 x) as [rest|].
    { destruct (scanstring _ rest) as [[v0 r0]|].
      - now intros [= <- _].
      - intros H. now apply decode_error_at_not_parsed in H. }
    destruct (next_is 123 x) as [rest|].
    { destruct (depth <? recursion_room)%nat eqn:Hd; [|discriminate].
      destruct (next_is 125 (skip_ws rest)) as [r0|].
      { intros [= <- _]. apply object_encodable; [exact Hd | constructor]. }
      destruct (next_is 34 (skip_ws rest)) as [r0|].
      - intros H. apply IH in H. destruct (H (Forall_nil _)) as (ps & -> & Hp).
        now apply object_encodable.
      - intros H. now apply decode_error_at_not_parsed in H. }
    destruct (next_is 91 x) as [rest|].
    { destruct (depth <? recursion_room)%nat eqn:Hd; [|discriminate].
      destruct (next_is 93 (skip_ws rest)) as [r0|].
      { intros [= <- _]. apply array_encodable; [exact Hd | constructor]. }
      intros H. apply IH in H. destruct (H (Forall_nil _)) as (ps & -> & Hp).
      now apply array_encodable. }
    apply scan_atom_encodable.
  - destruct (scan fuel depth ScanValue x) as [[v0 r0]| |e] eqn:E1;
      [|discriminate|discriminate].
    apply IH in E1. intros H Hv.
    assert (Hall : values_encodable depth (values ++ [v0])).
    { apply Forall_app. split; [exact Hv | now constructor]. }
    destruct (next_is 93 (skip_ws r0)) as [r1|].
    { injection H as <- _. now exists (values ++ [v0]). }
    destruct (next_is 44 (skip_ws r0)) as [r1|].
    + apply IH in H. exact (H Hall).
    + now apply decode_error_at_not_parsed in H.
  - destruct (scanstring _ x) as [[key r0]|];
      [|intros H; now apply decode_error_at_not_parsed in H].
    destruct (next_is 58 (skip_ws r0)) as [r1|];
      [|intros H; now apply decode_error_at_not_parsed in H].
    destruct (scan fuel depth ScanValue (skip_ws r1)) as [[v0 r2]| |e] eqn:E3;
      [|discriminate|discriminate].
    apply IH in E3. intros H Hp.
    assert (Hall : pairs_encodable depth (pairs ++ [(key, v0)])).
    { apply Forall_app. split; [exact Hp | now constructor]. }
    destruct (next_is 125 (skip_ws r2)) as [r3|].
    { injection H as <- _. eexists. split; [reflexivity|].
      now apply dict_of_pairs_encodable. }
    destruct (next_is 44 (skip_ws r2)) as [r3|];
      [|now apply decode_error_at_not_parsed in H].
    destruct (next_is 34 (skip_ws r3)) as [r4|];
      [|now apply decode_error_at_not_parsed in H].
    apply IH in H. exact (H Hall).
Qed.

Section Serialized.
Context {R : PyRuntime}.

(** [json.dumps] raises nothing on a value that [json.loads] has
    returned. *)
Lemma dumps_after_loads (x : str) (v : json) :
  json_loads x = Parsed v -> json_dumps v = Returns (json_text v).
Proof.
  unfold json_loads. destruct (starts_with [bom] x); [discriminate|].
  destruct (scan _ 0 ScanValue (skip_ws x)) as [[v0 r]| |e] eqn:E;
    [|discriminate|discriminate].
  destruct (skip_ws r); [|discriminate]. intros [= <-].
  apply scan_encodable in E. unfold json_dumps. now rewrite E.
Qed.

End Serialized.

End Encodable.

(** ** Tool output validation *)

(** C3, as stated, fails: [json.loads] can fail with an exception that is
    not a [JSONDecodeError], and then [validate_result] returns nothing,
    neither for an integer of 4301 digits (which is JSON) nor for 3000
    opening brackets (which are not), nor for 3000 arrays one inside the
    other. *)
Lemma C3_parse_failure_raises :
  @validate_result ascii_runtime cpython_limits (s "get_data_json")
     (repeat 49 4301%nat) = Raises ValueError /\
  @validate_result ascii_runtime cpython_limits (s "get_data_json")
     (repeat 91 3000%nat) = Raises RecursionError /\
  @validate_result ascii_runtime cpython_limits (s "get_data_json")
     (repeat 91 3000%nat ++ repeat 93 3000%nat) = Raises RecursionError.
Proof. repeat split; vm_compute; reflexivity. Qed.

(** C3 (amended): where the interpreter has the stack for one level of
    nesting, the output [{invalid] of the tool get_data_json is rejected
    with no corrected output and the one message naming the tool, and the
    output [{"a":1}] is accepted and returned as [{"a": 1}] with no message.
    For every tool name that contains json and every output: when
    [json.loads] raises [JSONDecodeError], the result is (false, None,
    [message naming the tool]); when it returns a value, the result is
    (true, that value serialized again, []), the serialization raising
    nothing; and when it raises another exception (a ValueError for an
    integer of more digits than the interpreter allows, a RecursionError
    for arrays and objects nested deeper than its stack), no result is
    returned: the exception leaves [validate_result]. *)
Theorem C3_validate_result (R : PyRuntime) (L : PyLimits) :
  ((1 <= recursion_room)%nat -> (1 <= report_room)%nat ->
   validate_result (s "get_data_json") (s "{invalid") =
     Returns (false, None, [s "Invalid JSON output from get_data_json"]) /\
   validate_result (s "get_data_json") json_example_input =
     Returns (true, Some json_example_output, [])) /\
  forall tool_name output : str,
    contains (s "json") tool_name = true ->
    (json_loads output = JSONDecodeError ->
     validate_result tool_name output =
       Returns (false, None, [s "Invalid JSON output from " ++ tool_name])) /\
    (forall v, json_loads output = Parsed v ->
     validate_result tool_name output =
       Returns (true, Some (json_text v), [])) /\
    (forall e, json_loads output = OtherError e ->
     validate_result tool_name output = Raises e).
Proof.
  assert (G : forall tool_name output : str,
    contains (s "json") tool_name = true ->
    (json_loads output = JSONDecodeError ->
     validate_result tool_name output =
       Returns (false, None, [s "Invalid JSON output from " ++ tool_name])) /\
    (forall v, json_loads output = Parsed v ->
     validate_result tool_name output =
       Returns (true, Some (json_text v), [])) /\
    (forall e, json_loads output = OtherError e ->
     validate_result tool_name output = Raises e)).
  { intros tool_name output H.
    unfold validate_result, validate_tool_output.
    rewrite json_name_test, H.
    split; [intros ->; reflexivity|]. split.
    - intros v E. now rewrite E, (dumps_after_loads _ E).
    - intros e ->. reflexivity. }
  split; [|exact G].
  intros Hr Hp.
  assert (N : contains (s "json") (s "get_data_json") = true)
    by (vm_compute; reflexivity).
  destruct (G (s "get_data_json") (s "{invalid") N) as [A _].
  destruct (G (s "get_data_json") json_example_input N) as (_ & B & _).
  split.
  - apply A. clear A B G.
    destruct L as [digits room report]. cbn [recursion_room report_room] in *.
    destruct room as [|room]; [lia|]. destruct report as [|report]; [lia|].
    vm_compute. reflexivity.
  - rewrite (B (JObj [(s "a", JInt 1)])); [vm_compute; reflexivity|].
    clear A B G.
    destruct L as [digits room report]. cbn [recursion_room report_room] in *.
    destruct room as [|room]; [lia|]. destruct digits as [|digits];
      vm_compute; reflexivity.
Qed.

Lemma C3_validate_result_witness :
  (@validate_result ascii_runtime cpython_limits (s "get_data_json")
     (s "{invalid") =
     Returns (false, None, [s "Invalid JSON output from get_data_json"]) /\
   @validate_result ascii_runtime cpython_limits (s "get_data_json")
     json_example_input = Returns (true, Some json_example_output, [])) /\
  @validate_result ascii_runtime cpython_limits (s "fetch_json_rows")
     (s "[1,") =
    Returns (false, None, [s "Invalid JSON output from fetch_json_rows"]) /\
  @validate_result ascii_runtime cpython_limits (s "fetch_json_rows")
     (s "[1,2]") = Returns (true, Some (s "[1, 2]"), []) /\
  @validate_result ascii_runtime cpython_limits (s "fetch_json_rows")
     (repeat 49 4301%nat) = Raises ValueError.
Proof.
  assert (H : contains (s "json") (s "fetch_json_rows") = true)
    by (vm_compute; reflexivity).
  pose proof (@C3_validate_result ascii_runtime cpython_limits) as [E G].
  split; [|split; [|split]].
  - apply E; apply Nat.leb_le; vm_compute; reflexivity.
  - apply (proj1 (G _ (s "[1,") H)). vm_compute. reflexivity.
  - apply (proj1 (proj2 (G _ (s "[1,2]") H)) (JArr [JInt 1; JInt 2])).
    vm_compute. reflexivity.
  - apply (proj2 (proj2 (G _ (repeat 49 4301%nat) H))).
    vm_compute. reflexivity.
Defined.

(** ** Hallucination check *)

Lemma check_for_hallucinations_spec (R : PyRuntime) (query response : str) :
  check_for_hallucinations query response =
    (existsb (unsupported query) (mentioned_entities response),
     map hallucination_reason
         (filter (unsupported query) (mentioned_entities response))).
Proof.
  pose proof (fold_left_collect (unsupported query) hallucination_reason
                (mentioned_entities response) []) as F.
  unfold check_for_hallucinations, unsupported, mentioned_entities in *.
  cbv zeta. rewrite F. clear F. simpl app. f_equal.
  induction (re_findall_group false entities_pattern response)
    as [|e l IH]; simpl; [reflexivity|].
  destruct (negb (share_term (terms e) (terms query))); simpl;
    [reflexivity | exact IH].
Qed.

(** C5, as stated, fails on its own example: the article is matched in
    lower case only, so nothing is extracted from a response that starts
    with The, and nothing is flagged. *)
Lemma C5_capital_article_not_flagged :
  @check_for_hallucinations ascii_runtime
     (s "tell me about the weather") (s "The Eiffel Tower is tall.") =
    (false, []).
Proof. vm_compute. reflexivity. Qed.

(** C5 (amended): for the query tell me about the weather, the response
    the Eiffel Tower is tall. (article in lower case) is flagged with the
    reason naming Eiffel Tower, while The Eiffel Tower is tall. is not
    flagged, because the article is matched in lower case only.  In general
    the reasons name, in order, the phrases extracted by the entity pattern
    whose lower-cased tokens share no word with the tokens of the query,
    and the flag is true exactly when there is such a phrase. *)
Theorem C5_check_for_hallucinations (R : PyRuntime) :
  check_for_hallucinations
     (s "tell me about the weather") (s "the Eiffel Tower is tall.") =
    (true,
     [s "Response mentions 'Eiffel Tower' which was not in the original query"])
  /\
  check_for_hallucinations
     (s "tell me about the weather") (s "The Eiffel Tower is tall.") =
    (false, []) /\
  forall query response : str,
    let result := check_for_hallucinations query response in
    snd result =
      map hallucination_reason
          (filter (unsupported query) (mentioned_entities response)) /\
    (fst result = true <->
     exists entity, In entity (mentioned_entities response) /\
                    share_term (terms entity) (terms query) = false).
Proof.
  split; [vm_compute; reflexivity|].
  split; [vm_compute; reflexivity|].
  intros query response result. subst result.
  rewrite check_for_hallucinations_spec. simpl fst; simpl snd.
  split; [reflexivity|].
  rewrite existsb_exists. unfold unsupported.
  split; intros (e & He & H); exists e; split; auto.
  - now apply negb_true_iff in H.
  - now apply negb_true_iff.
Qed.

Lemma C5_check_for_hallucinations_witness :
  fst (@check_for_hallucinations ascii_runtime
         (s "tell me about the weather")
         (s "I went up the Eiffel Tower in a Storm.")) = true.
Proof.
  apply (proj2 (proj2 (@C5_check_for_hallucinations ascii_runtime))).
  exists (s "Eiffel Tower"). split.
  - vm_compute. left. reflexivity.
  - vm_compute. reflexivity.
Defined.

(** * Further properties *)

Lemma fold_step_noop {A B : Type} (step : A -> B -> A) (l : list B) (a : A) :
  (forall b, In b l -> step a b = a) -> fold_left step l a = a.
Proof.
  induction l as [|b l IH]; intros H; [reflexivity|]. simpl.
  rewrite H by now left. apply IH. intros b' Hb. apply H. now right.
Qed.

Lemma none_of (p : N -> bool) (x : str) :
  forallb (fun c => negb (p c)) x = true ->
  forall c, In c x -> p c = false.
Proof.
  intros H c Hc. rewrite forallb_forall in H.
  apply negb_true_iff. now apply H.
Qed.

Lemma contains_in (p x : str) (c : N) :
  contains p x = true -> In c p -> In c x.
Proof.
  intros H Hc. apply contains_iff in H as (a & b & ->).
  apply in_or_app. right. apply in_or_app. now left.
Qed.

(** ** Where a pattern can match *)

Section Finding.
Context {R : PyRuntime}.
Variables (ic : bool) (r : regex).

(** Every match that [finditer] lists was found at a position of the
    subject. *)
Lemma finditer_suffix (aft bef : str) (skip : nat) (m : rmatch_obj) :
  In m (finditer_from ic r bef aft skip) ->
  exists bef' a aft',
    aft = a ++ aft' /\ match_here ic r bef' aft' = Some m.
Proof.
  revert bef skip; induction aft as [|c rest IH]; intros bef skip.
  - destruct skip; simpl; [|tauto].
    destruct (match_here ic r bef []) eqn:E; simpl; [|tauto].
    intros [<-|[]]. now exists bef, [], [].
  - assert (Step : forall bef0 skip0,
               In m (finditer_from ic r bef0 rest skip0) ->
               exists bef' a aft',
                 c :: rest = a ++ aft' /\
                 match_here ic r bef' aft' = Some m).
    { intros bef0 skip0 H. apply IH in H as (bef' & a & aft' & -> & H).
      now exists bef', (c :: a), aft'. }
    destruct skip; simpl.
    + destruct (match_here ic r bef (c :: rest)) eqn:E.
      * intros [<-|H]; [now exists bef, [], (c :: rest) | now apply Step in H].
      * apply Step.
    + apply Step.
Qed.

(** The text of every match is a part of the subject. *)
Lemma finditer_part (x : str) (m : rmatch_obj) :
  In m (re_finditer ic r x) -> exists a b, x = a ++ m_text m ++ b.
Proof.
  intros H. apply finditer_suffix in H as (bef' & a & aft' & -> & H).
  apply match_here_text in H as (st & _ & ->).
  now exists a, (after st).
Qed.

(** [re.search] finds the first match of [re.finditer]. *)
Lemma search_first (aft bef : str) :
  search_from ic r bef aft = hd_error (finditer_from ic r bef aft 0).
Proof.
  revert bef; induction aft as [|c rest IH]; intros bef;
    cbn [search_from finditer_from];
    destruct (match_here ic r bef _); try reflexivity.
  apply IH.
Qed.

(** Where the pattern matches nowhere, [re.search] finds nothing and
    [re.sub] returns the subject. *)
Lemma no_match (x : str) :
  re_finditer ic r x = [] ->
  re_test ic r x = false /\
  forall repl, re_sub_fn ic r repl x = x.
Proof.
  intros H. split.
  - unfold re_test, re_search. rewrite search_first.
    unfold re_finditer in H. now rewrite H.
  - intros repl. unfold re_sub_fn.
    rewrite sub_from_same; [reflexivity|].
    unfold re_finditer in H. rewrite H. intros m [].
Qed.

(** A pattern that needs a character of some kind matches nowhere in a
    text without such a character. *)
Lemma needs_char (p : N -> bool) (x : str) :
  (forall bef aft m, match_here ic r bef aft = Some m ->
                     exists c, In c aft /\ p c = true) ->
  (forall c, In c x -> p c = false) ->
  re_finditer ic r x = [].
Proof.
  intros Hneed Hx. destruct (re_finditer ic r x) as [|m l] eqn:E;
    [reflexivity|].
  assert (Hm : In m (re_finditer ic r x)) by (rewrite E; now left).
  apply finditer_suffix in Hm as (bef' & a & aft' & -> & Hm).
  apply Hneed in Hm as (c & Hc & Pc).
  rewrite Hx in Pc; [discriminate|]. apply in_or_app. now right.
Qed.

(** What [re.sub] keeps when every replacement keeps it. *)
Lemma sub_from_filter (p : N -> bool) (repl : rmatch_obj -> str)
    (aft bef : str) (skip : nat) :
  (forall m, filter p (repl m) = filter p (m_text m)) ->
  filter p (sub_from ic r repl bef aft skip) = filter p (skipn skip aft).
Proof.
  intros H. revert bef skip; induction aft as [|c rest IH]; intros bef skip.
  - destruct skip; simpl; [|reflexivity].
    destruct (match_here ic r bef []) as [m|] eqn:E; [|reflexivity].
    rewrite app_nil_r, H.
    pose proof E as E'. apply match_here_start in E' as [_ Ht].
    rewrite firstn_nil in Ht. now rewrite Ht.
  - destruct skip as [|skip]; cbn [sub_from skipn].
    + destruct (match_here ic r bef (c :: rest)) as [m|] eqn:E.
      * pose proof E as E'. apply match_here_start in E' as [_ Ht].
        rewrite filter_app, H.
        destruct (length (m_text m)) as [|n] eqn:En.
        -- destruct (m_text m); [|discriminate]. cbn [filter app].
           now rewrite IH.
        -- rewrite IH, Ht.
           change (skipn n rest) with (skipn (S n) (c :: rest)).
           now rewrite <- filter_app, firstn_skipn.
      * cbn [filter]. now rewrite IH.
    + apply IH.
Qed.

(** [re.sub] does not make the text longer when no replacement is longer
    than its match. *)
Lemma sub_from_length (repl : rmatch_obj -> str) (aft bef : str)
    (skip : nat) :
  (forall m, (length (repl m) <= length (m_text m))%nat) ->
  (length (sub_from ic r repl bef aft skip) <= length (skipn skip aft))%nat.
Proof.
  intros H. revert bef skip; induction aft as [|c rest IH]; intros bef skip.
  - destruct skip; simpl; [|lia].
    destruct (match_here ic r bef []) as [m|] eqn:E; [|simpl; lia].
    rewrite app_nil_r. specialize (H m).
    pose proof E as E'. apply match_here_start in E' as [_ Ht].
    rewrite firstn_nil in Ht. rewrite Ht in H. exact H.
  - destruct skip as [|skip]; cbn [sub_from skipn].
    + destruct (match_here ic r bef (c :: rest)) as [m|] eqn:E.
      * pose proof E as E'. apply match_here_start in E' as [_ Ht].
        rewrite length_app. specialize (H m).
        destruct (length (m_text m)) as [|n] eqn:En.
        -- specialize (IH (c :: bef) 0%nat). cbn [skipn length] in *. lia.
        -- specialize (IH (c :: bef) n).
           pose proof (firstn_skipn (S n) (c :: rest)) as F.
           apply (f_equal (@length N)) in F. rewrite length_app in F.
           apply (f_equal (@length N)) in Ht. rewrite En in Ht.
           cbn [skipn length] in *. lia.
      * specialize (IH (c :: bef) 0%nat). cbn [skipn length] in *. lia.
    + apply IH.
Qed.

Lemma rmatch_Seq (a b : regex) (st : mstate) (k : mstate -> option mstate) :
  rmatch ic (Seq a b) st k = rmatch ic a st (fun st' => rmatch ic b st' k).
Proof. reflexivity. Qed.

Lemma rmatch_Group (n : nat) (a : regex) (st : mstate)
    (k : mstate -> option mstate) :
  rmatch ic (Group n a) st k =
  rmatch ic a st (fun st' => k (close_group n st st')).
Proof. reflexivity. Qed.

Lemma rmatch_Alt (a b : regex) (st res : mstate)
    (k : mstate -> option mstate) :
  rmatch ic (Alt a b) st k = Some res ->
  rmatch ic a st k = Some res \/ rmatch ic b st k = Some res.
Proof.
  cbn [rmatch]. destruct (rmatch ic a st k); [now left | now right].
Qed.

Lemma rmatch_Bnd (st res : mstate) (k : mstate -> option mstate) :
  rmatch ic Bnd st k = Some res -> k st = Some res.
Proof.
  cbn [rmatch]. now destruct (at_boundary (before st) (after st)).
Qed.

Lemma rmatch_Cls (items : list citem) (st res : mstate)
    (k : mstate -> option mstate) :
  rmatch ic (Cls items) st k = Some res ->
  exists c rest,
    after st = c :: rest /\ in_class ic items c = true /\
    k (MState (c :: before st) rest (caps st)) = Some res.
Proof.
  cbn [rmatch]. unfold step_char.
  destruct (after st) as [|c rest]; [discriminate|].
  destruct (in_class ic items c) eqn:E; [|discriminate].
  intros H. now exists c, rest.
Qed.

Lemma rmatch_Lit (p : N) (st res : mstate) (k : mstate -> option mstate) :
  rmatch ic (Lit p) st k = Some res ->
  exists c rest,
    after st = c :: rest /\ char_eq ic p c = true /\
    k (MState (c :: before st) rest (caps st)) = Some res.
Proof.
  cbn [rmatch]. unfold step_char.
  destruct (after st) as [|c rest]; [discriminate|].
  destruct (char_eq ic p c) eqn:E; [|discriminate].
  intros H. now exists c, rest.
Qed.

End Finding.

(** *** The character each pattern cannot do without *)

Section Needs.
Context {R : PyRuntime}.

Lemma in_class_digit (c : N) : in_class false [CDigit] c = is_digit c.
Proof. unfold in_class; simpl. apply orb_false_r. Qed.

(** A date begins with a digit. *)
Lemma date_needs_digit (bef aft : str) (m : rmatch_obj) :
  match_here false date_pattern bef aft = Some m ->
  exists c, In c aft /\ is_digit c = true.
Proof.
  intros H. apply match_here_text in H as (st & E & _).
  unfold date_pattern, RepRange, digit in E. cbn [seqs Rep] in E.
  rewrite rmatch_Seq, rmatch_Group, !rmatch_Seq in E.
  apply rmatch_Cls in E as (c & rest & A & C & _). cbn [after] in A.
  exists c. rewrite A, <- in_class_digit. split; [now left | exact C].
Qed.

(** An amount has a digit right behind the currency symbol. *)
Lemma currency_needs_digit (bef aft : str) (m : rmatch_obj) :
  match_here false currency_pattern bef aft = Some m ->
  exists c, In c aft /\ is_digit c = true.
Proof.
  intros H. apply match_here_text in H as (st & E & _).
  unfold currency_pattern, RepRange, Plus, digit in E. cbn [seqs Rep] in E.
  rewrite rmatch_Seq in E.
  apply rmatch_Cls in E as (c0 & rest0 & A0 & _ & E). cbn [after] in A0.
  rewrite rmatch_Seq, rmatch_Group in E.
  apply rmatch_Alt in E as [E|E]; rewrite !rmatch_Seq in E;
    apply rmatch_Cls in E as (c & rest & A & C & _); cbn [after] in A;
    exists c; rewrite A0, A, <- in_class_digit;
    (split; [right; now left | exact C]).
Qed.

(** A card number and a social security number begin with a digit. *)
Lemma cc_needs_digit (bef aft : str) (m : rmatch_obj) :
  match_here false cc_pattern bef aft = Some m ->
  exists c, In c aft /\ is_digit c = true.
Proof.
  intros H. apply match_here_text in H as (st & E & _).
  unfold cc_pattern, digit in E. cbn [seqs Rep] in E.
  rewrite rmatch_Seq in E. apply rmatch_Bnd in E.
  rewrite !rmatch_Seq in E.
  apply rmatch_Cls in E as (c & rest & A & C & _). cbn [after] in A.
  exists c. rewrite A, <- in_class_digit. split; [now left | exact C].
Qed.

Lemma ssn_needs_digit (bef aft : str) (m : rmatch_obj) :
  match_here false ssn_pattern bef aft = Some m ->
  exists c, In c aft /\ is_digit c = true.
Proof.
  intros H. apply match_here_text in H as (st & E & _).
  unfold ssn_pattern, digit in E. cbn [seqs Rep] in E.
  rewrite rmatch_Seq in E. apply rmatch_Bnd in E.
  rewrite !rmatch_Seq in E.
  apply rmatch_Cls in E as (c & rest & A & C & _). cbn [after] in A.
  exists c. rewrite A, <- in_class_digit. split; [now left | exact C].
Qed.

(** An entity holds a capital ASCII letter. *)
Lemma entity_needs_capital (bef aft : str) (m : rmatch_obj) :
  match_here false entities_pattern bef aft = Some m ->
  exists c, In c aft /\ is_upper_ascii c = true.
Proof.
  intros H. apply match_here_text in H as (st & E & _).
  unfold entities_pattern, capitalized in E. cbn [seqs] in E.
  rewrite rmatch_Seq in E.
  apply rmatch_forward in E as (st1 & p1 & E & A1).
  rewrite rmatch_Seq in E.
  apply rmatch_forward in E as (st2 & p2 & E & A2).
  rewrite rmatch_Group, !rmatch_Seq in E.
  apply rmatch_Cls in E as (c & rest & A & C & _).
  cbn [after] in *. exists c. split.
  - rewrite A1, A2, A. apply in_or_app. right. apply in_or_app. right.
    now left.
  - unfold in_class in C. simpl in C. now rewrite orb_false_r in C.
Qed.

End Needs.

(** ** Typo correction *)

Section TypoTable.
Context {R : PyRuntime}.

(** Replacing a word by another word: the replaced word is gone, and any
    other word occurs exactly if it did. *)
Lemma has_filt_any (w corr w' : str) :
  plain_word w = true -> plain_word corr = true -> plain_word w' = true ->
  safe w (tl w') true = true -> safe corr (tl w') true = true ->
  (str_eqb w' w = false -> safe w' w false = true) ->
  safe w' corr false = true ->
  forall (x : str) (q : bool),
    has w' q (filt w corr q x 0) = if str_eqb w' w then false else has w' q x.
Proof.
  intros Hw Hc Hw' Hs1 Hs2 Hs3 Hs4 x q.
  apply (@has_filt _ w corr (safe corr) Hw) with (n := length x); auto.
  - intros p r q0 Hs. simpl in Hs. now apply andb_true_iff in Hs as [_ Hs].
  - intros p r rest Hr Hs Hrest.
    destruct (tail_occ (p :: r) false (corr ++ rest)) eqn:T; [|reflexivity].
    pose proof (@safe_no_occ _ corr (p :: r) false (corr ++ rest)
                  Hr Hc Hs T) as F.
    rewrite (occ_self _ _ Hc Hrest) in F. discriminate.
  - intros rest Hrest.
    rewrite (@has_skip _ w' corr false (corr ++ rest)
               (plain_word_plain _ Hc) Hw' Hs4).
    + rewrite (plain_word_last_q _ false Hc).
      now rewrite skipn_app, skipn_all, Nat.sub_diag.
    + rewrite (tail_occ_self _ false rest (plain_word_plain _ Hc)).
      now rewrite (plain_word_last_q _ false Hc), Hrest.
Qed.

Variable entries : list (str * str).
Hypothesis entries_ok : table_ok entries = true.

(** One step of the loop: the typo of the step is gone, and every other
    typo of the table occurs exactly if it did before. *)
Lemma typo_step_word (e e' : str * str) (cur : str)
    (fixes : list fix_record) :
  In e entries -> In e' entries ->
  has (fst e') false (fst (typo_step_text (cur, fixes) e)) =
  if str_eqb (fst e') (fst e) then false else has (fst e') false cur.
Proof.
  intros He He'. unfold table_ok in entries_ok.
  apply andb_true_iff in entries_ok as [_ H].
  rewrite forallb_forall in H.
  pose proof (H e' He') as H'.
  apply andb_true_iff in H' as [H' _].
  apply andb_true_iff in H' as [Pw' _].
  specialize (H e He).
  apply andb_true_iff in H as [H Hall].
  apply andb_true_iff in H as [Pw Pc].
  rewrite forallb_forall in Hall. specialize (Hall e' He').
  apply andb_true_iff in Hall as [Hall S4].
  apply andb_true_iff in Hall as [Hall S3].
  apply andb_true_iff in Hall as [S1 S2].
  unfold typo_step_text. cbn [fst snd].
  destruct (has (fst e) false cur) eqn:E; cbn [fst].
  - apply has_filt_any; auto.
    intros Eq. apply orb_true_iff in S3 as [S3|S3]; [|exact S3].
    pose proof (eq_trans (eq_sym Eq) S3). discriminate.
  - destruct (str_eqb (fst e') (fst e)) eqn:Eq; [|reflexivity].
    apply str_eqb_eq in Eq. now rewrite Eq.
Qed.

Lemma fold_typo_text (todo : list (str * str)) :
  incl todo entries -> distinct (map fst todo) = true ->
  forall (cur : str) (fixes : list fix_record),
    let result := fold_left typo_step_text todo (cur, fixes) in
    (forall e', In e' entries ->
       has (fst e') false (fst result) =
       if existsb (str_eqb (fst e')) (map fst todo) then false
       else has (fst e') false cur) /\
    snd result =
      fixes ++ map (fun e => typo_fix (fst e) (snd e))
                   (filter (fun e => has (fst e) false cur) todo).
Proof.
  induction todo as [|e rest IH]; intros Hin Hd cur fixes.
  - cbn. split; [reflexivity | now rewrite app_nil_r].
  - cbn [fold_left].
    assert (He : In e entries) by (apply Hin; now left).
    assert (Hrest : incl rest entries) by (intros a Ha; apply Hin; now right).
    cbn [map distinct] in Hd. apply andb_true_iff in Hd as [Hnew Hd].
    apply negb_true_iff in Hnew.
    pose proof (fun e' => @typo_step_word e e' cur fixes He) as K.
    assert (F : snd (typo_step_text (cur, fixes) e) =
                fixes ++ map (fun e => typo_fix (fst e) (snd e))
                             (filter (fun e => has (fst e) false cur) [e])).
    { unfold typo_step_text. cbn [fst snd filter].
      destruct (has (fst e) false cur); cbn [snd map]; [reflexivity|].
      now rewrite app_nil_r. }
    destruct (typo_step_text (cur, fixes) e) as [cur1 fixes1].
    cbn [fst snd] in K, F.
    destruct (IH Hrest Hd cur1 fixes1) as [A B]. split.
    + intros e' He'. rewrite (A e' He'), (K e' He'). cbn [map existsb].
      destruct (str_eqb (fst e') (fst e)); cbn [orb];
        now destruct (existsb (str_eqb (fst e')) (map fst rest)).
    + rewrite B, F. cbn [filter].
      assert (Ef : filter (fun e0 => has (fst e0) false cur1) rest =
                   filter (fun e0 => has (fst e0) false cur) rest).
      { apply filter_ext_in. intros a Ha. rewrite (K a (Hrest a Ha)).
        destruct (str_eqb (fst a) (fst e)) eqn:Eq; [|reflexivity].
        apply str_eqb_eq in Eq.
        assert (existsb (str_eqb (fst e)) (map fst rest) = true).
        { apply existsb_exists. exists (fst a). split.
          - now apply in_map.
          - rewrite Eq. apply str_eqb_refl. }
        congruence. }
      rewrite Ef. destruct (has (fst e) false cur); cbn [map app].
      * now rewrite <- app_assoc.
      * now rewrite app_nil_r.
Qed.

End TypoTable.

Lemma common_typos_table_ok (R : PyRuntime) : table_ok common_typos = true.
Proof. vm_compute. reflexivity. Qed.

(** The typo step on any input. *)
Lemma fix_typos_spec (R : PyRuntime) (query : str) :
  let result := fix_typos query in
  (forall e, In e common_typos ->
     re_test true (whole_word (fst e)) (fst result) = false) /\
  snd result =
    map (fun e => typo_fix (fst e) (snd e))
        (filter (fun e => re_test true (whole_word (fst e)) query)
                common_typos).
Proof.
  intros result. unfold result. rewrite fix_typos_text.
  assert (D : distinct (map fst common_typos) = true)
    by (vm_compute; reflexivity).
  destruct (@fold_typo_text R common_typos (common_typos_table_ok R)
              common_typos (incl_refl _) D query []) as [A B].
  split.
  - intros e He. rewrite re_test_whole_word, (A e He).
    assert (X : existsb (str_eqb (fst e)) (map fst common_typos) = true).
    { apply existsb_exists. exists (fst e). split;
        [now apply in_map | apply str_eqb_refl]. }
    now rewrite X.
  - rewrite B. cbn [app]. f_equal. apply filter_ext.
    intros a. now rewrite re_test_whole_word.
Qed.

(** X1: in the string that [fix_typos] returns, no typo of its table is
    left as a whole word (searched as the function searches, with
    IGNORECASE), whatever the letter case it was written in and although
    the table is worked through one entry after the other; and the fix list
    holds exactly one record for each typo of the table that occurs as a
    whole word in the query, in the order of the table. *)
Theorem X1_fix_typos (R : PyRuntime) (query : str) :
  let result := fix_typos query in
  (forall typo correction, In (typo, correction) common_typos ->
     re_test true (whole_word typo) (fst result) = false) /\
  snd result =
    map (fun e => typo_fix (fst e) (snd e))
        (filter (fun e => re_test true (whole_word (fst e)) query)
                common_typos).
Proof.
  intros result. destruct (fix_typos_spec R query) as [A B].
  split; [|exact B].
  intros typo correction H. exact (A _ H).
Qed.

Lemma X1_fix_typos_witness :
  let query := s "My Clendar and my emial, my clendar" in
  In (s "clendar", s "calendar") common_typos /\
  @re_test ascii_runtime true (whole_word (s "clendar"))
     (fst (@fix_typos ascii_runtime query)) = false /\
  snd (@fix_typos ascii_runtime query) =
    [s "Corrected typo: 'clendar' to 'calendar'";
     s "Corrected typo: 'emial' to 'email'"].
Proof.
  intros query.
  assert (H : In (s "clendar", s "calendar") common_typos)
    by (left; reflexivity).
  destruct (@X1_fix_typos ascii_runtime query) as [A B].
  split; [exact H|]. split.
  - exact (A _ _ H).
  - rewrite B. vm_compute. reflexivity.
Defined.

(** X2: [fix_typos] applied to its own output returns that output again
    and records no fix. *)
Theorem X2_fix_typos_idempotent (R : PyRuntime) (query : str) :
  let once := fix_typos query in
  fix_typos (fst once) = (fst once, []).
Proof.
  intros once. destruct (fix_typos_spec R query) as [A _]. fold once in A.
  unfold fix_typos at 1. apply fold_step_noop. intros [typo correction] He.
  pose proof (A _ He) as E. cbn [fst] in E.
  unfold fix_typos_step. now rewrite E.
Qed.

(** X3: a denylisted word occurs as a whole word in the string that
    [fix_typos] returns exactly if it occurs in the query: correcting typos
    neither brings in a word of the denylist nor hides one from the
    banned-word step that follows it in the pipeline. *)
Theorem X3_fix_typos_keeps_banned (R : PyRuntime) (query word : str) :
  In word banned_words ->
  re_test true (whole_word word) (fst (fix_typos query)) =
  re_test true (whole_word word) query.
Proof. apply fix_typos_keeps_banned. Qed.

Lemma X3_fix_typos_keeps_banned_witness :
  In (s "hack") banned_words /\
  @re_test ascii_runtime true (whole_word (s "hack"))
     (fst (@fix_typos ascii_runtime (s "hack my clendar"))) = true.
Proof.
  assert (H : In (s "hack") banned_words) by (left; reflexivity).
  split; [exact H|].
  rewrite (@X3_fix_typos_keeps_banned ascii_runtime
             (s "hack my clendar") (s "hack") H).
  vm_compute. reflexivity.
Defined.

(** ** Banned words, once more *)

(** X4: [remove_banned_words] applied to its own output returns that
    output again and records no fix. *)
Theorem X4_remove_banned_words_idempotent (R : PyRuntime) (query : str) :
  let once := remove_banned_words query in
  remove_banned_words (fst once) = (fst once, []).
Proof.
  intros once. destruct (remove_banned_words_spec R query) as [A _].
  fold once in A.
  unfold remove_banned_words at 1. apply fold_step_noop. intros word He.
  unfold remove_banned_step. now rewrite (A _ He).
Qed.

(** ** The form of a rewritten date *)

Section DateShape.
Context {R : PyRuntime}.

(** A group of one or two digits: what it captures is what it passed. *)
Lemma group_one_or_two (n : nat) (st res : mstate)
    (k : mstate -> option mstate) :
  rmatch false (Group n (RepRange 1 2 digit)) st k = Some res ->
  exists g st',
    k st' = Some res /\ caps st' = (n, g) :: caps st /\
    (length g = 1 \/ length g = 2)%nat /\ after st = g ++ after st'.
Proof.
  destruct st as [bef aft cs].
  unfold RepRange, digit, Opt. cbn [Nat.sub Rep UpTo]. unfold Opt.
  cbn [rmatch]. unfold step_char, close_group. cbn [after before caps length].
  replace (S (length bef) - length bef)%nat with 1%nat by lia.
  replace (S (S (length bef)) - length bef)%nat with 2%nat by lia.
  cbn [firstn rev app].
  destruct aft as [|c1 aft1]; [discriminate|].
  destruct (in_class false [CDigit] c1); [|discriminate].
  destruct aft1 as [|c2 aft2].
  - intros H. exists [c1]. eexists. split; [exact H|].
    cbn [caps after]. repeat split. now left.
  - destruct (in_class false [CDigit] c2).
    + destruct (k (MState (c2 :: c1 :: bef) aft2 ((n, [c1; c2]) :: cs)))
        eqn:K.
      * intros [= <-]. exists [c1; c2]. eexists. split; [exact K|].
        cbn [caps after]. repeat split. now right.
      * intros H. exists [c1]. eexists. split; [exact H|].
        cbn [caps after]. repeat split. now left.
    + intros H. exists [c1]. eexists. split; [exact H|].
      cbn [caps after]. repeat split. now left.
Qed.

(** The year group: its two digits, and nothing else, are passed. *)
Lemma year_group_passed (st res : mstate) :
  rmatch false (Group 3 (Alt (Rep 2 digit) (Rep 4 digit))) st Some
    = Some res ->
  exists year,
    caps res = (3%nat, year) :: caps st /\ length year = 2%nat /\
    after st = year ++ after res.
Proof.
  destruct st as [bef aft cs].
  unfold digit. cbn [rmatch Rep]. unfold step_char. cbn [after before caps].
  destruct aft as [|c1 [|c2 rest]].
  - discriminate.
  - destruct (in_class false [CDigit] c1); discriminate.
  - destruct (in_class false [CDigit] c1); [|discriminate].
    destruct (in_class false [CDigit] c2); [|discriminate].
    intros [= <-]. unfold close_group. cbn [before after caps length].
    replace (S (S (length bef)) - length bef)%nat with 2%nat by lia.
    exists [c1; c2]. repeat split.
Qed.

(** What a match of the date pattern is made of. *)
Lemma date_match_parts (bef aft : str) (m : rmatch_obj) :
  match_here false date_pattern bef aft = Some m ->
  exists month day year,
    m_groups m = [(3%nat, year); (2%nat, day); (1%nat, month)] /\
    (length month = 1 \/ length month = 2)%nat /\
    (length day = 1 \/ length day = 2)%nat /\
    length year = 2%nat /\
    m_text m = month ++ s "/" ++ day ++ s "/" ++ year.
Proof.
  intros H.
  assert (G : exists st, rmatch false date_pattern (MState bef aft []) Some
                         = Some st /\ m_groups m = caps st).
  { unfold match_here in H.
    destruct (rmatch false date_pattern _ Some) as [st|]; [|discriminate].
    injection H as <-. now exists st. }
  destruct G as (st0 & E0 & G).
  apply match_here_text in H as (st & E & Ht).
  rewrite E0 in E. injection E as ->.
  unfold date_pattern in E0. cbn [seqs] in E0.
  rewrite rmatch_Seq in E0.
  apply group_one_or_two in E0 as (month & st1 & E & C1 & L1 & A1).
  rewrite rmatch_Seq in E.
  apply rmatch_Lit in E as (c1 & r1 & B1 & Q1 & E).
  rewrite rmatch_Seq in E.
  apply group_one_or_two in E as (day & st2 & E & C2 & L2 & A2).
  rewrite rmatch_Seq in E.
  apply rmatch_Lit in E as (c2 & r2 & B2 & Q2 & E).
  apply year_group_passed in E as (year & C3 & L3 & A3).
  cbn [after before caps] in *. unfold char_eq in Q1, Q2.
  apply N.eqb_eq in Q1, Q2. subst c1 c2.
  exists month, day, year. rewrite G, C3, C2, C1.
  repeat split; auto.
  apply (app_inv_tail (after st)). rewrite <- Ht, A1, B1, A2, B2, A3.
  cbn [s map String.list_ascii_of_string app].
  rewrite <- !app_assoc. cbn [app]. rewrite <- !app_assoc. reflexivity.
Qed.

Lemma zfill_two (x : str) :
  (length x = 1 \/ length x = 2)%nat -> length (zfill 2 x) = 2%nat.
Proof.
  intros [H|H]; unfold zfill; rewrite length_app, repeat_length, H;
    reflexivity.
Qed.

(** What [date_replacer] makes of a match. *)
Lemma date_rewritten (current_year : N) (query : str) (m : rmatch_obj) :
  In m (re_finditer false date_pattern query) ->
  exists month day year,
    (length month = 1 \/ length month = 2)%nat /\
    (length day = 1 \/ length day = 2)%nat /\
    length year = 2%nat /\
    m_text m = month ++ s "/" ++ day ++ s "/" ++ year /\
    date_iso current_year m =
      century current_year ++ year ++ s "-" ++ zfill 2 month ++ s "-" ++
      zfill 2 day /\
    date_fix current_year m =
      s "Normalized date format: " ++ zfill 2 month ++ s "/" ++
      zfill 2 day ++ s "/" ++ year ++ s " to " ++
      century current_year ++ year ++ s "-" ++ zfill 2 month ++ s "-" ++
      zfill 2 day.
Proof.
  intros H. apply finditer_suffix in H as (bef & a & aft & _ & H).
  apply date_match_parts in H as (month & day & year & G & L1 & L2 & L3 & T).
  exists month, day, year. repeat (split; [assumption|]).
  unfold date_iso, date_fix, date_parts, group. rewrite G.
  cbn [group_lookup Nat.eqb]. rewrite L3. cbn [Nat.eqb].
  split.
  - now rewrite <- app_assoc.
  - replace (last_n 2 (century current_year ++ year)) with year
      by (rewrite <- L3; symmetry; apply last_n_app).
    now rewrite <- !app_assoc.
Qed.

End DateShape.

(** X5: every date that [normalize_date_formats] rewrites is a month of one
    or two digits, a slash, a day of one or two digits, a slash and a year
    of exactly two digits (the four-digit alternative of the pattern is
    never taken).  It is replaced by the first two characters of the
    current year, the two year digits, the month and the day, the last two
    padded with zeros to two characters each and all joined by hyphens; the
    fix record shows the padded month and day, the two year digits and the
    replacement. *)
Theorem X5_date_rewritten (R : PyRuntime) (current_year : N) (query : str)
    (m : rmatch_obj) :
  In m (re_finditer false date_pattern query) ->
  exists month day year,
    (length month = 1 \/ length month = 2)%nat /\
    (length day = 1 \/ length day = 2)%nat /\
    length year = 2%nat /\
    length (zfill 2 month) = 2%nat /\ length (zfill 2 day) = 2%nat /\
    m_text m = month ++ s "/" ++ day ++ s "/" ++ year /\
    date_iso current_year m =
      century current_year ++ year ++ s "-" ++ zfill 2 month ++ s "-" ++
      zfill 2 day /\
    date_fix current_year m =
      s "Normalized date format: " ++ zfill 2 month ++ s "/" ++
      zfill 2 day ++ s "/" ++ year ++ s " to " ++
      century current_year ++ year ++ s "-" ++ zfill 2 month ++ s "-" ++
      zfill 2 day.
Proof.
  intros H.
  destruct (date_rewritten current_year query m H)
    as (month & day & year & L1 & L2 & L3 & T & I & F).
  exists month, day, year.
  repeat (split; [assumption|]).
  split; [now apply zfill_two|]. split; [now apply zfill_two|].
  repeat (split; [assumption|]). assumption.
Qed.

Lemma X5_date_rewritten_witness :
  let query := s "due 3/14/2025" in
  let m := MatchObj 4 (s "3/14/20")
             [(3%nat, s "20"); (2%nat, s "14"); (1%nat, s "3")] in
  In m (@re_finditer ascii_runtime false date_pattern query) /\
  exists month day year,
    (length month = 1 \/ length month = 2)%nat /\
    (length day = 1 \/ length day = 2)%nat /\
    length year = 2%nat /\
    length (zfill 2 month) = 2%nat /\ length (zfill 2 day) = 2%nat /\
    m_text m = month ++ s "/" ++ day ++ s "/" ++ year /\
    @date_iso 2026 m =
      century 2026 ++ year ++ s "-" ++ zfill 2 month ++ s "-" ++
      zfill 2 day /\
    @date_fix 2026 m =
      s "Normalized date format: " ++ zfill 2 month ++ s "/" ++
      zfill 2 day ++ s "/" ++ year ++ s " to " ++
      century 2026 ++ year ++ s "-" ++ zfill 2 month ++ s "-" ++
      zfill 2 day.
Proof.
  intros query m.
  assert (H : In m (@re_finditer ascii_runtime false date_pattern query))
    by (vm_compute; left; reflexivity).
  split; [exact H|].
  exact (@X5_date_rewritten ascii_runtime 2026 query m H).
Defined.

(** ** Email addresses *)

Section EmailMore.
Context {R : PyRuntime}.

Lemma validate_email_noop (query : str) :
  (forall email, In email (re_findall false email_pattern query) ->
                 corrected_email email = None) ->
  validate_email_format query = (query, []).
Proof.
  intros H. unfold validate_email_format. apply fold_step_noop.
  intros email He. rewrite email_step_spec. now rewrite (H _ He).
Qed.

Lemma email_no_at (query : str) :
  ~ In 64 query -> re_findall false email_pattern query = [].
Proof.
  intros H. destruct (re_findall false email_pattern query) as [|e l] eqn:E;
    [reflexivity|].
  exfalso. apply H.
  assert (He : In e (re_findall false email_pattern query))
    by (rewrite E; now left).
  pose proof (email_has_at _ _ He) as A.
  unfold re_findall in He. apply in_map_iff in He as (m & <- & Hm).
  apply finditer_part in Hm as (a & b & ->).
  apply in_or_app. right. apply in_or_app. now left.
Qed.

End EmailMore.

(** X6: every address that [validate_email_format] takes from the query
    holds an at sign, so splitting it at the at sign gives at least two
    parts and the index 1 that the function reads exists: the function
    cannot fail with an IndexError, whatever the query. *)
Theorem X6_email_split_safe (R : PyRuntime) (query email : str) :
  In email (re_findall false email_pattern query) ->
  In 64 email /\ (2 <= length (split_on 64 email))%nat.
Proof.
  intros H. split; [exact (email_has_at _ _ H)|].
  exact (email_domain_exists _ _ H).
Qed.

Lemma X6_email_split_safe_witness :
  let query := s "write to bob@gmal.com today" in
  In (s "bob@gmal.com") (@re_findall ascii_runtime false email_pattern query)
  /\ In 64 (s "bob@gmal.com") /\
  (2 <= length (split_on 64 (s "bob@gmal.com")))%nat.
Proof.
  intros query.
  assert (H : In (s "bob@gmal.com")
                 (@re_findall ascii_runtime false email_pattern query))
    by (vm_compute; left; reflexivity).
  split; [exact H|].
  exact (@X6_email_split_safe ascii_runtime query (s "bob@gmal.com") H).
Defined.

(** X7: [validate_email_format] returns the query unchanged, with no fix
    record, when the query holds no at sign, and more generally when none
    of the addresses found has a domain of the typo table. *)
Theorem X7_email_untouched (R : PyRuntime) (query : str) :
  (~ In 64 query -> validate_email_format query = (query, [])) /\
  ((forall email, In email (re_findall false email_pattern query) ->
      corrected_email email = None) ->
   validate_email_format query = (query, [])).
Proof.
  split.
  - intros H. apply validate_email_noop. rewrite (email_no_at _ H).
    intros ? [].
  - apply validate_email_noop.
Qed.

Lemma X7_email_untouched_witness :
  ~ In 64 (s "no address") /\
  @validate_email_format ascii_runtime (s "no address") =
    (s "no address", []).
Proof.
  assert (H : ~ In 64 (s "no address")).
  { intros H. cbv in H.
    repeat (destruct H as [H|H]; [discriminate H|]). exact H. }
  split; [exact H|].
  exact (proj1 (@X7_email_untouched ascii_runtime (s "no address")) H).
Defined.

(** ** URLs *)

Section Urls.
Context {R : PyRuntime}.

(** A URL is http, an optional s, a colon and two slashes, and then the
    rest. *)
Lemma url_match_text (bef aft : str) (m : rmatch_obj) :
  match_here false url_pattern bef aft = Some m ->
  exists a b, m_text m = s "http" ++ a ++ s "://" ++ b.
Proof.
  intros H. apply match_here_text in H as (st & E & Ht).
  unfold url_pattern in E. cbn [seqs] in E.
  change (lits (s "http"))
    with (Seq (Lit 104) (Seq (Lit 116) (Seq (Lit 116) (Seq (Lit 112) Eps))))
    in E.
  change (lits (s "://"))
    with (Seq (Lit 58) (Seq (Lit 47) (Seq (Lit 47) Eps))) in E.
  rewrite !rmatch_Seq in E.
  apply rmatch_Lit in E as (c1 & r1 & A1 & C1 & E).
  rewrite !rmatch_Seq in E.
  apply rmatch_Lit in E as (c2 & r2 & A2 & C2 & E).
  rewrite !rmatch_Seq in E.
  apply rmatch_Lit in E as (c3 & r3 & A3 & C3 & E).
  rewrite !rmatch_Seq in E.
  apply rmatch_Lit in E as (c4 & r4 & A4 & C4 & E).
  apply rmatch_forward in E as (st5 & p5 & E & A5).
  rewrite rmatch_Seq in E.
  apply rmatch_forward in E as (st6 & p6 & E & A6).
  rewrite !rmatch_Seq in E.
  apply rmatch_Lit in E as (c7 & r7 & A7 & C7 & E).
  rewrite !rmatch_Seq in E.
  apply rmatch_Lit in E as (c8 & r8 & A8 & C8 & E).
  rewrite !rmatch_Seq in E.
  apply rmatch_Lit in E as (c9 & r9 & A9 & C9 & E).
  apply rmatch_forward in E as (st10 & p10 & E & A10).
  apply rmatch_forward in E as (st11 & p11 & E & A11).
  injection E as ->.
  cbn [after] in *. unfold char_eq in *.
  apply N.eqb_eq in C1, C2, C3, C4, C7, C8, C9. subst c1 c2 c3 c4 c7 c8 c9.
  exists (p5 ++ p6), (p10 ++ p11).
  apply (app_inv_tail (after st)). rewrite <- Ht.
  rewrite A1, A2, A3, A4, A5, A6, A7, A8, A9, A10, A11.
  cbn [s map String.list_ascii_of_string app].
  rewrite <- !app_assoc. cbn [app]. now rewrite <- !app_assoc.
Qed.

Lemma url_found_text (query url : str) :
  In url (re_findall false url_pattern query) ->
  (exists a b, url = s "http" ++ a ++ s "://" ++ b) /\
  exists x y, query = x ++ url ++ y.
Proof.
  unfold re_findall. intros H. apply in_map_iff in H as (m & <- & Hm).
  split.
  - apply finditer_suffix in Hm as (bef & a & aft & _ & Hm).
    now apply url_match_text in Hm.
  - now apply finditer_part in Hm.
Qed.

Lemma url_no_scheme (query : str) :
  contains (s "://") query = false -> re_findall false url_pattern query = [].
Proof.
  intros H. destruct (re_findall false url_pattern query) as [|u l] eqn:E;
    [reflexivity|].
  assert (Hu : In u (re_findall false url_pattern query))
    by (rewrite E; now left).
  apply url_found_text in Hu as [(a & b & ->) (x & y & Q)].
  assert (C : contains (s "://") query = true).
  { apply contains_iff. exists (x ++ s "http" ++ a), (b ++ y).
    rewrite Q. now rewrite <- !app_assoc. }
  congruence.
Qed.

Lemma url_fold_records (urls : list str) (clean : str)
    (fixes : list fix_record) :
  snd (fold_left
         (fun (acc : str * list fix_record) (url : str) =>
            let (clean_query, fixes) := acc in
            match first_suspicious url with
            | Some pattern =>
                (str_replace url filtered_url clean_query,
                 fixes ++ [url_fix pattern])
            | None => acc
            end) urls (clean, fixes)) =
  fixes ++ flat_map url_records_of urls.
Proof.
  revert clean fixes; induction urls as [|url urls IH]; intros clean fixes;
    cbn [fold_left flat_map].
  - now rewrite app_nil_r.
  - unfold url_records_of at 1.
    destruct (first_suspicious url) as [pattern|]; rewrite IH.
    + now rewrite <- app_assoc.
    + reflexivity.
Qed.

Lemma validate_urls_noop (query : str) :
  (forall url, In url (re_findall false url_pattern query) ->
               first_suspicious url = None) ->
  validate_urls query = (query, []).
Proof.
  intros H. unfold validate_urls. apply fold_step_noop.
  intros url Hu. now rewrite (H _ Hu).
Qed.

End Urls.

(** X8: the fix list of [validate_urls] holds, for each URL found in the
    query and in their order, one record naming the first suspicious
    keyword that the URL contains (searched with IGNORECASE), and nothing
    for a URL that contains none.  Every URL found is a part of the query
    that begins with http and holds a colon and two slashes.  The query
    comes back unchanged, with no record, when no URL found contains a
    suspicious keyword, and in particular when the query does not contain
    a colon followed by two slashes. *)
Theorem X8_validate_urls (R : PyRuntime) (query : str) :
  snd (validate_urls query) =
    flat_map url_records_of (re_findall false url_pattern query) /\
  (forall url, In url (re_findall false url_pattern query) ->
     (exists a b, url = s "http" ++ a ++ s "://" ++ b) /\
     exists x y, query = x ++ url ++ y) /\
  ((forall url, In url (re_findall false url_pattern query) ->
      first_suspicious url = None) ->
   validate_urls query = (query, [])) /\
  (contains (s "://") query = false -> validate_urls query = (query, [])).
Proof.
  split; [|split; [|split]].
  - apply (url_fold_records _ query []).
  - apply url_found_text.
  - apply validate_urls_noop.
  - intros H. apply validate_urls_noop. rewrite (url_no_scheme _ H).
    intros ? [].
Qed.

Lemma X8_validate_urls_witness :
  let query := s "get http://Malware.example.com and https://ok.org" in
  snd (@validate_urls ascii_runtime query) =
    [s "Removed suspicious URL containing 'malware'"] /\
  contains (s "://") (s "see the docs") = false /\
  @validate_urls ascii_runtime (s "see the docs") = (s "see the docs", []).
Proof.
  intros query.
  assert (H : contains (s "://") (s "see the docs") = false)
    by (vm_compute; reflexivity).
  split; [|split; [exact H|]].
  - rewrite (proj1 (@X8_validate_urls ascii_runtime query)).
    vm_compute. reflexivity.
  - exact (proj2 (proj2 (proj2
             (@X8_validate_urls ascii_runtime (s "see the docs")))) H).
Defined.

(** ** Currency amounts *)

Section CurrencyCommas.
Context {R : PyRuntime}.

Lemma filter_filter (p : N -> bool) (x : str) :
  filter p (filter p x) = filter p x.
Proof.
  induction x as [|c x IH]; [reflexivity|]. cbn [filter].
  destruct (p c) eqn:E; cbn [filter]; [rewrite E; now f_equal | exact IH].
Qed.

Lemma currency_plain_commas (m : rmatch_obj) :
  filter not_comma (currency_plain m) = filter not_comma (m_text m).
Proof.
  rewrite currency_plain_filter, filter_app, filter_filter, <- filter_app.
  now rewrite firstn_skipn.
Qed.

Lemma currency_plain_length (m : rmatch_obj) :
  (length (currency_plain m) <= length (m_text m))%nat.
Proof.
  rewrite currency_plain_filter, length_app.
  pose proof (filter_length_le not_comma (skipn 1 (m_text m))) as F.
  rewrite <- (firstn_skipn 1 (m_text m)) at 3. rewrite length_app. lia.
Qed.

Lemma currency_no_comma (query : str) :
  ~ In 44 query -> fst (normalize_numeric_values query) = query.
Proof.
  intros H. unfold normalize_numeric_values, re_sub_fn. cbn [fst].
  rewrite sub_from_same; [reflexivity|].
  intros m Hm. apply currency_plain_same. intros C. apply H.
  apply finditer_part in Hm as (a & b & ->).
  apply in_or_app. right. apply in_or_app. now left.
Qed.

End CurrencyCommas.

(** X9: [normalize_numeric_values] does nothing to the text but delete
    commas: the string it returns and the query are the same once the
    commas are taken out of both, the returned string is never longer than
    the query, and a query without a comma comes back as it is. *)
Theorem X9_currency_only_commas (R : PyRuntime) (query : str) :
  let out := fst (normalize_numeric_values query) in
  filter not_comma out = filter not_comma query /\
  (length out <= length query)%nat /\
  (~ In 44 query -> out = query).
Proof.
  intros out. unfold out. split; [|split].
  - unfold normalize_numeric_values, re_sub_fn. cbn [fst].
    apply (@sub_from_filter R false currency_pattern not_comma
             currency_plain query [] 0 currency_plain_commas).
  - unfold normalize_numeric_values, re_sub_fn. cbn [fst].
    apply (@sub_from_length R false currency_pattern
             currency_plain query [] 0 currency_plain_length).
  - apply currency_no_comma.
Qed.

Lemma X9_currency_only_commas_witness :
  ~ In 44 (s "pay $100 now") /\
  fst (@normalize_numeric_values ascii_runtime (s "pay $100 now")) =
    s "pay $100 now".
Proof.
  assert (H : ~ In 44 (s "pay $100 now")).
  { intros H. cbv in H.
    repeat (destruct H as [H|H]; [discriminate H|]). exact H. }
  split; [exact H|].
  exact (proj2 (proj2 (@X9_currency_only_commas ascii_runtime
                         (s "pay $100 now"))) H).
Defined.

(** ** Text without digits *)

Section NoDigit.
Context {R : PyRuntime}.

Lemma date_no_digit (current_year : N) (query : str) :
  (forall c, In c query -> is_digit c = false) ->
  normalize_date_formats current_year query = (query, []).
Proof.
  intros H. unfold normalize_date_formats.
  pose proof (@needs_char R false date_pattern is_digit query
                (@date_needs_digit R) H) as E.
  destruct (no_match _ _ _ E) as [_ S]. now rewrite S, E.
Qed.

Lemma currency_no_digit (query : str) :
  (forall c, In c query -> is_digit c = false) ->
  normalize_numeric_values query = (query, []).
Proof.
  intros H. unfold normalize_numeric_values.
  pose proof (@needs_char R false currency_pattern is_digit query
                (@currency_needs_digit R) H) as E.
  destruct (no_match _ _ _ E) as [_ S]. now rewrite S, E.
Qed.

Lemma pii_no_digit (query : str) :
  (forall c, In c query -> is_digit c = false) ->
  detect_pii query = (query, []).
Proof.
  intros H. unfold detect_pii.
  pose proof (@needs_char R false cc_pattern is_digit query
                (@cc_needs_digit R) H) as E1.
  pose proof (@needs_char R false ssn_pattern is_digit query
                (@ssn_needs_digit R) H) as E2.
  destruct (no_match _ _ _ E1) as [T1 _].
  destruct (no_match _ _ _ E2) as [T2 _].
  now rewrite T1, T2.
Qed.

End NoDigit.

(** X10: a query without any decimal digit (as the pattern class for
    digits sees them) is returned unchanged and with no fix record by
    [normalize_date_formats], by [normalize_numeric_values] and by
    [detect_pii]: none of the three touches text that holds no number. *)
Theorem X10_no_digit_untouched (R : PyRuntime) (current_year : N)
    (query : str) :
  (forall c, In c query -> is_digit c = false) ->
  normalize_date_formats current_year query = (query, []) /\
  normalize_numeric_values query = (query, []) /\
  detect_pii query = (query, []).
Proof.
  intros H. split; [|split].
  - now apply date_no_digit.
  - now apply currency_no_digit.
  - now apply pii_no_digit.
Qed.

Lemma X10_no_digit_untouched_witness :
  let query := s "my card, my $ and my date/of/birth" in
  @normalize_date_formats ascii_runtime 2026 query = (query, []) /\
  @normalize_numeric_values ascii_runtime query = (query, []) /\
  @detect_pii ascii_runtime query = (query, []).
Proof.
  intros query.
  apply (@X10_no_digit_untouched ascii_runtime 2026 query).
  apply none_of. vm_compute. reflexivity.
Defined.

(** ** The form of the text behind the white-space step *)

Section Normal.
Context {R : PyRuntime}.

Lemma whitespace_output (query : str) :
  fst (remove_excessive_whitespace query) = strip (squeeze false query).
Proof.
  unfold remove_excessive_whitespace. rewrite re_sub_spaces.
  now destruct (negb _).
Qed.

Lemma not_space_squeeze (in_run : bool) (x : str) :
  filter not_space (squeeze in_run x) = filter not_space x.
Proof.
  revert in_run; induction x as [|c x IH]; intros in_run; [reflexivity|].
  cbn [squeeze filter]. unfold not_space at 2.
  destruct (is_space c) eqn:E; cbn [negb].
  - destruct in_run; [apply IH|]. cbn [filter]. unfold not_space at 1.
    change (is_space 32) with true. cbn [negb]. apply IH.
  - cbn [filter]. unfold not_space at 1. rewrite E. cbn [negb].
    now rewrite IH.
Qed.

Lemma not_space_lstrip (x : str) :
  filter not_space (lstrip x) = filter not_space x.
Proof.
  induction x as [|c x IH]; [reflexivity|]. cbn [lstrip filter].
  unfold not_space at 2.
  destruct (is_space c) eqn:E; cbn [negb]; [exact IH|].
  cbn [filter]. unfold not_space at 1. now rewrite E.
Qed.

Lemma not_space_rstrip (x : str) :
  filter not_space (rstrip x) = filter not_space x.
Proof.
  induction x as [|c x IH]; [reflexivity|]. cbn [rstrip filter].
  rewrite <- IH.
  destruct (rstrip x) as [|d r0]; [|reflexivity].
  unfold not_space.
  destruct (is_space c) eqn:E; cbn [negb filter]; [reflexivity|].
  now rewrite E.
Qed.

Lemma tidy_only_space (x : str) (in_run : bool) (c : N) :
  tidy in_run x = true -> In c x -> is_space c = true -> c = 32.
Proof.
  revert in_run; induction x as [|d x IH]; intros in_run; [intros _ []|].
  cbn [tidy]. intros T [->|H] Hc.
  - rewrite Hc in T. apply andb_true_iff in T as [T _].
    apply andb_true_iff in T as [T _]. now apply N.eqb_eq in T.
  - destruct (is_space d).
    + apply andb_true_iff in T as [_ T]. exact (IH _ T H Hc).
    + exact (IH _ T H Hc).
Qed.

Lemma tidy_no_run (x a b : str) (in_run : bool) (c d : N) :
  tidy in_run x = true -> x = a ++ c :: d :: b ->
  is_space c = true -> is_space d = false.
Proof.
  revert in_run x; induction a as [|e a IH]; intros in_run x T -> Hc.
  - cbn [app tidy] in T. rewrite Hc in T.
    apply andb_true_iff in T as [_ T].
    destruct (is_space d); [|reflexivity].
    apply andb_true_iff in T as [T _]. apply andb_true_iff in T as [_ T].
    discriminate.
  - cbn [app tidy] in T. destruct (is_space e).
    + apply andb_true_iff in T as [_ T]. exact (IH _ _ T eq_refl Hc).
    + exact (IH _ _ T eq_refl Hc).
Qed.

Lemma tidy_firstn (n : nat) (x : str) (in_run : bool) :
  tidy in_run x = true -> tidy in_run (firstn n x) = true.
Proof.
  revert x in_run; induction n as [|n IH]; intros x in_run; [reflexivity|].
  destruct x as [|c x]; [reflexivity|]. cbn [firstn tidy].
  destruct (is_space c).
  - intros T. apply andb_true_iff in T as [T1 T2]. rewrite T1. cbn [andb].
    now apply IH.
  - apply IH.
Qed.

Lemma tidy_dots (x : str) (in_run : bool) :
  tidy in_run x = true -> tidy in_run (x ++ s "...") = true.
Proof.
  revert in_run; induction x as [|c x IH]; intros in_run; [reflexivity|].
  cbn [app tidy]. destruct (is_space c).
  - intros T. apply andb_true_iff in T as [T1 T2]. rewrite T1. cbn [andb].
    now apply IH.
  - apply IH.
Qed.

Lemma rstrip_tail (x y : str) :
  rstrip y = y -> y <> [] -> rstrip (x ++ y) = x ++ y.
Proof.
  intros Hy Hn. induction x as [|c x IH]; [exact Hy|].
  cbn [app rstrip]. rewrite IH.
  destruct (x ++ y) eqn:E; [|reflexivity].
  apply app_eq_nil in E as [_ E]. congruence.
Qed.

Lemma whitespace_normal (query : str) :
  normal_form (fst (remove_excessive_whitespace query)).
Proof.
  rewrite whitespace_output. unfold normal_form, strip. split; [|split].
  - apply tidy_rstrip, (tidy_lstrip _ false false), tidy_squeeze.
  - apply lstrip_rstrip, lstrip_idem.
  - apply rstrip_idem.
Qed.

Lemma normal_unchanged (query : str) :
  normal_form query -> remove_excessive_whitespace query = (query, []).
Proof.
  intros (T & L & Rs). unfold remove_excessive_whitespace.
  rewrite re_sub_spaces, (squeeze_tidy _ _ T). unfold strip.
  now rewrite L, Rs, str_eqb_refl.
Qed.

Lemma slice_to_prefix (x : str) (n : Z) : exists k, slice_to x n = firstn k x.
Proof. unfold slice_to. destruct (n <? 0)%Z; eexists; reflexivity. Qed.

(** Cutting a text in that form and adding the dots leaves it in that
    form. *)
Lemma limit_normal (query : str) (max_length : Z) :
  normal_form query ->
  normal_form (fst (limit_query_length query max_length)).
Proof.
  intros (T & L & Rs). unfold limit_query_length.
  destruct (len query >? max_length)%Z; cbn [fst]; [|now repeat split].
  destruct (slice_to_prefix query max_length) as [k ->].
  split; [|split].
  - apply tidy_dots, tidy_firstn, T.
  - apply lstrip_fixed. apply lstrip_fixed in L.
    destruct query as [|c x]; [now destruct k|].
    destruct k; [reflexivity | exact L].
  - apply rstrip_tail; [reflexivity | discriminate].
Qed.

End Normal.

(** X11: the string that [remove_excessive_whitespace] returns has no
    white space at either end (stripping it again changes nothing), holds
    no white-space character other than the space, and never two of them
    in a row; its other characters are those of the query, in the same
    order; and the fix list is empty exactly when the returned string is
    the query. *)
Theorem X11_whitespace_output (R : PyRuntime) (query : str) :
  let out := fst (remove_excessive_whitespace query) in
  lstrip out = out /\ rstrip out = out /\
  (forall c, In c out -> is_space c = true -> c = 32) /\
  (forall a b c d, out = a ++ c :: d :: b ->
                   is_space c = true -> is_space d = false) /\
  filter not_space out = filter not_space query /\
  (snd (remove_excessive_whitespace query) = [] <-> out = query).
Proof.
  intros out. destruct (whitespace_normal query) as (T & L & Rs).
  fold out in T, L, Rs.
  split; [exact L|]. split; [exact Rs|]. split; [|split; [|split; [|split]]].
  - intros c. now apply tidy_only_space with (in_run := false).
  - intros a b c d E. now apply (@tidy_no_run R out a b false c d T).
  - unfold out. rewrite whitespace_output. unfold strip.
    now rewrite not_space_rstrip, not_space_lstrip, not_space_squeeze.
  - unfold out, remove_excessive_whitespace.
    destruct (str_eqb _ query) eqn:E; cbn [negb fst snd]; [|discriminate].
    intros _. now apply str_eqb_eq.
  - unfold out, remove_excessive_whitespace.
    destruct (str_eqb _ query) eqn:E; cbn [negb fst snd]; [reflexivity|].
    intros H. rewrite H, str_eqb_refl in E. discriminate.
Qed.

Lemma X11_whitespace_output_witness :
  let query := [32; 9] ++ s "a" ++ [10; 32; 32] ++ s "b " in
  let out := fst (@remove_excessive_whitespace ascii_runtime query) in
  @lstrip ascii_runtime out = out /\
  filter (@not_space ascii_runtime) out = s "ab" /\
  (@is_space ascii_runtime 32 = true -> @is_space ascii_runtime 98 = false).
Proof.
  intros query out.
  destruct (@X11_whitespace_output ascii_runtime query)
    as (L & _ & _ & D & F & _).
  fold out in L, D, F. split; [exact L|]. split.
  - rewrite F. vm_compute. reflexivity.
  - apply (D (s "a") [] 32 98). vm_compute. reflexivity.
Defined.

(** ** The pipeline as a whole *)

Section Pipeline.
Context {R : PyRuntime}.

Lemma run_first (hs ht : list (str -> str * list fix_record)) (q : str) :
  fst (fold_left run_heuristic (hs ++ ht) (q, [])) =
  fst (fold_left run_heuristic ht
         (fst (fold_left run_heuristic hs (q, [])), [])).
Proof.
  rewrite fold_left_app.
  destruct (fold_left run_heuristic hs (q, [])) as [q1 fx1]. cbn [fst].
  now rewrite run_fixes.
Qed.

(** The string the pipeline returns is what the last two steps make of the
    string the first eight return. *)
Lemma pipeline_last (current_year : N) (query : str) :
  let q8 := fst (fold_left run_heuristic (early_heuristics current_year)
                   (query, [])) in
  fst (apply_heuristics current_year query) =
  fst (limit_query_length (fst (remove_excessive_whitespace q8))
         default_max_length).
Proof.
  intros q8. unfold apply_heuristics, validate_and_fix_query.
  change (heuristics current_year)
    with (early_heuristics current_year ++
          [remove_excessive_whitespace;
           fun q => limit_query_length q default_max_length]).
  rewrite run_first. fold q8. cbn [fold_left].
  now rewrite !run_heuristic_eq.
Qed.

Lemma pipeline_normal (current_year : N) (query : str) :
  normal_form (fst (apply_heuristics current_year query)).
Proof. rewrite pipeline_last. apply limit_normal, whitespace_normal. Qed.

Lemma run_noop (hs : list (str -> str * list fix_record)) (q : str) :
  (forall h, In h hs -> h q = (q, [])) ->
  fold_left run_heuristic hs (q, []) = (q, []).
Proof.
  intros H. apply fold_step_noop. intros h Hh.
  rewrite run_heuristic_eq. cbn [fst snd]. now rewrite (H h Hh).
Qed.

End Pipeline.

(** X12: the string that [apply_heuristics] returns has at most 503
    characters, whatever the query: the length cap with its default of 500
    is the last step, and it adds three dots to what it cuts. *)
Theorem X12_pipeline_length (R : PyRuntime) (current_year : N)
    (query : str) :
  (len (fst (apply_heuristics current_year query)) <= 503)%Z.
Proof.
  rewrite pipeline_last.
  apply limit_query_length_bound. unfold default_max_length. lia.
Qed.

(** X13: the string that [apply_heuristics] returns is white-space
    normalized, whatever the query and also when the length cap has cut
    it: it has no white space at either end, no white-space character
    other than the space, and never two of them in a row. *)
Theorem X13_pipeline_whitespace (R : PyRuntime) (current_year : N)
    (query : str) :
  let out := fst (apply_heuristics current_year query) in
  lstrip out = out /\ rstrip out = out /\
  (forall c, In c out -> is_space c = true -> c = 32) /\
  (forall a b c d, out = a ++ c :: d :: b ->
                   is_space c = true -> is_space d = false).
Proof.
  intros out. destruct (pipeline_normal current_year query) as (T & L & Rs).
  fold out in T, L, Rs. clearbody out.
  split; [exact L|]. split; [exact Rs|]. split.
  - intros c. now apply tidy_only_space with (in_run := false).
  - intros a b c d E. now apply (@tidy_no_run R out a b false c d T).
Qed.

Lemma X13_pipeline_whitespace_witness :
  let query := [9] ++ s "find  my" ++ [10] ++ s "calander " in
  let out := fst (@apply_heuristics ascii_runtime 2026 query) in
  out = s "find my calendar" /\
  @lstrip ascii_runtime out = out /\ @rstrip ascii_runtime out = out /\
  (@is_space ascii_runtime 32 = true -> @is_space ascii_runtime 109 = false).
Proof.
  intros query out.
  destruct (@X13_pipeline_whitespace ascii_runtime 2026 query)
    as (L & Rs & _ & D).
  fold out in L, Rs, D.
  assert (E : out = s "find my calendar") by (vm_compute; reflexivity).
  split; [exact E|]. split; [exact L|]. split; [exact Rs|].
  apply (D (s "find") (s "y calendar") 32 109). exact E.
Defined.

(** X14: [apply_heuristics] returns a query unchanged, with an empty fix
    list, when the query gives none of the ten steps anything to do: no
    typo of the table and no denylisted word occurs in it as a whole word,
    none of the unsafe patterns is found in it, it holds no digit, no at
    sign and no colon, it is white-space normalized (no white-space
    character other than the space, never two in a row, none at either
    end) and it has at most 500 characters. *)
Theorem X14_clean_query_unchanged (R : PyRuntime) (current_year : N)
    (query : str) :
  (forall typo correction, In (typo, correction) common_typos ->
     re_test true (whole_word typo) query = false) ->
  (forall word, In word banned_words ->
     re_test true (whole_word word) query = false) ->
  (forall source pattern, In (source, pattern) unsafe_patterns ->
     re_test true pattern query = false) ->
  (forall c, In c query -> is_digit c = false) ->
  ~ In 64 query -> ~ In 58 query ->
  tidy false query = true -> lstrip query = query -> rstrip query = query ->
  (len query <= 500)%Z ->
  apply_heuristics current_year query = (query, []).
Proof.
  intros Ht Hb Hu Hd Hat Hcolon T L Rs Hlen.
  unfold apply_heuristics, validate_and_fix_query. apply run_noop.
  intros h Hh. unfold heuristics in Hh.
  repeat (destruct Hh as [<-|Hh]); [..|destruct Hh].
  - apply fold_step_noop. intros [typo correction] He.
    unfold fix_typos_step. now rewrite (Ht _ _ He).
  - apply fold_step_noop. intros word He.
    unfold remove_banned_step. now rewrite (Hb _ He).
  - now apply date_no_digit.
  - apply validate_email_noop. rewrite (email_no_at _ Hat). intros ? [].
  - unfold detect_unsafe_commands. f_equal.
    rewrite (fold_left_collect (fun p => re_test true (snd p) query)
                               (fun p => unsafe_warning (fst p))).
    rewrite filter_none; [reflexivity|].
    intros [source pattern] Hp. exact (Hu _ _ Hp).
  - apply validate_urls_noop. rewrite url_no_scheme; [intros ? []|].
    destruct (contains (s "://") query) eqn:C; [|reflexivity].
    exfalso. apply Hcolon.
    apply (@contains_in (s "://") query 58 C). now left.
  - now apply currency_no_digit.
  - now apply pii_no_digit.
  - apply normal_unchanged. now repeat split.
  - now apply limit_query_length_noop.
Qed.

Lemma X14_clean_query_unchanged_witness :
  let query := s "please summarize my calendar for today" in
  @apply_heuristics ascii_runtime 2026 query = (query, []).
Proof.
  intros query.
  assert (Ft : forallb (fun e => negb (@re_test ascii_runtime true
                                         (whole_word (fst e)) query))
                 common_typos = true) by (vm_compute; reflexivity).
  assert (Fb : forallb (fun w => negb (@re_test ascii_runtime true
                                         (whole_word w) query))
                 banned_words = true) by (vm_compute; reflexivity).
  assert (Fu : forallb (fun p => negb (@re_test ascii_runtime true
                                         (snd p) query))
                 unsafe_patterns = true) by (vm_compute; reflexivity).
  rewrite forallb_forall in Ft, Fb, Fu.
  apply (@X14_clean_query_unchanged ascii_runtime 2026 query).
  - intros typo correction H. apply negb_true_iff. exact (Ft _ H).
  - intros word H. apply negb_true_iff. exact (Fb _ H).
  - intros source pattern H. apply negb_true_iff. exact (Fu _ H).
  - apply none_of. vm_compute. reflexivity.
  - intros H. cbv in H.
    repeat (destruct H as [H|H]; [discriminate H|]). exact H.
  - intros H. cbv in H.
    repeat (destruct H as [H|H]; [discriminate H|]). exact H.
  - vm_compute. reflexivity.
  - vm_compute. reflexivity.
  - vm_compute. reflexivity.
  - vm_compute. discriminate.
Defined.

(** ** Tool output, the other cases *)

(** X15: [validate_tool_output] looks at the output only when the tool
    name contains json (in lower case); for every other name it returns
    (true, the output as it is, no message), whatever the output.  It
    raises an exception exactly when the name contains json and
    [json.loads] raises one that is not a [JSONDecodeError], and then it is
    that exception.  Whenever it returns, the result is invalid exactly
    when the name contains json and [json.loads] raises [JSONDecodeError];
    it is invalid exactly when there is no corrected output, and exactly
    when the message list is the one message naming the tool; a valid
    result has no message. *)
Theorem X15_validate_tool_output_cases (R : PyRuntime) (L : PyLimits)
    (tool_name output : str) :
  let result := validate_tool_output tool_name output in
  (contains (s "json") tool_name = false ->
   result = Returns (true, Some output, [])) /\
  (forall e, result = Raises e <->
     contains (s "json") tool_name = true /\
     json_loads output = OtherError e) /\
  (forall is_valid fixed_output messages,
     result = Returns (is_valid, fixed_output, messages) ->
     (is_valid = false <->
      contains (s "json") tool_name = true /\
      json_loads output = JSONDecodeError) /\
     (is_valid = false <-> fixed_output = None) /\
     (is_valid = false <-> messages = [invalid_json_message tool_name]) /\
     (is_valid = true <-> messages = [])).
Proof.
  intros result. unfold result, validate_tool_output.
  rewrite json_name_test.
  destruct (contains (s "json") tool_name).
  - destruct (json_loads output) as [v| |e0] eqn:E.
    + rewrite (dumps_after_loads _ E).
      split; [discriminate|]. split.
      * intros e. split; [discriminate | intros [_ H]; discriminate].
      * intros is_valid fixed_output messages [= <- <- <-].
        repeat split; try discriminate; try reflexivity;
          intros [_ H]; discriminate.
    + split; [discriminate|]. split.
      * intros e. split; [discriminate | intros [_ H]; discriminate].
      * intros is_valid fixed_output messages [= <- <- <-].
        repeat split; try discriminate; reflexivity.
    + split; [discriminate|]. split.
      * intros e. split; [intros [= ->]; now split | now intros [_ [= ->]]].
      * discriminate.
  - split; [reflexivity|]. split.
    + intros e. split; [discriminate | intros [H _]; discriminate].
    + intros is_valid fixed_output messages [= <- <- <-].
      repeat split; try discriminate; try reflexivity;
        intros [H _]; discriminate.
Qed.

Lemma X15_validate_tool_output_cases_witness :
  contains (s "json") (s "JSON_calculator") = false /\
  @validate_tool_output ascii_runtime cpython_limits (s "JSON_calculator")
     (s "{invalid") = Returns (true, Some (s "{invalid"), []) /\
  @validate_tool_output ascii_runtime cpython_limits (s "json_calculator")
     (repeat 91 3000%nat) = Raises RecursionError.
Proof.
  assert (H : contains (s "json") (s "JSON_calculator") = false)
    by (vm_compute; reflexivity).
  split; [exact H|]. split.
  - exact (proj1 (@X15_validate_tool_output_cases ascii_runtime cpython_limits
                    (s "JSON_calculator") (s "{invalid")) H).
  - apply (proj1 (proj2 (@X15_validate_tool_output_cases ascii_runtime
                           cpython_limits (s "json_calculator")
                           (repeat 91 3000%nat)))).
    split; vm_compute; reflexivity.
Defined.

Lemma skip_ws_blank (x : str) :
  forallb is_json_ws x = true -> skip_ws x = [] /\ starts_with [bom] x = false.
Proof.
  destruct x as [|c x]; [now split|]. cbn [forallb]. intros H.
  apply andb_true_iff in H as [Hc H]. split.
  - cbn [skip_ws]. rewrite Hc. clear Hc.
    induction x as [|d x IH]; [reflexivity|]. cbn [forallb skip_ws] in *.
    apply andb_true_iff in H as [Hd H]. rewrite Hd. now apply IH.
  - cbn [starts_with]. unfold is_json_ws, bom in *.
    destruct (N.eqb_spec 65279 c) as [<-|]; [discriminate|reflexivity].
Qed.

(** X16: for a tool whose name contains json, an output that is empty or
    made of JSON white space only (space, tab, line feed, carriage return)
    is not valid JSON: the result is (false, None, the one message naming
    the tool). *)
Theorem X16_blank_output_invalid (R : PyRuntime) (L : PyLimits)
    (tool_name output : str) :
  contains (s "json") tool_name = true ->
  forallb is_json_ws output = true ->
  validate_tool_output tool_name output =
    Returns (false, None, [s "Invalid JSON output from " ++ tool_name]).
Proof.
  intros Hn Hb. unfold validate_tool_output. rewrite json_name_test, Hn.
  destruct (skip_ws_blank _ Hb) as [W B].
  unfold json_loads. now rewrite B, W.
Qed.

Lemma X16_blank_output_invalid_witness :
  @validate_tool_output ascii_runtime cpython_limits (s "get_json")
     [32; 10; 9] =
    Returns (false, None, [s "Invalid JSON output from get_json"]) /\
  @validate_tool_output ascii_runtime cpython_limits (s "get_json") [] =
    Returns (false, None, [s "Invalid JSON output from get_json"]).
Proof.
  split.
  - apply (@X16_blank_output_invalid ascii_runtime cpython_limits (s "get_json")
             [32; 10; 9]); vm_compute; reflexivity.
  - apply (@X16_blank_output_invalid ascii_runtime cpython_limits (s "get_json")
             []); vm_compute; reflexivity.
Defined.

(** ** Outputs within the limits *)

Lemma rest_of_refl (x : str) : rest_of x x.
Proof. now exists []. Qed.

Lemma rest_of_trans (a b c : str) : rest_of a b -> rest_of b c -> rest_of a c.
Proof.
  intros [p ->] [q ->]. exists (q ++ p). now rewrite app_assoc.
Qed.

Lemma rest_of_cons (c : N) (r x : str) : rest_of r x -> rest_of r (c :: x).
Proof. intros [p ->]. now exists (c :: p). Qed.

Lemma rest_of_app (p x : str) : rest_of x (p ++ x).
Proof. now exists p. Qed.

Lemma next_is_eq (c : N) (x r : str) : next_is c x = Some r -> x = c :: r.
Proof.
  destruct x as [|d x]; cbn [next_is]; [discriminate|].
  destruct (N.eqb_spec d c) as [->|]; [|discriminate]. now intros [= ->].
Qed.

Lemma next_is_rest (c : N) (x r : str) : next_is c x = Some r -> rest_of r x.
Proof. intros H. apply next_is_eq in H as ->. now exists [c]. Qed.

Lemma skip_ws_rest (x : str) : rest_of (skip_ws x) x.
Proof.
  induction x as [|c x IH]; cbn [skip_ws]; [apply rest_of_refl|].
  destruct (is_json_ws c); [now apply rest_of_cons | apply rest_of_refl].
Qed.

Lemma after_prefix_rest (p x r : str) :
  after_prefix p x = Some r -> rest_of r x.
Proof.
  unfold after_prefix. destruct (starts_with p x) eqn:E; [|discriminate].
  intros [= <-]. apply starts_with_iff in E as [t ->].
  rewrite skipn_app, skipn_all, Nat.sub_diag. cbn [skipn app].
  apply rest_of_app.
Qed.

Lemma hex4_rest (x r : str) (u : N) : hex4 x = Some (u, r) -> rest_of r x.
Proof.
  unfold hex4. destruct x as [|a [|b [|c [|d x]]]]; try discriminate.
  destruct (hex_value a), (hex_value b), (hex_value c), (hex_value d);
    try discriminate.
  intros [= _ ->]. now exists [a; b; c; d].
Qed.

Lemma scan_u_escape_rest (x r : str) (ch : N) :
  scan_u_escape x = Some (ch, r) -> rest_of r x.
Proof.
  unfold scan_u_escape.
  destruct (hex4 x) as [[u rest]|] eqn:H1; [|discriminate].
  apply hex4_rest in H1.
  destruct (is_high_surrogate u); [|now intros [= _ <-]].
  destruct (after_prefix [92; 117] rest) as [r2|] eqn:H2;
    [|now intros [= _ <-]].
  apply after_prefix_rest in H2.
  destruct (hex4 r2) as [[u2 r3]|] eqn:H3; [|discriminate].
  apply hex4_rest in H3.
  destruct (is_low_surrogate u2); intros [= _ <-]; [|exact H1].
  exact (rest_of_trans H3 (rest_of_trans H2 H1)).
Qed.

Lemma scan_char_rest (x r : str) (o : option N) :
  scan_char x = Some (o, r) -> rest_of r x.
Proof.
  unfold scan_char. destruct x as [|c rest]; [discriminate|].
  destruct (c =? 34); [intros [= _ <-]; now exists [c]|].
  destruct (c =? 92).
  - destruct rest as [|e rest']; [discriminate|].
    destruct (e =? 117).
    + destruct (scan_u_escape rest') as [[ch r0]|] eqn:E; [|discriminate].
      apply scan_u_escape_rest in E. intros [= _ <-].
      now apply rest_of_cons, rest_of_cons.
    + destruct (simple_escape e); [|discriminate].
      intros [= _ <-]. now exists [c; e].
  - destruct (c <? 32); [discriminate|]. intros [= _ <-]. now exists [c].
Qed.

Lemma scanstring_rest (fuel : nat) (x v r : str) :
  scanstring fuel x = Some (v, r) -> rest_of r x.
Proof.
  revert x v r; induction fuel as [|fuel IH]; intros x v r; [discriminate|].
  cbn [scanstring].
  destruct (scan_char x) as [[[ch|] r0]|] eqn:E; [| |discriminate].
  - apply scan_char_rest in E.
    destruct (scanstring fuel r0) as [[v' r']|] eqn:E'; [|discriminate].
    apply IH in E'. intros [= _ <-]. exact (rest_of_trans E' E).
  - apply scan_char_rest in E. now intros [= _ <-].
Qed.

Lemma take_digits_eq (x d r : str) : take_digits x = (d, r) -> x = d ++ r.
Proof.
  revert d r; induction x as [|c x IH]; intros d r; cbn [take_digits].
  - now intros [= <- <-].
  - destruct (is_digit_ascii c).
    + destruct (take_digits x) as [d' r'] eqn:E. intros [= <- <-].
      cbn [app]. now rewrite (IH d' r' eq_refl).
    + now intros [= <- <-].
Qed.

(** The integer part of a number stands at the head of the text. *)
Lemma match_int_part_eq (x integer r : str) :
  match_int_part x = Some (integer, r) -> x = integer ++ r.
Proof.
  unfold match_int_part.
  assert (K : forall sign x' i r',
             match x' with
             | c :: r0 =>
                 if c =? 48 then Some (sign ++ [c], r0)
                 else if in_range 49 57 c
                      then let (d, r') := take_digits x' in Some (sign ++ d, r')
                      else None
             | [] => None
             end = Some (i, r') -> sign ++ x' = i ++ r').
  { intros sign x' i r'. destruct x' as [|c r0]; [discriminate|].
    destruct (c =? 48).
    - intros [= <- <-]. now rewrite <- app_assoc.
    - destruct (in_range 49 57 c); [|discriminate].
      destruct (take_digits (c :: r0)) as [d0 r1] eqn:T.
      apply take_digits_eq in T. intros [= <- <-].
      now rewrite <- app_assoc, T. }
  destruct (next_is 45 x) as [x'|] eqn:E; intros H.
  - apply next_is_eq in E as ->. exact (K [45] x' integer r H).
  - exact (K [] x integer r H).
Qed.

Lemma match_frac_rest (x f r : str) : match_frac x = (f, r) -> rest_of r x.
Proof.
  unfold match_frac. destruct (next_is 46 x) as [x'|] eqn:E.
  - apply next_is_rest in E.
    destruct (take_digits x') as [[|d0 d] r'] eqn:T.
    + intros [= _ <-]. apply rest_of_refl.
    + apply take_digits_eq in T. intros [= _ <-].
      refine (rest_of_trans _ E). rewrite T. apply rest_of_app.
  - intros [= _ <-]. apply rest_of_refl.
Qed.

Lemma match_exp_rest (x e r : str) : match_exp x = (e, r) -> rest_of r x.
Proof.
  unfold match_exp. destruct x as [|c x']; [intros [= _ <-]; apply rest_of_refl|].
  destruct ((c =? 101) || (c =? 69)); [|intros [= _ <-]; apply rest_of_refl].
  destruct x' as [|c' x''].
  - cbn [take_digits]. intros [= _ <-]. apply rest_of_refl.
  - destruct ((c' =? 45) || (c' =? 43)).
    + destruct (take_digits x'') as [[|d0 d] r'] eqn:T.
      * intros [= _ <-]. apply rest_of_refl.
      * apply take_digits_eq in T. intros [= _ <-]. rewrite T.
        apply rest_of_cons, rest_of_cons, rest_of_app.
    + destruct (take_digits (c' :: x'')) as [[|d0 d] r'] eqn:T.
      * intros [= _ <-]. apply rest_of_refl.
      * apply take_digits_eq in T. intros [= _ <-]. rewrite T.
        apply rest_of_cons, rest_of_app.
Qed.

Lemma scan_word_rest (table : list (str * json)) (x r : str) (v : json) :
  scan_word table x = Some (v, r) -> rest_of r x.
Proof.
  induction table as [|[word v'] table IH]; cbn [scan_word]; [discriminate|].
  destruct (after_prefix word x) as [r'|] eqn:E.
  - apply after_prefix_rest in E. now intros [= _ <-].
  - exact IH.
Qed.

Lemma count_open_app (a b : str) :
  count_open (a ++ b) = (count_open a + count_open b)%nat.
Proof. unfold count_open. now rewrite filter_app, length_app. Qed.

Lemma count_open_rest (r x : str) :
  rest_of r x -> (count_open r <= count_open x)%nat.
Proof. intros [p ->]. rewrite count_open_app. lia. Qed.

Lemma digit_runs_less (n a b : nat) (x : str) :
  (a <= b)%nat -> digit_runs n b x = true -> digit_runs n a x = true.
Proof.
  revert a b; induction x as [|c x IH]; intros a b Hab; [reflexivity|].
  cbn [digit_runs]. destruct (is_digit_ascii c); [|auto].
  intros H. apply andb_true_iff in H as [H1 H2]. apply andb_true_iff. split.
  - apply Nat.leb_le in H1. apply Nat.leb_le. lia.
  - apply (IH (S a) (S b)); [lia | exact H2].
Qed.

Lemma digit_runs_rest (n run : nat) (r x : str) :
  rest_of r x -> digit_runs n run x = true -> digit_runs n 0 r = true.
Proof.
  intros [p ->]. revert run; induction p as [|c p IH]; intros run H.
  - cbn [app] in H. eapply digit_runs_less; [|exact H]. lia.
  - cbn [app digit_runs] in H. destruct (is_digit_ascii c).
    + apply andb_true_iff in H as [_ H]. exact (IH _ H).
    + exact (IH _ H).
Qed.

(** The digits at the head of a text are a run of it. *)
Lemma digit_runs_head (n run : nat) (d r : str) :
  forallb is_digit_ascii d = true -> digit_runs n run (d ++ r) = true ->
  (run + length d <= n)%nat \/ d = [].
Proof.
  revert run; induction d as [|c d IH]; intros run Hd H; [now right|].
  left. cbn [forallb] in Hd. apply andb_true_iff in Hd as [Hc Hd].
  cbn [app digit_runs] in H. rewrite Hc in H.
  apply andb_true_iff in H as [H1 H2]. apply Nat.leb_le in H1.
  destruct (IH (S run) Hd H2) as [K | ->]; cbn [length]; lia.
Qed.

Section Within.
Context {L : PyLimits}.

Lemma digits_within_rest (r x : str) :
  rest_of r x -> digits_within x = true -> digits_within r = true.
Proof.
  unfold digits_within. intros Hr H.
  destruct (int_max_str_digits =? 0)%nat; [reflexivity|]. cbn [orb] in *.
  eapply digit_runs_rest; eassumption.
Qed.

(** An integer of a text within the digit limit is accepted. *)
Lemma int_within (x integer r : str) :
  digits_within x = true -> match_int_part x = Some (integer, r) ->
  over_digit_limit (length (int_digits integer)) = false.
Proof.
  intros W M. unfold over_digit_limit.
  pose proof (match_int_part_digits _ M) as D.
  apply match_int_part_eq in M. unfold digits_within in W.
  destruct (Nat.eqb_spec int_max_str_digits 0) as [->|Hn]; [reflexivity|].
  cbn [orb] in W.
  assert (Hx : rest_of (int_digits integer ++ r) x).
  { rewrite M. unfold int_digits.
    destruct (next_is 45 integer) as [d|] eqn:E.
    - apply next_is_eq in E as ->. cbn [app]. apply rest_of_cons, rest_of_refl.
    - apply rest_of_refl. }
  assert (Hr : digit_runs int_max_str_digits 0 (int_digits integer ++ r) = true)
    by (eapply digit_runs_rest; eassumption).
  destruct (@digit_runs_head int_max_str_digits 0 (int_digits integer) r D Hr)
    as [K|K].
  - apply andb_false_iff. right. apply Nat.ltb_ge. lia.
  - rewrite K. cbn [length]. apply andb_false_iff. right. apply Nat.ltb_ge. lia.
Qed.

Lemma match_number_rest (x r : str) (v : json) :
  match_number x = Parsed (v, r) -> rest_of r x.
Proof.
  unfold match_number.
  destruct (match_int_part x) as [[i r1]|] eqn:E1; [|discriminate].
  apply match_int_part_eq in E1.
  destruct (match_frac r1) as [f r2] eqn:E2. apply match_frac_rest in E2.
  destruct (match_exp r2) as [e r3] eqn:E3. apply match_exp_rest in E3.
  assert (H : rest_of r3 x).
  { refine (rest_of_trans E3 (rest_of_trans E2 _)). rewrite E1.
    apply rest_of_app. }
  destruct f, e; try destruct (over_digit_limit _); try discriminate;
    now intros [= _ <-].
Qed.

Lemma scan_atom_rest (depth : nat) (x r : str) (v : json) :
  scan_atom depth x = Parsed (v, r) -> rest_of r x.
Proof.
  unfold scan_atom.
  destruct (scan_word constants x) as [[v0 r0]|] eqn:E1.
  - intros [= _ <-]. exact (scan_word_rest _ _ E1).
  - destruct (match_number x) as [[v0 r0]| |e] eqn:E2.
    + intros [= _ <-]. exact (match_number_rest _ E2).
    + destruct (scan_word special_numbers x) as [[v0 r0]|] eqn:E3;
        [|discriminate].
      destruct (depth <? recursion_room)%nat; [|discriminate].
      intros [= _ <-]. exact (scan_word_rest _ _ E3).
    + discriminate.
Qed.

Lemma scan_rest (fuel depth : nat) (mode : scan_mode) (x r : str) (v : json) :
  scan fuel depth mode x = Parsed (v, r) -> rest_of r x.
Proof.
  revert depth mode x r v; induction fuel as [|fuel IH];
    intros depth mode x r v; [discriminate|].
  cbn [scan]. destruct mode as [|values|pairs].
  - destruct (next_is 34 x) as [rest|] eqn:E1.
    { apply next_is_rest in E1.
      destruct (scanstring _ rest) as [[v0 r0]|] eqn:E2.
      - apply scanstring_rest in E2. intros [= _ <-].
        exact (rest_of_trans E2 E1).
      - intros H. now apply decode_error_at_not_parsed in H. }
    destruct (next_is 123 x) as [rest|] eqn:E2.
    { apply next_is_rest in E2. pose proof (skip_ws_rest rest) as W.
      destruct (depth <? recursion_room)%nat; [|discriminate].
      destruct (next_is 125 (skip_ws rest)) as [r0|] eqn:E3.
      { apply next_is_rest in E3. intros [= _ <-].
        exact (rest_of_trans E3 (rest_of_trans W E2)). }
      destruct (next_is 34 (skip_ws rest)) as [r0|] eqn:E4.
      - apply next_is_rest in E4. intros H. apply IH in H.
        exact (rest_of_trans H (rest_of_trans E4 (rest_of_trans W E2))).
      - intros H. now apply decode_error_at_not_parsed in H. }
    destruct (next_is 91 x) as [rest|] eqn:E3.
    { apply next_is_rest in E3. pose proof (skip_ws_rest rest) as W.
      destruct (depth <? recursion_room)%nat; [|discriminate].
      destruct (next_is 93 (skip_ws rest)) as [r0|] eqn:E4.
      { apply next_is_rest in E4. intros [= _ <-].
        exact (rest_of_trans E4 (rest_of_trans W E3)). }
      intros H. apply IH in H.
      exact (rest_of_trans H (rest_of_trans W E3)). }
    apply scan_atom_rest.
  - destruct (scan fuel depth ScanValue x) as [[v0 r0]| |e] eqn:E1;
      [|discriminate|discriminate].
    apply IH in E1. pose proof (skip_ws_rest r0) as W.
    destruct (next_is 93 (skip_ws r0)) as [r1|] eqn:E2.
    { apply next_is_rest in E2. intros [= _ <-].
      exact (rest_of_trans E2 (rest_of_trans W E1)). }
    destruct (next_is 44 (skip_ws r0)) as [r1|] eqn:E3.
    + apply next_is_rest in E3. pose proof (skip_ws_rest r1) as W1.
      intros H. apply IH in H.
      exact (rest_of_trans H (rest_of_trans W1 (rest_of_trans E3
               (rest_of_trans W E1)))).
    + intros H. now apply decode_error_at_not_parsed in H.
  - destruct (scanstring _ x) as [[key r0]|] eqn:E1;
      [|intros H; now apply decode_error_at_not_parsed in H].
    apply scanstring_rest in E1. pose proof (skip_ws_rest r0) as W.
    destruct (next_is 58 (skip_ws r0)) as [r1|] eqn:E2;
      [|intros H; now apply decode_error_at_not_parsed in H].
    apply next_is_rest in E2. pose proof (skip_ws_rest r1) as W1.
    destruct (scan fuel depth ScanValue (skip_ws r1)) as [[v0 r2]| |e] eqn:E3;
      [|discriminate|discriminate].
    apply IH in E3. pose proof (skip_ws_rest r2) as W2.
    assert (X2 : rest_of r2 x).
    { exact (rest_of_trans E3 (rest_of_trans W1 (rest_of_trans E2
               (rest_of_trans W E1)))). }
    destruct (next_is 125 (skip_ws r2)) as [r3|] eqn:E4.
    { apply next_is_rest in E4. intros [= _ <-].
      exact (rest_of_trans E4 (rest_of_trans W2 X2)). }
    destruct (next_is 44 (skip_ws r2)) as [r3|] eqn:E5;
      [|intros H; now apply decode_error_at_not_parsed in H].
    apply next_is_rest in E5. pose proof (skip_ws_rest r3) as W3.
    destruct (next_is 34 (skip_ws r3)) as [r4|] eqn:E6;
      [|intros H; now apply decode_error_at_not_parsed in H].
    apply next_is_rest in E6. intros H. apply IH in H.
    exact (rest_of_trans H (rest_of_trans E6 (rest_of_trans W3
             (rest_of_trans E5 (rest_of_trans W2 X2))))).
Qed.

Variable bound : nat.
Hypothesis bound_room : (bound < recursion_room)%nat.
Hypothesis bound_report : (bound <= report_room)%nat.

Lemma decode_error_within {A : Type} (depth : nat) :
  (depth <= bound)%nat -> @decode_error_at L A depth = JSONDecodeError.
Proof.
  intros H. unfold decode_error_at.
  destruct (Nat.leb_spec depth report_room); [reflexivity | lia].
Qed.

Lemma enter_within (depth : nat) :
  (depth <= bound)%nat -> (depth <? recursion_room)%nat = true.
Proof. intros H. apply Nat.ltb_lt. lia. Qed.

Lemma scan_atom_within (depth : nat) (x : str) (e : exn) :
  (depth <= bound)%nat -> digits_within x = true ->
  scan_atom depth x <> OtherError e.
Proof.
  intros Hd W. unfold scan_atom.
  destruct (scan_word constants x); [discriminate|].
  unfold match_number.
  destruct (match_int_part x) as [[i r1]|] eqn:M.
  - destruct (match_frac r1) as [f r2]. destruct (match_exp r2) as [ex r3].
    destruct f, ex; try discriminate.
    now rewrite (int_within _ W M).
  - destruct (scan_word special_numbers x); [|discriminate].
    now rewrite (enter_within Hd).
Qed.

(** Inside the bound, the scanner raises nothing but [JSONDecodeError]. *)
Lemma scan_within (fuel depth : nat) (mode : scan_mode) (x : str) (e : exn) :
  (depth + count_open x <= bound)%nat -> digits_within x = true ->
  scan fuel depth mode x <> OtherError e.
Proof.
  revert depth mode x; induction fuel as [|fuel IH]; intros depth mode x Hb W;
    [discriminate|].
  assert (Hd : (depth <= bound)%nat) by lia.
  assert (Sub : forall r, rest_of r x ->
                (depth + count_open r <= bound)%nat /\ digits_within r = true).
  { intros r Hr. split.
    - pose proof (count_open_rest Hr). lia.
    - exact (digits_within_rest Hr W). }
  cbn [scan]. destruct mode as [|values|pairs].
  - destruct (next_is 34 x) as [rest|] eqn:E1.
    { destruct (scanstring _ rest) as [[v0 r0]|]; [discriminate|].
      now rewrite (decode_error_within Hd). }
    assert (In : forall c rest, is_open c = true -> next_is c x = Some rest ->
                   (S depth + count_open (skip_ws rest) <= bound)%nat /\
                   digits_within (skip_ws rest) = true /\
                   forall r, rest_of r (skip_ws rest) ->
                     (S depth + count_open r <= bound)%nat).
    { intros c rest Hc E. pose proof (next_is_rest _ _ E) as Hr.
      apply next_is_eq in E. pose proof (skip_ws_rest rest) as Ws.
      assert (C : count_open x = S (count_open rest)).
      { rewrite E. unfold count_open. cbn [filter]. now rewrite Hc. }
      pose proof (count_open_rest Ws) as C1.
      split; [lia|]. split.
      - exact (digits_within_rest (rest_of_trans Ws Hr) W).
      - intros r Hr'. pose proof (count_open_rest Hr'). lia. }
    destruct (next_is 123 x) as [rest|] eqn:E2.
    { destruct (In 123 rest eq_refl E2) as (A & B & C).
      rewrite (enter_within Hd).
      destruct (next_is 125 (skip_ws rest)); [discriminate|].
      destruct (next_is 34 (skip_ws rest)) as [r0|] eqn:E4.
      - apply IH; [apply C; exact (next_is_rest _ _ E4)|].
        exact (digits_within_rest (next_is_rest _ _ E4) B).
      - rewrite decode_error_within by lia. discriminate. }
    destruct (next_is 91 x) as [rest|] eqn:E3.
    { destruct (In 91 rest eq_refl E3) as (A & B & C).
      rewrite (enter_within Hd).
      destruct (next_is 93 (skip_ws rest)); [discriminate|].
      now apply IH. }
    now apply scan_atom_within.
  - pose proof (IH depth ScanValue x Hb W) as H1.
    destruct (scan fuel depth ScanValue x) as [[v0 r0]| |e0] eqn:E1;
      [|discriminate|congruence].
    apply scan_rest in E1. pose proof (skip_ws_rest r0) as W0.
    destruct (next_is 93 (skip_ws r0)); [discriminate|].
    destruct (next_is 44 (skip_ws r0)) as [r1|] eqn:E3.
    + apply next_is_rest in E3. pose proof (skip_ws_rest r1) as W1.
      destruct (Sub (skip_ws r1)) as [A B];
        [exact (rest_of_trans W1 (rest_of_trans E3 (rest_of_trans W0 E1)))|].
      now apply IH.
    + now rewrite (decode_error_within Hd).
  - destruct (scanstring _ x) as [[key r0]|] eqn:E1;
      [|now rewrite (decode_error_within Hd)].
    apply scanstring_rest in E1. pose proof (skip_ws_rest r0) as W0.
    destruct (next_is 58 (skip_ws r0)) as [r1|] eqn:E2;
      [|now rewrite (decode_error_within Hd)].
    apply next_is_rest in E2. pose proof (skip_ws_rest r1) as W1.
    assert (X1 : rest_of (skip_ws r1) x).
    { exact (rest_of_trans W1 (rest_of_trans E2 (rest_of_trans W0 E1))). }
    destruct (Sub _ X1) as [A1 B1].
    pose proof (IH depth ScanValue (skip_ws r1) A1 B1) as H1.
    destruct (scan fuel depth ScanValue (skip_ws r1)) as [[v0 r2]| |e0] eqn:E3;
      [|discriminate|congruence].
    apply scan_rest in E3. pose proof (skip_ws_rest r2) as W2.
    destruct (next_is 125 (skip_ws r2)); [discriminate|].
    destruct (next_is 44 (skip_ws r2)) as [r3|] eqn:E5;
      [|now rewrite (decode_error_within Hd)].
    apply next_is_rest in E5. pose proof (skip_ws_rest r3) as W3.
    destruct (next_is 34 (skip_ws r3)) as [r4|] eqn:E6;
      [|now rewrite (decode_error_within Hd)].
    apply next_is_rest in E6.
    destruct (Sub r4) as [A B]; [|now apply IH].
    exact (rest_of_trans E6 (rest_of_trans W3 (rest_of_trans E5
             (rest_of_trans W2 (rest_of_trans E3 X1))))).
Qed.

End Within.

(** X25: an output is within the limits when it has fewer characters that
    open an array or an object than the scanner can enter and than it can
    report an error in, and no more decimal digits in a row than an integer
    may have.  On such an output [validate_tool_output] raises no
    exception: it returns its triple, whatever the tool name. *)
Theorem X25_output_within_limits (R : PyRuntime) (L : PyLimits)
    (tool_name output : str) :
  (count_open output < recursion_room)%nat ->
  (count_open output <= report_room)%nat ->
  digits_within output = true ->
  exists is_valid fixed_output messages,
    validate_tool_output tool_name output =
    Returns (is_valid, fixed_output, messages).
Proof.
  intros Hr Hp W. unfold validate_tool_output.
  destruct (_ || _); [|now eexists _, _, _].
  destruct (json_loads output) as [v| |e] eqn:E.
  - rewrite (dumps_after_loads _ E). now eexists _, _, _.
  - now eexists _, _, _.
  - exfalso. unfold json_loads in E.
    destruct (starts_with [bom] output); [discriminate|].
    pose proof (skip_ws_rest output) as Ws.
    assert (S : scan (scan_fuel (skip_ws output)) 0 ScanValue
                  (skip_ws output) <> OtherError e).
    { apply (@scan_within L (count_open output) Hr Hp).
      - pose proof (count_open_rest Ws). lia.
      - exact (digits_within_rest Ws W). }
    destruct (scan _ 0 ScanValue (skip_ws output)) as [[v r]| |e0];
      [destruct (skip_ws r); discriminate | discriminate | congruence].
Qed.

Lemma X25_output_within_limits_witness :
  exists is_valid fixed_output messages,
    @validate_tool_output ascii_runtime cpython_limits (s "get_json")
      (s "[[1, {}], NaN, [2") =
    Returns (is_valid, fixed_output, messages).
Proof.
  apply (@X25_output_within_limits ascii_runtime cpython_limits).
  - apply Nat.ltb_lt. vm_compute. reflexivity.
  - apply Nat.leb_le. vm_compute. reflexivity.
  - vm_compute. reflexivity.
Defined.

(** ** Responses without capital letters *)

(** X17: a response that holds no capital ASCII letter is never flagged by
    [check_for_hallucinations], whatever the query: the entity pattern
    needs a capital letter after the article, so nothing is extracted and
    the result is (false, no reason). *)
Theorem X17_no_capital_not_flagged (R : PyRuntime) (query response : str) :
  (forall c, In c response -> is_upper_ascii c = false) ->
  check_for_hallucinations query response = (false, []).
Proof.
  intros H. unfold check_for_hallucinations, re_findall_group.
  now rewrite (@needs_char R false entities_pattern is_upper_ascii response
                 (@entity_needs_capital R) H).
Qed.

Lemma X17_no_capital_not_flagged_witness :
  @check_for_hallucinations ascii_runtime
     (s "tell me about the weather") (s "the eiffel tower is tall.") =
    (false, []).
Proof.
  apply (@X17_no_capital_not_flagged ascii_runtime).
  apply none_of. vm_compute. reflexivity.
Defined.

(** ** An empty fix list *)

Section NoRecord.
Context {R : PyRuntime}.

(** A loop whose steps either leave the pair alone or add a record: when
    no record was added, nothing was done. *)
Lemma fold_no_record {B : Type}
    (step : str * list fix_record -> B -> str * list fix_record)
    (l : list B) :
  (forall acc b, step acc b = acc \/
                 exists q f, step acc b = (q, snd acc ++ [f])) ->
  forall acc, snd (fold_left step l acc) = [] -> fold_left step l acc = acc.
Proof.
  intros Hstep. induction l as [|b l IH]; intros acc H; [reflexivity|].
  cbn [fold_left] in *. pose proof (IH _ H) as E. rewrite E in H |- *.
  destruct (Hstep acc b) as [K|(q & f & K)]; [exact K|].
  rewrite K in H. cbn [snd] in H. now destruct (snd acc).
Qed.

Lemma fix_typos_no_record (query : str) :
  snd (fix_typos query) = [] -> fst (fix_typos query) = query.
Proof.
  intros H. unfold fix_typos in *. rewrite fold_no_record; auto.
  intros [cur fixes] [typo correction]. unfold fix_typos_step.
  destruct (re_test _ _ _); [right | now left]. cbn [snd]. eauto.
Qed.

Lemma banned_no_record (query : str) :
  snd (remove_banned_words query) = [] ->
  fst (remove_banned_words query) = query.
Proof.
  intros H. unfold remove_banned_words in *. rewrite fold_no_record; auto.
  intros [cur fixes] word. unfold remove_banned_step.
  destruct (re_test _ _ _); [right | now left]. cbn [snd]. eauto.
Qed.

Lemma date_no_record (current_year : N) (query : str) :
  snd (normalize_date_formats current_year query) = [] ->
  fst (normalize_date_formats current_year query) = query.
Proof.
  unfold normalize_date_formats. cbn [fst snd]. intros H.
  apply map_eq_nil in H. now destruct (no_match _ _ _ H) as [_ S].
Qed.

Lemma email_no_record (query : str) :
  snd (validate_email_format query) = [] ->
  fst (validate_email_format query) = query.
Proof.
  intros H. unfold validate_email_format in *. rewrite fold_no_record; auto.
  intros [cur fixes] email. rewrite email_step_spec.
  destruct (corrected_email email); [right | now left]. cbn [snd]. eauto.
Qed.

Lemma url_no_record (query : str) :
  snd (validate_urls query) = [] -> fst (validate_urls query) = query.
Proof.
  intros H. unfold validate_urls in *. rewrite fold_no_record; auto.
  intros [cur fixes] url.
  destruct (first_suspicious url); [right | now left]. cbn [snd]. eauto.
Qed.

Lemma currency_no_record (query : str) :
  snd (normalize_numeric_values query) = [] ->
  fst (normalize_numeric_values query) = query.
Proof.
  unfold normalize_numeric_values. cbn [fst snd]. intros H.
  apply map_eq_nil in H. now destruct (no_match _ _ _ H) as [_ S].
Qed.

Lemma pii_no_record (query : str) :
  snd (detect_pii query) = [] -> fst (detect_pii query) = query.
Proof.
  unfold detect_pii.
  destruct (re_test false cc_pattern query);
    match goal with
    | |- context [re_test false ssn_pattern ?q] =>
        destruct (re_test false ssn_pattern q)
    end; cbn [fst snd app]; intros H; (discriminate H || reflexivity).
Qed.

Lemma whitespace_no_record (query : str) :
  snd (remove_excessive_whitespace query) = [] ->
  fst (remove_excessive_whitespace query) = query.
Proof.
  unfold remove_excessive_whitespace.
  destruct (str_eqb _ query) eqn:E; cbn [negb fst snd]; [|discriminate].
  intros _. now apply str_eqb_eq.
Qed.

Lemma limit_no_record (query : str) (max_length : Z) :
  snd (limit_query_length query max_length) = [] ->
  fst (limit_query_length query max_length) = query.
Proof.
  unfold limit_query_length.
  destruct (_ >? _)%Z; cbn [fst snd]; [discriminate | reflexivity].
Qed.

Lemma run_no_record (hs : list (str -> str * list fix_record)) :
  (forall h, In h hs -> forall q, snd (h q) = [] -> fst (h q) = q) ->
  forall q, snd (fold_left run_heuristic hs (q, [])) = [] ->
            fst (fold_left run_heuristic hs (q, [])) = q.
Proof.
  induction hs as [|h hs IH]; intros Hh q; [reflexivity|].
  cbn [fold_left]. rewrite run_heuristic_eq, run_fixes. cbn [fst snd app].
  intros H. apply app_eq_nil in H as [H1 H2].
  rewrite (Hh h (or_introl eq_refl) q H1) in H2 |- *.
  apply IH; [|exact H2]. intros h' Hh'. apply Hh. now right.
Qed.

Lemma pipeline_no_record (current_year : N) (query : str) :
  snd (apply_heuristics current_year query) = [] ->
  fst (apply_heuristics current_year query) = query.
Proof.
  unfold apply_heuristics, validate_and_fix_query. apply run_no_record.
  intros h Hh. unfold heuristics in Hh.
  repeat (destruct Hh as [<-|Hh]); [..|destruct Hh]; intros q.
  - apply fix_typos_no_record.
  - apply banned_no_record.
  - apply date_no_record.
  - apply email_no_record.
  - reflexivity.
  - apply url_no_record.
  - apply currency_no_record.
  - apply pii_no_record.
  - apply whitespace_no_record.
  - apply limit_no_record.
Qed.

End NoRecord.

(** X18: when the fix list that [apply_heuristics] returns is empty, the
    string it returns is the query itself: no step changes the text without
    leaving a record.  The same holds for each of the ten heuristics on its
    own. *)
Theorem X18_no_fix_no_change (R : PyRuntime) (current_year : N)
    (query : str) :
  (snd (apply_heuristics current_year query) = [] ->
   fst (apply_heuristics current_year query) = query) /\
  forall h, In h (heuristics current_year) ->
            snd (h query) = [] -> fst (h query) = query.
Proof.
  split; [apply pipeline_no_record|].
  intros h Hh. unfold heuristics in Hh.
  repeat (destruct Hh as [<-|Hh]); [..|destruct Hh].
  - apply fix_typos_no_record.
  - apply banned_no_record.
  - apply date_no_record.
  - apply email_no_record.
  - reflexivity.
  - apply url_no_record.
  - apply currency_no_record.
  - apply pii_no_record.
  - apply whitespace_no_record.
  - apply limit_no_record.
Qed.

Lemma X18_no_fix_no_change_witness :
  let query := s "what is on my calendar" in
  snd (@apply_heuristics ascii_runtime 2026 query) = [] /\
  fst (@apply_heuristics ascii_runtime 2026 query) = query.
Proof.
  intros query.
  assert (H : snd (@apply_heuristics ascii_runtime 2026 query) = [])
    by (vm_compute; reflexivity).
  split; [exact H|].
  exact (proj1 (@X18_no_fix_no_change ascii_runtime 2026 query) H).
Defined.

(** ** Numbers that [detect_pii] redacts *)

(** A pattern whose matches begin with a character of some kind, in a
    text that has such characters in one place only. *)
Section Scan.
Context {R : PyRuntime}.
Variables (ic : bool) (r : regex) (p : N -> bool).
Hypothesis head :
  forall bef aft m, match_here ic r bef aft = Some m ->
                    exists c rest, aft = c :: rest /\ p c = true.

Lemma scan_here (bef : str) (c : N) (rest : str) :
  p c = false -> match_here ic r bef (c :: rest) = None.
Proof.
  intros Hc. destruct (match_here ic r bef (c :: rest)) eqn:E;
    [|reflexivity].
  apply head in E as (c' & rest' & [= <- <-] & Pc). congruence.
Qed.

Lemma scan_end (bef : str) : match_here ic r bef [] = None.
Proof.
  destruct (match_here ic r bef []) eqn:E; [|reflexivity].
  apply head in E as (c' & rest' & E & _). discriminate.
Qed.

Lemma scan_sub_prefix (repl : rmatch_obj -> str) (pre bef x : str) :
  (forall c, In c pre -> p c = false) ->
  sub_from ic r repl bef (pre ++ x) 0 =
  pre ++ sub_from ic r repl (rev pre ++ bef) x 0.
Proof.
  revert bef; induction pre as [|c pre IH]; intros bef H; [reflexivity|].
  cbn [app sub_from]. rewrite scan_here by (apply H; now left).
  rewrite IH by (intros c' Hc'; apply H; now right).
  cbn [rev]. now rewrite <- app_assoc.
Qed.

Lemma scan_search_prefix (pre bef x : str) :
  (forall c, In c pre -> p c = false) ->
  search_from ic r bef (pre ++ x) = search_from ic r (rev pre ++ bef) x.
Proof.
  revert bef; induction pre as [|c pre IH]; intros bef H; [reflexivity|].
  cbn [app search_from]. rewrite scan_here by (apply H; now left).
  rewrite IH by (intros c' Hc'; apply H; now right).
  cbn [rev]. now rewrite <- app_assoc.
Qed.

Lemma scan_sub_rest (repl : rmatch_obj -> str) (post bef : str) :
  (forall c, In c post -> p c = false) ->
  sub_from ic r repl bef post 0 = post.
Proof.
  intros H. rewrite <- (app_nil_r post) at 1.
  rewrite scan_sub_prefix by exact H.
  cbn [sub_from]. now rewrite scan_end, app_nil_r.
Qed.

Lemma scan_finditer_prefix (pre bef x : str) :
  (forall c, In c pre -> p c = false) ->
  finditer_from ic r bef (pre ++ x) 0 =
  finditer_from ic r (rev pre ++ bef) x 0.
Proof.
  revert bef; induction pre as [|c pre IH]; intros bef H; [reflexivity|].
  cbn [app finditer_from]. rewrite scan_here by (apply H; now left).
  rewrite IH by (intros c' Hc'; apply H; now right).
  cbn [rev]. now rewrite <- app_assoc.
Qed.

Lemma scan_finditer_rest (post bef : str) :
  (forall c, In c post -> p c = false) ->
  finditer_from ic r bef post 0 = [].
Proof.
  intros H. rewrite <- (app_nil_r post).
  rewrite scan_finditer_prefix by exact H.
  cbn [finditer_from]. now rewrite scan_end.
Qed.

Lemma finditer_skip (t bef x : str) :
  finditer_from ic r bef (t ++ x) (length t) =
  finditer_from ic r (rev t ++ bef) x 0.
Proof.
  revert bef; induction t as [|c t IH]; intros bef; [reflexivity|].
  cbn [app length finditer_from]. rewrite IH. cbn [rev].
  now rewrite <- app_assoc.
Qed.

Lemma sub_skip (repl : rmatch_obj -> str) (t bef x : str) :
  sub_from ic r repl bef (t ++ x) (length t) =
  sub_from ic r repl (rev t ++ bef) x 0.
Proof.
  revert bef; induction t as [|c t IH]; intros bef; [reflexivity|].
  cbn [app length sub_from]. rewrite IH. cbn [rev].
  now rewrite <- app_assoc.
Qed.

(** The scan at a match: the match is listed and replaced, and the scan
    goes on behind it. *)
Lemma scan_at_match (repl : rmatch_obj -> str) (t bef x : str)
    (m : rmatch_obj) :
  t <> [] -> m_text m = t -> match_here ic r bef (t ++ x) = Some m ->
  sub_from ic r repl bef (t ++ x) 0 =
    repl m ++ sub_from ic r repl (rev t ++ bef) x 0 /\
  finditer_from ic r bef (t ++ x) 0 =
    m :: finditer_from ic r (rev t ++ bef) x 0.
Proof.
  intros Ht Em Hm. destruct t as [|c t]; [congruence|].
  cbn [app sub_from finditer_from] in *. rewrite Hm, Em. cbn [length].
  replace (S (length t) - 1)%nat with (length t) by lia.
  rewrite sub_skip, finditer_skip. cbn [rev]. rewrite <- app_assoc.
  now split.
Qed.

(** The text with one match in it, set in text without such characters. *)
Lemma scan_one (repl : rmatch_obj -> str) (pre t post : str)
    (m : rmatch_obj) :
  (forall c, In c pre -> p c = false) ->
  (forall c, In c post -> p c = false) ->
  t <> [] -> m_text m = t ->
  match_here ic r (rev pre) (t ++ post) = Some m ->
  re_test ic r (pre ++ t ++ post) = true /\
  re_sub_fn ic r repl (pre ++ t ++ post) = pre ++ repl m ++ post.
Proof.
  intros Hpre Hpost Ht Em Hm. split.
  - unfold re_test, re_search. rewrite scan_search_prefix by exact Hpre.
    rewrite app_nil_r. destruct t as [|c t]; [congruence|].
    cbn [app search_from] in *. now rewrite Hm.
  - unfold re_sub_fn. rewrite scan_sub_prefix by exact Hpre.
    rewrite app_nil_r. f_equal.
    destruct t as [|c t]; [congruence|].
    cbn [app sub_from] in *. rewrite Hm, Em. cbn [length]. f_equal.
    rewrite sub_skip. now apply scan_sub_rest.
Qed.

End Scan.

Section Numbers.
Context {R : PyRuntime}.

Lemma digit_is_word (c : N) : is_digit c = true -> is_word c = true.
Proof.
  unfold is_digit, is_word. destruct (is_ascii c).
  - intros ->. reflexivity.
  - now destruct (uni_class c).
Qed.

Lemma digit_not_sep (c : N) :
  is_digit c = true -> in_class false [CChar 45; CSpace] c = false.
Proof.
  unfold in_class, in_item, existsb, char_eq, is_digit, is_space.
  destruct (is_ascii c) eqn:A.
  - unfold is_digit_ascii, in_range. intros H. split_tests;
      try discriminate; try reflexivity; lia.
  - unfold is_ascii in A. intros H.
    destruct (uni_class c); try discriminate.
    split_tests; try reflexivity; try discriminate; lia.
Qed.

Lemma sep_not_digit (c : N) :
  (c =? 45) || is_space c = true -> is_digit c = false.
Proof.
  intros H. destruct (is_digit c) eqn:D; [|reflexivity].
  pose proof (digit_not_sep c D) as F.
  unfold in_class, in_item, existsb, char_eq in F.
  rewrite N.eqb_sym, orb_false_r in F. congruence.
Qed.

Lemma digits_head (n : nat) (g : str) :
  digits (S n) g = true ->
  exists d g', g = d :: g' /\ is_digit d = true /\ digits n g' = true.
Proof.
  unfold digits. destruct g as [|d g']; [discriminate|]. cbn.
  intros H. apply andb_true_iff in H as [L H].
  apply andb_true_iff in H as [D H].
  exists d, g'. now rewrite L, D, H.
Qed.

Lemma digits_last (n : nat) (g bef : str) :
  digits (S n) g = true -> word_at (rev g ++ bef) = true.
Proof.
  unfold digits. intros H. apply andb_true_iff in H as [L H].
  rewrite forallb_forall in H.
  destruct (rev g) as [|d t] eqn:E.
  - apply (f_equal (@length N)) in E. rewrite length_rev in E.
    apply Nat.eqb_eq in L. simpl in E. lia.
  - cbn [app word_at]. apply digit_is_word, H, in_rev. rewrite E. now left.
Qed.

(** A run of [n] digits is passed by [\d{n}]. *)
Lemma rep_digits (n : nat) (g bef rest : str) (cs : list (nat * str))
    (k : mstate -> option mstate) :
  digits n g = true ->
  rmatch false (Rep n digit) (MState bef (g ++ rest) cs) k =
  k (MState (rev g ++ bef) rest cs).
Proof.
  revert g bef; induction n as [|n IH]; intros g bef H.
  - unfold digits in H. destruct g; [reflexivity | discriminate].
  - apply digits_head in H as (d & g' & -> & D & H).
    cbn [Rep app]. rewrite rmatch_Seq. unfold digit at 1.
    cbn [rmatch]. unfold step_char. cbn [after before caps].
    rewrite in_class_digit, D, IH by exact H.
    cbn [rev]. now rewrite <- app_assoc.
Qed.

(** A separator in front of a digit is passed by [[-\s]?]. *)
Lemma sep_passed (sp bef rest : str) (cs : list (nat * str))
    (k : mstate -> option mstate) (res : mstate) :
  is_sep sp = true ->
  (exists d rest', rest = d :: rest' /\ is_digit d = true) ->
  k (MState (rev sp ++ bef) rest cs) = Some res ->
  rmatch false sep_opt (MState bef (sp ++ rest) cs) k = Some res.
Proof.
  intros Hs (d & rest' & -> & D) K. unfold sep_opt, Opt.
  destruct sp as [|c [|c' sp]]; [| |discriminate]; cbn [rmatch app].
  - unfold step_char. cbn [after before caps].
    now rewrite (digit_not_sep d D).
  - unfold step_char. cbn [after before caps].
    assert (C : in_class false [CChar 45; CSpace] c = true).
    { unfold in_class, in_item, existsb, char_eq.
      cbn [is_sep] in Hs. rewrite N.eqb_sym, orb_false_r. exact Hs. }
    rewrite C. cbn [rev app] in K. now rewrite K.
Qed.

Lemma digits_app_head (n : nat) (g rest : str) :
  digits (S n) g = true ->
  exists d rest', g ++ rest = d :: rest' /\ is_digit d = true.
Proof.
  intros H. apply digits_head in H as (d & g' & -> & D & _).
  now exists d, (g' ++ rest).
Qed.

Lemma cc_head (bef aft : str) (m : rmatch_obj) :
  match_here false cc_pattern bef aft = Some m ->
  exists c rest, aft = c :: rest /\ is_digit c = true.
Proof.
  intros H. apply match_here_text in H as (st & E & _).
  unfold cc_pattern, digit in E. cbn [seqs Rep] in E.
  rewrite rmatch_Seq in E. apply rmatch_Bnd in E.
  rewrite !rmatch_Seq in E.
  apply rmatch_Cls in E as (c & rest & A & C & _). cbn [after] in A.
  exists c, rest. now rewrite <- in_class_digit.
Qed.

Lemma ssn_head (bef aft : str) (m : rmatch_obj) :
  match_here false ssn_pattern bef aft = Some m ->
  exists c rest, aft = c :: rest /\ is_digit c = true.
Proof.
  intros H. apply match_here_text in H as (st & E & _).
  unfold ssn_pattern, digit in E. cbn [seqs Rep] in E.
  rewrite rmatch_Seq in E. apply rmatch_Bnd in E.
  rewrite !rmatch_Seq in E.
  apply rmatch_Cls in E as (c & rest & A & C & _). cbn [after] in A.
  exists c, rest. now rewrite <- in_class_digit.
Qed.

Lemma rmatch_Eps (ic : bool) (st : mstate) (k : mstate -> option mstate) :
  rmatch ic Eps st k = k st.
Proof. reflexivity. Qed.

Lemma bnd_passed (st : mstate) (k : mstate -> option mstate) :
  at_boundary (before st) (after st) = true ->
  rmatch false Bnd st k = k st.
Proof. cbn [rmatch]. now intros ->. Qed.

Lemma match_here_all (r : regex) (bef t post : str) :
  rmatch false r (MState bef (t ++ post) []) Some =
    Some (MState (rev t ++ bef) post []) ->
  match_here false r bef (t ++ post) = Some (MatchObj (length bef) t []).
Proof.
  unfold match_here. intros ->. cbn [after caps].
  rewrite length_app, Nat.add_sub.
  now rewrite firstn_app, firstn_all, Nat.sub_diag, firstn_O, app_nil_r.
Qed.

(** The card pattern on four groups of four digits. *)
Lemma cc_match (bef post g1 g2 g3 g4 s1 s2 s3 : str) :
  word_at bef = false -> word_at post = false ->
  digits 4 g1 = true -> digits 4 g2 = true -> digits 4 g3 = true ->
  digits 4 g4 = true ->
  is_sep s1 = true -> is_sep s2 = true -> is_sep s3 = true ->
  let card := g1 ++ s1 ++ g2 ++ s2 ++ g3 ++ s3 ++ g4 in
  match_here false cc_pattern bef (card ++ post) =
    Some (MatchObj (length bef) card []).
Proof.
  intros Hb Hp G1 G2 G3 G4 S1 S2 S3 card.
  apply match_here_all. unfold card. rewrite <- !app_assoc.
  unfold cc_pattern. cbn [seqs].
  rewrite rmatch_Seq, bnd_passed.
  2:{ cbn [before after]. unfold at_boundary. rewrite Hb.
      destruct (@digits_app_head 3 g1
                  (s1 ++ g2 ++ s2 ++ g3 ++ s3 ++ g4 ++ post) G1)
        as (d & rest' & -> & D).
      cbn [word_at]. now rewrite (digit_is_word _ D). }
  rewrite rmatch_Seq.
  change (Rep 3 (Seq (Rep 4 digit) sep_opt))
    with (Seq (Seq (Rep 4 digit) sep_opt)
              (Seq (Seq (Rep 4 digit) sep_opt)
                   (Seq (Seq (Rep 4 digit) sep_opt) Eps))).
  rewrite !rmatch_Seq, rep_digits by exact G1.
  apply sep_passed; [exact S1 | now apply (@digits_app_head 3) |].
  rewrite !rmatch_Seq, rep_digits by exact G2.
  apply sep_passed; [exact S2 | now apply (@digits_app_head 3) |].
  rewrite !rmatch_Seq, rep_digits by exact G3.
  apply sep_passed; [exact S3 | now apply (@digits_app_head 3) |].
  rewrite rmatch_Eps, rmatch_Seq, rep_digits by exact G4.
  rewrite bnd_passed.
  - f_equal. f_equal. rewrite !rev_app_distr, <- !app_assoc. reflexivity.
  - cbn [before after]. unfold at_boundary.
    now rewrite (@digits_last 3 g4 _ G4), Hp.
Qed.

(** The social security pattern on three, two and four digits. *)
Lemma ssn_match (bef post g1 g2 g3 s1 s2 : str) :
  word_at bef = false -> word_at post = false ->
  digits 3 g1 = true -> digits 2 g2 = true -> digits 4 g3 = true ->
  is_sep s1 = true -> is_sep s2 = true ->
  let number := g1 ++ s1 ++ g2 ++ s2 ++ g3 in
  match_here false ssn_pattern bef (number ++ post) =
    Some (MatchObj (length bef) number []).
Proof.
  intros Hb Hp G1 G2 G3 S1 S2 number.
  apply match_here_all. unfold number. rewrite <- !app_assoc.
  unfold ssn_pattern. cbn [seqs].
  rewrite rmatch_Seq, bnd_passed.
  2:{ cbn [before after]. unfold at_boundary. rewrite Hb.
      destruct (@digits_app_head 2 g1 (s1 ++ g2 ++ s2 ++ g3 ++ post) G1)
        as (d & rest' & -> & D).
      cbn [word_at]. now rewrite (digit_is_word _ D). }
  rewrite rmatch_Seq, rep_digits by exact G1.
  rewrite rmatch_Seq.
  apply sep_passed; [exact S1 | now apply (@digits_app_head 1) |].
  rewrite rmatch_Seq, rep_digits by exact G2.
  rewrite rmatch_Seq.
  apply sep_passed; [exact S2 | now apply (@digits_app_head 3) |].
  rewrite rmatch_Seq, rep_digits by exact G3.
  rewrite bnd_passed.
  - f_equal. f_equal. rewrite !rev_app_distr, <- !app_assoc. reflexivity.
  - cbn [before after]. unfold at_boundary.
    now rewrite (@digits_last 3 g3 _ G3), Hp.
Qed.

End Numbers.

Section Redaction.
Context {R : PyRuntime}.

(** What [\d{n}] passes is a run of [n] digits. *)
Lemma rep_digits_inv (n : nat) (st res : mstate)
    (k : mstate -> option mstate) :
  rmatch false (Rep n digit) st k = Some res ->
  exists g st',
    digits n g = true /\ after st = g ++ after st' /\ k st' = Some res.
Proof.
  revert st; induction n as [|n IH]; intros st.
  - cbn [Rep rmatch]. intros H. now exists [], st.
  - cbn [Rep]. rewrite rmatch_Seq. unfold digit at 1. intros H.
    apply rmatch_Cls in H as (c & rest & A & C & H).
    apply IH in H as (g & st' & G & A' & K). cbn [after] in A'.
    exists (c :: g), st'. rewrite in_class_digit in C.
    unfold digits in *. cbn [length forallb Nat.eqb]. rewrite C.
    split; [exact G|]. split; [|exact K]. now rewrite A, A'.
Qed.

Lemma count_digits (n : nat) (g x : str) :
  digits n g = true ->
  length (filter is_digit (g ++ x)) = (n + length (filter is_digit x))%nat.
Proof.
  unfold digits. intros H. apply andb_true_iff in H as [L H].
  apply Nat.eqb_eq in L. rewrite forallb_forall in H.
  rewrite filter_app, length_app, filter_all by exact H. now rewrite L.
Qed.

Lemma count_more (p : N -> bool) (a x : str) :
  (length (filter p x) <= length (filter p (a ++ x)))%nat.
Proof. rewrite filter_app, length_app. lia. Qed.

(** A card number has sixteen digits. *)
Lemma cc_needs_sixteen (bef aft : str) (m : rmatch_obj) :
  match_here false cc_pattern bef aft = Some m ->
  (16 <= length (filter is_digit aft))%nat.
Proof.
  intros H. apply match_here_text in H as (st & E & _).
  unfold cc_pattern in E. cbn [seqs] in E.
  rewrite rmatch_Seq in E. apply rmatch_Bnd in E.
  change (Rep 3 (Seq (Rep 4 digit) sep_opt))
    with (Seq (Seq (Rep 4 digit) sep_opt)
              (Seq (Seq (Rep 4 digit) sep_opt)
                   (Seq (Seq (Rep 4 digit) sep_opt) Eps))) in E.
  rewrite !rmatch_Seq in E.
  apply rep_digits_inv in E as (g1 & st1 & G1 & A1 & E).
  apply rmatch_forward in E as (st1' & p1 & E & B1).
  rewrite !rmatch_Seq in E.
  apply rep_digits_inv in E as (g2 & st2 & G2 & A2 & E).
  apply rmatch_forward in E as (st2' & p2 & E & B2).
  rewrite !rmatch_Seq in E.
  apply rep_digits_inv in E as (g3 & st3 & G3 & A3 & E).
  apply rmatch_forward in E as (st3' & p3 & E & B3).
  rewrite rmatch_Eps, rmatch_Seq in E.
  apply rep_digits_inv in E as (g4 & st4 & G4 & A4 & _).
  cbn [after] in A1. rewrite A1, B1, A2, B2, A3, B3, A4.
  rewrite (@count_digits 4 g1 _ G1).
  rewrite (filter_app _ p1), length_app, (@count_digits 4 g2 _ G2).
  rewrite (filter_app _ p2), length_app, (@count_digits 4 g3 _ G3).
  rewrite (filter_app _ p3), length_app, (@count_digits 4 g4 _ G4).
  lia.
Qed.

(** A pattern that needs [n] characters of some kind matches nowhere in a
    text with fewer of them. *)
Lemma needs_count (ic : bool) (r : regex) (p : N -> bool) (n : nat)
    (x : str) :
  (forall bef aft m, match_here ic r bef aft = Some m ->
                     (n <= length (filter p aft))%nat) ->
  (length (filter p x) < n)%nat ->
  re_finditer ic r x = [].
Proof.
  intros Hneed Hx. destruct (re_finditer ic r x) as [|m l] eqn:E;
    [reflexivity|].
  assert (Hm : In m (re_finditer ic r x)) by (rewrite E; now left).
  apply finditer_suffix in Hm as (bef' & a & aft' & -> & Hm).
  apply Hneed in Hm. pose proof (count_more p a aft'). lia.
Qed.

Lemma no_digit_filter (x : str) :
  (forall c, In c x -> is_digit c = false) -> filter is_digit x = [].
Proof. apply filter_none. Qed.

Lemma sep_filter (sp : str) : is_sep sp = true -> filter is_digit sp = [].
Proof.
  destruct sp as [|c [|c' sp]]; [reflexivity| |discriminate].
  cbn [is_sep filter]. intros H. now rewrite (sep_not_digit c H).
Qed.

Lemma digits_not_nil (n : nat) (g x : str) :
  digits (S n) g = true -> g ++ x <> [].
Proof.
  intros H. apply digits_head in H as (d & g' & -> & _). discriminate.
Qed.

End Redaction.

(** X19: a card number written as four groups of four digits, each two
    groups separated by nothing, a hyphen or one white-space character,
    that stands in a query between text without digits and is set off from
    it by characters that are not word characters (or by the ends of the
    query), is replaced by the token [REDACTED_CARD_NUMBER]; the rest of
    the query is returned as it is, and the fix list is the one record for
    a card number. *)
Theorem X19_card_number_redacted (R : PyRuntime)
    (pre post g1 g2 g3 g4 s1 s2 s3 : str) :
  (forall c, In c pre -> is_digit c = false) ->
  (forall c, In c post -> is_digit c = false) ->
  word_at (rev pre) = false -> word_at post = false ->
  digits 4 g1 = true -> digits 4 g2 = true -> digits 4 g3 = true ->
  digits 4 g4 = true ->
  is_sep s1 = true -> is_sep s2 = true -> is_sep s3 = true ->
  detect_pii (pre ++ (g1 ++ s1 ++ g2 ++ s2 ++ g3 ++ s3 ++ g4) ++ post) =
    (pre ++ s "[REDACTED_CARD_NUMBER]" ++ post,
     [s "Redacted potential credit card number"]).
Proof.
  intros Hpre Hpost Wpre Wpost G1 G2 G3 G4 S1 S2 S3.
  set (card := g1 ++ s1 ++ g2 ++ s2 ++ g3 ++ s3 ++ g4).
  pose proof (cc_match (rev pre) post g1 g2 g3 g4 s1 s2 s3
                Wpre Wpost G1 G2 G3 G4 S1 S2 S3) as M.
  cbv zeta in M. fold card in M.
  destruct (@scan_one R false cc_pattern is_digit (@cc_head R)
              (fun _ => s "[REDACTED_CARD_NUMBER]") pre card post
              (MatchObj (length (rev pre)) card [])
              Hpre Hpost (@digits_not_nil R 3 g1 _ G1) eq_refl M) as [T S].
  unfold detect_pii, re_sub. rewrite T, S.
  assert (E : re_finditer false ssn_pattern
                (pre ++ s "[REDACTED_CARD_NUMBER]" ++ post) = []).
  { apply (@needs_char R false ssn_pattern is_digit _ (@ssn_needs_digit R)).
    intros c Hc. apply in_app_or in Hc as [Hc|Hc]; [now apply Hpre|].
    apply in_app_or in Hc as [Hc|Hc]; [|now apply Hpost].
    revert c Hc. apply none_of. reflexivity. }
  destruct (no_match _ _ _ E) as [T2 _]. now rewrite T2.
Qed.

Lemma X19_card_number_redacted_witness :
  @detect_pii ascii_runtime (s "card: 1234-5678 90123456, thanks") =
    (s "card: [REDACTED_CARD_NUMBER], thanks",
     [s "Redacted potential credit card number"]).
Proof.
  apply (@X19_card_number_redacted ascii_runtime
           (s "card: ") (s ", thanks") (s "1234") (s "5678") (s "9012")
           (s "3456") (s "-") (s " ") []);
    try (vm_compute; reflexivity); apply none_of; vm_compute; reflexivity.
Defined.

(** X20: a social security number written as three, two and four digits,
    each two groups separated by nothing, a hyphen or one white-space
    character, that stands in a query between text without digits and is
    set off from it by characters that are not word characters (or by the
    ends of the query), is replaced by the token [REDACTED_SSN]; the rest
    of the query is returned as it is, and the fix list is the one record
    for a social security number. *)
Theorem X20_ssn_redacted (R : PyRuntime) (pre post g1 g2 g3 s1 s2 : str) :
  (forall c, In c pre -> is_digit c = false) ->
  (forall c, In c post -> is_digit c = false) ->
  word_at (rev pre) = false -> word_at post = false ->
  digits 3 g1 = true -> digits 2 g2 = true -> digits 4 g3 = true ->
  is_sep s1 = true -> is_sep s2 = true ->
  detect_pii (pre ++ (g1 ++ s1 ++ g2 ++ s2 ++ g3) ++ post) =
    (pre ++ s "[REDACTED_SSN]" ++ post,
     [s "Redacted potential Social Security Number"]).
Proof.
  intros Hpre Hpost Wpre Wpost G1 G2 G3 S1 S2.
  set (number := g1 ++ s1 ++ g2 ++ s2 ++ g3).
  pose proof (ssn_match (rev pre) post g1 g2 g3 s1 s2
                Wpre Wpost G1 G2 G3 S1 S2) as M.
  cbv zeta in M. fold number in M.
  destruct (@scan_one R false ssn_pattern is_digit (@ssn_head R)
              (fun _ => s "[REDACTED_SSN]") pre number post
              (MatchObj (length (rev pre)) number [])
              Hpre Hpost (@digits_not_nil R 2 g1 _ G1) eq_refl M) as [T S].
  assert (E : re_finditer false cc_pattern (pre ++ number ++ post) = []).
  { apply (@needs_count R false cc_pattern is_digit 16 _
             (@cc_needs_sixteen R)).
    unfold number.
    rewrite !filter_app, (no_digit_filter _ Hpre), (no_digit_filter _ Hpost),
      (sep_filter _ S1), (sep_filter _ S2), !length_app.
    pose proof (@count_digits R 3 g1 [] G1) as C1.
    pose proof (@count_digits R 2 g2 [] G2) as C2.
    pose proof (@count_digits R 4 g3 [] G3) as C3.
    rewrite app_nil_r in C1, C2, C3. rewrite C1, C2, C3. simpl. lia. }
  destruct (no_match _ _ _ E) as [T1 _].
  unfold detect_pii, re_sub. now rewrite T1, T, S.
Qed.

Lemma X20_ssn_redacted_witness :
  @detect_pii ascii_runtime (s "ssn 123-45 6789.") =
    (s "ssn [REDACTED_SSN].",
     [s "Redacted potential Social Security Number"]).
Proof.
  apply (@X20_ssn_redacted ascii_runtime
           (s "ssn ") (s ".") (s "123") (s "45") (s "6789") (s "-") (s " "));
    try (vm_compute; reflexivity); apply none_of; vm_compute; reflexivity.
Defined.

(** ** Dates in a text *)

Section DateForward.
Context {R : PyRuntime}.

Lemma date_head (bef aft : str) (m : rmatch_obj) :
  match_here false date_pattern bef aft = Some m ->
  exists c rest, aft = c :: rest /\ is_digit c = true.
Proof.
  intros H. apply match_here_text in H as (st & E & _).
  unfold date_pattern, RepRange, digit in E. cbn [seqs Rep] in E.
  rewrite rmatch_Seq, rmatch_Group, !rmatch_Seq in E.
  apply rmatch_Cls in E as (c & rest & A & C & _). cbn [after] in A.
  exists c, rest. now rewrite <- in_class_digit.
Qed.

Lemma lit_passed (c : N) (bef rest : str) (cs : list (nat * str))
    (k : mstate -> option mstate) :
  rmatch false (Lit c) (MState bef (c :: rest) cs) k =
  k (MState (c :: bef) rest cs).
Proof.
  cbn [rmatch]. unfold step_char, char_eq. cbn [after before caps].
  now rewrite N.eqb_refl.
Qed.

(** A month or a day in front of a slash is taken whole by its group. *)
Lemma group_digits_passed (n : nat) (g bef rest : str)
    (cs : list (nat * str)) (k : mstate -> option mstate) (res : mstate) :
  digits 1 g = true \/ digits 2 g = true ->
  k (MState (rev g ++ bef) (47 :: rest) ((n, g) :: cs)) = Some res ->
  rmatch false (Group n (RepRange 1 2 digit))
         (MState bef (g ++ 47 :: rest) cs) k = Some res.
Proof.
  intros Hg K.
  unfold RepRange, digit, Opt. cbn [Nat.sub Rep UpTo]. unfold Opt.
  cbn [rmatch]. unfold step_char, close_group. cbn [after before caps length].
  replace (S (length bef) - length bef)%nat with 1%nat by lia.
  replace (S (S (length bef)) - length bef)%nat with 2%nat by lia.
  cbn [firstn rev app].
  destruct Hg as [Hg|Hg].
  - apply digits_head in Hg as (c1 & g' & -> & D1 & Hg).
    unfold digits in Hg. destruct g'; [|discriminate].
    cbn [app] in *. rewrite in_class_digit, D1.
    change (in_class false [CDigit] 47) with false. exact K.
  - apply digits_head in Hg as (c1 & g' & -> & D1 & Hg).
    apply digits_head in Hg as (c2 & g'' & -> & D2 & Hg).
    unfold digits in Hg. destruct g''; [|discriminate].
    cbn [app rev] in *. rewrite !in_class_digit, D1, D2.
    match goal with
    | |- match ?x with _ => _ end = _ => destruct x as [res0|] eqn:K'
    end.
    + exact (eq_trans (eq_sym K') K).
    + pose proof (eq_trans (eq_sym K') K). discriminate.
Qed.

Lemma year_passed (year bef post : str) (cs : list (nat * str)) :
  digits 2 year = true ->
  rmatch false (Group 3 (Alt (Rep 2 digit) (Rep 4 digit)))
         (MState bef (year ++ post) cs) Some =
  Some (MState (rev year ++ bef) post ((3%nat, year) :: cs)).
Proof.
  intros Hy.
  apply digits_head in Hy as (c1 & g' & -> & D1 & Hy).
  apply digits_head in Hy as (c2 & g'' & -> & D2 & Hy).
  unfold digits in Hy. destruct g''; [|discriminate].
  unfold digit. cbn [rmatch Rep app rev]. unfold step_char.
  cbn [after before caps]. rewrite !in_class_digit, D1, D2.
  unfold close_group. cbn [before after caps length].
  replace (S (S (length bef)) - length bef)%nat with 2%nat by lia.
  reflexivity.
Qed.

Lemma match_here_groups (r : regex) (bef t post : str)
    (cs : list (nat * str)) :
  rmatch false r (MState bef (t ++ post) []) Some =
    Some (MState (rev t ++ bef) post cs) ->
  match_here false r bef (t ++ post) = Some (MatchObj (length bef) t cs).
Proof.
  unfold match_here. intros ->. cbn [after caps].
  rewrite length_app, Nat.add_sub.
  now rewrite firstn_app, firstn_all, Nat.sub_diag, firstn_O, app_nil_r.
Qed.

(** The date pattern on a month, a day and two year digits: whatever
    follows, the match ends behind the second digit of the year. *)
Lemma date_match (bef post month day year : str) :
  digits 1 month = true \/ digits 2 month = true ->
  digits 1 day = true \/ digits 2 day = true ->
  digits 2 year = true ->
  let date := month ++ s "/" ++ day ++ s "/" ++ year in
  match_here false date_pattern bef (date ++ post) =
    Some (MatchObj (length bef) date
            [(3%nat, year); (2%nat, day); (1%nat, month)]).
Proof.
  intros Hm Hd Hy date. apply match_here_groups.
  unfold date. change (s "/") with [47]. rewrite <- !app_assoc.
  cbn [app]. unfold date_pattern. cbn [seqs]. rewrite rmatch_Seq.
  apply group_digits_passed; [exact Hm|].
  rewrite rmatch_Seq, lit_passed, rmatch_Seq.
  apply group_digits_passed; [exact Hd|].
  rewrite rmatch_Seq, lit_passed, year_passed by exact Hy.
  f_equal. f_equal.
  repeat (progress (rewrite ?rev_app_distr; cbn [rev app];
                    rewrite <- ?app_assoc)).
  reflexivity.
Qed.

(** What the first group and the slash behind it have passed. *)
Lemma month_slash_inv (bef aft : str) (m : rmatch_obj) :
  match_here false date_pattern bef aft = Some m ->
  exists g rest,
    aft = g ++ 47 :: rest /\ (digits 1 g = true \/ digits 2 g = true).
Proof.
  intros H. apply match_here_text in H as (st & E & _).
  unfold date_pattern, RepRange in E. cbn [seqs Nat.sub UpTo] in E.
  unfold Opt in E.
  rewrite rmatch_Seq, rmatch_Group, rmatch_Seq in E.
  apply rep_digits_inv in E as (g1 & st1 & G1 & A1 & E). cbn [after] in A1.
  apply rmatch_Alt in E as [E|E].
  - rewrite rmatch_Seq in E. unfold digit at 1 in E.
    apply rmatch_Cls in E as (c & rest & A & C & E).
    rewrite rmatch_Eps, rmatch_Seq in E.
    apply rmatch_Lit in E as (c' & rest' & A' & C' & _).
    cbn [after close_group] in A'. unfold char_eq in C'.
    apply N.eqb_eq in C'; subst c'.
    exists (g1 ++ [c]), rest'. split.
    + rewrite A1, A, A'. now rewrite <- app_assoc.
    + right. rewrite in_class_digit in C. unfold digits in *.
      apply andb_true_iff in G1 as [L G1]. apply Nat.eqb_eq in L.
      rewrite length_app, forallb_app, G1, L. cbn. now rewrite C.
  - rewrite rmatch_Eps, rmatch_Seq in E.
    apply rmatch_Lit in E as (c' & rest' & A' & C' & _).
    cbn [after close_group] in A'. unfold char_eq in C'.
    apply N.eqb_eq in C'; subst c'.
    exists g1, rest'. split; [now rewrite A1, A' | now left].
Qed.

(** No date begins at the last two digits of a year of four. *)
Lemma year_rest_no_date (bef rest2 post : str) :
  digits 2 rest2 = true ->
  (forall c, In c post -> is_digit c = false) ->
  starts_with (s "/") post = false ->
  match_here false date_pattern bef (rest2 ++ post) = None /\
  match_here false date_pattern (hd 0 rest2 :: bef) (tl rest2 ++ post) = None.
Proof.
  intros H2 Hpost Hs.
  apply digits_head in H2 as (c1 & g' & -> & D1 & H2).
  apply digits_head in H2 as (c2 & g'' & -> & D2 & H2).
  unfold digits in H2. destruct g''; [|discriminate].
  cbn [hd tl app].
  assert (S47 : is_digit 47 = false) by reflexivity.
  split.
  - destruct (match_here false date_pattern bef (c1 :: c2 :: post)) eqn:E;
      [|reflexivity].
    apply month_slash_inv in E as (g & rest & A & [G|G]).
    + apply digits_head in G as (d & g0 & -> & _ & G).
      unfold digits in G. destruct g0; [|discriminate].
      injection A as _ A. congruence.
    + apply digits_head in G as (d & g0 & -> & _ & G).
      apply digits_head in G as (d' & g1 & -> & _ & G).
      unfold digits in G. destruct g1; [|discriminate].
      injection A as _ _ A. rewrite A in Hs. discriminate.
  - destruct (match_here false date_pattern (c1 :: bef) (c2 :: post)) eqn:E;
      [|reflexivity].
    apply month_slash_inv in E as (g & rest & A & [G|G]).
    + apply digits_head in G as (d & g0 & -> & _ & G).
      unfold digits in G. destruct g0; [|discriminate].
      injection A as _ A. rewrite A in Hs. discriminate.
    + apply digits_head in G as (d & g0 & -> & _ & G).
      apply digits_head in G as (d' & g1 & -> & D' & G).
      unfold digits in G. destruct g1; [|discriminate].
      injection A as _ A. rewrite A in Hpost.
      rewrite (Hpost d') in D' by now left. discriminate.
Qed.

(** The result for a query with one date in it, when the text behind the
    match holds no further match. *)
Lemma date_rewrite (current_year : N) (pre post month day year : str) :
  (forall c, In c pre -> is_digit c = false) ->
  digits 1 month = true \/ digits 2 month = true ->
  digits 1 day = true \/ digits 2 day = true ->
  digits 2 year = true ->
  (forall bef repl,
     sub_from false date_pattern repl bef post 0 = post /\
     finditer_from false date_pattern bef post 0 = []) ->
  let date := month ++ s "/" ++ day ++ s "/" ++ year in
  let iso :=
    century current_year ++ year ++ s "-" ++ zfill 2 month ++ s "-" ++
    zfill 2 day in
  normalize_date_formats current_year (pre ++ date ++ post) =
    (pre ++ iso ++ post,
     [s "Normalized date format: " ++ zfill 2 month ++ s "/" ++
      zfill 2 day ++ s "/" ++ year ++ s " to " ++ iso]).
Proof.
  intros Hpre Hm Hd Hy Hpost date iso.
  pose proof (date_match (rev pre) post month day year Hm Hd Hy) as M.
  cbv zeta in M. fold date in M.
  set (m := MatchObj (length (rev pre)) date
              [(3%nat, year); (2%nat, day); (1%nat, month)]) in *.
  assert (Hn : date <> []).
  { unfold date. destruct Hm as [G|G];
      apply digits_head in G as (d & g' & -> & _); discriminate. }
  assert (L3 : length year = 2%nat).
  { unfold digits in Hy. apply andb_true_iff in Hy as [L _].
    now apply Nat.eqb_eq in L. }
  assert (I : date_iso current_year m = iso).
  { unfold date_iso, date_parts, group, m. cbn [m_groups group_lookup Nat.eqb].
    rewrite L3. cbn [Nat.eqb]. unfold iso. now rewrite <- app_assoc. }
  assert (F : date_fix current_year m =
              s "Normalized date format: " ++ zfill 2 month ++ s "/" ++
              zfill 2 day ++ s "/" ++ year ++ s " to " ++ iso).
  { unfold date_fix, date_parts, group, m. cbn [m_groups group_lookup Nat.eqb].
    rewrite L3. cbn [Nat.eqb].
    replace (last_n 2 (century current_year ++ year)) with year
      by (rewrite <- L3; symmetry; apply last_n_app).
    unfold iso. now rewrite <- !app_assoc. }
  unfold normalize_date_formats, re_sub_fn, re_finditer.
  rewrite (@scan_sub_prefix R false date_pattern is_digit date_head)
    by exact Hpre.
  rewrite (@scan_finditer_prefix R false date_pattern is_digit date_head)
    by exact Hpre.
  rewrite !app_nil_r.
  destruct (@scan_at_match R false date_pattern (date_iso current_year)
              date (rev pre) post m Hn eq_refl M) as [S1 S2].
  rewrite S1, S2.
  destruct (Hpost (rev date ++ rev pre) (date_iso current_year)) as [P1 P2].
  rewrite P1, P2. cbn [map]. now rewrite I, F.
Qed.

End DateForward.

(** X21: a date written as a month of one or two digits, a slash, a day of
    one or two digits, a slash and a year of two digits, standing in a
    query whose other text holds no digit, is replaced by the first two
    characters of the current year, the year, the month and the day (month
    and day padded with a zero to two digits, all joined by hyphens); the
    rest of the query is returned as it is and the fix list is the one
    record for this date. *)
Theorem X21_date_normalized (R : PyRuntime) (current_year : N)
    (pre post month day year : str) :
  (forall c, In c pre -> is_digit c = false) ->
  (forall c, In c post -> is_digit c = false) ->
  digits 1 month = true \/ digits 2 month = true ->
  digits 1 day = true \/ digits 2 day = true ->
  digits 2 year = true ->
  normalize_date_formats current_year
      (pre ++ (month ++ s "/" ++ day ++ s "/" ++ year) ++ post) =
    (pre ++
     (century current_year ++ year ++ s "-" ++ zfill 2 month ++ s "-" ++
      zfill 2 day) ++ post,
     [s "Normalized date format: " ++ zfill 2 month ++ s "/" ++
      zfill 2 day ++ s "/" ++ year ++ s " to " ++
      century current_year ++ year ++ s "-" ++ zfill 2 month ++ s "-" ++
      zfill 2 day]).
Proof.
  intros Hpre Hpost Hm Hd Hy.
  apply date_rewrite; auto.
  intros bef repl. split.
  - now apply (@scan_sub_rest R false date_pattern is_digit date_head).
  - now apply (@scan_finditer_rest R false date_pattern is_digit date_head).
Qed.

Lemma X21_date_normalized_witness :
  @normalize_date_formats ascii_runtime 2026 (s "due on 3/14/25, ok") =
    (s "due on 2025-03-14, ok",
     [s "Normalized date format: 03/14/25 to 2025-03-14"]).
Proof.
  apply (@X21_date_normalized ascii_runtime 2026
           (s "due on ") (s ", ok") (s "3") (s "14") (s "25")).
  - apply none_of. vm_compute. reflexivity.
  - apply none_of. vm_compute. reflexivity.
  - left. vm_compute. reflexivity.
  - right. vm_compute. reflexivity.
  - vm_compute. reflexivity.
Defined.

(** X22: a date with a year of four digits, standing in a query whose other
    text holds no digit (and with no slash right behind the year), is not
    recognized as such: the pattern takes the first two digits of the year
    only, so the date is rewritten with the century of the current year in
    front of these two digits, and the last two digits of the year are left
    standing behind the rewritten date. *)
Theorem X22_four_digit_year_cut (R : PyRuntime) (current_year : N)
    (pre post month day year year_rest : str) :
  (forall c, In c pre -> is_digit c = false) ->
  (forall c, In c post -> is_digit c = false) ->
  starts_with (s "/") post = false ->
  digits 1 month = true \/ digits 2 month = true ->
  digits 1 day = true \/ digits 2 day = true ->
  digits 2 year = true -> digits 2 year_rest = true ->
  normalize_date_formats current_year
      (pre ++ (month ++ s "/" ++ day ++ s "/" ++ year) ++
       year_rest ++ post) =
    (pre ++
     (century current_year ++ year ++ s "-" ++ zfill 2 month ++ s "-" ++
      zfill 2 day) ++ year_rest ++ post,
     [s "Normalized date format: " ++ zfill 2 month ++ s "/" ++
      zfill 2 day ++ s "/" ++ year ++ s " to " ++
      century current_year ++ year ++ s "-" ++ zfill 2 month ++ s "-" ++
      zfill 2 day]).
Proof.
  intros Hpre Hpost Hs Hm Hd Hy Hr.
  apply date_rewrite; auto.
  intros bef repl.
  destruct (year_rest_no_date bef year_rest post Hr Hpost Hs) as [N1 N2].
  apply digits_head in Hr as (c1 & g' & -> & _ & Hr).
  apply digits_head in Hr as (c2 & g'' & -> & _ & Hr).
  unfold digits in Hr. destruct g''; [|discriminate].
  cbn [hd tl app] in *. cbn [sub_from finditer_from]. rewrite N1, N2.
  rewrite (@scan_sub_rest R false date_pattern is_digit date_head)
    by exact Hpost.
  rewrite (@scan_finditer_rest R false date_pattern is_digit date_head)
    by exact Hpost.
  now split.
Qed.

Lemma X22_four_digit_year_cut_witness :
  @normalize_date_formats ascii_runtime 2026 (s "born 12/25/1999.") =
    (s "born 2019-12-2599.",
     [s "Normalized date format: 12/25/19 to 2019-12-25"]).
Proof.
  apply (@X22_four_digit_year_cut ascii_runtime 2026
           (s "born ") (s ".") (s "12") (s "25") (s "19") (s "99")).
  - apply none_of. vm_compute. reflexivity.
  - apply none_of. vm_compute. reflexivity.
  - vm_compute. reflexivity.
  - right. vm_compute. reflexivity.
  - right. vm_compute. reflexivity.
  - vm_compute. reflexivity.
  - vm_compute. reflexivity.
Defined.

(** ** Amounts in a text *)

Section Amounts.
Context {R : PyRuntime}.

Lemma symbol_class (c : N) :
  in_class false [CChar 36; CChar euro; CChar pound; CChar yen] c =
  is_currency_symbol c.
Proof.
  unfold in_class, in_item, existsb, char_eq, is_currency_symbol.
  rewrite orb_false_r, !orb_assoc.
  now rewrite (N.eqb_sym 36), (N.eqb_sym euro), (N.eqb_sym pound),
    (N.eqb_sym yen).
Qed.

Lemma currency_head (bef aft : str) (m : rmatch_obj) :
  match_here false currency_pattern bef aft = Some m ->
  exists c rest, aft = c :: rest /\ is_currency_symbol c = true.
Proof.
  intros H. apply match_here_text in H as (st & E & _).
  unfold currency_pattern in E. cbn [seqs] in E.
  rewrite rmatch_Seq in E.
  apply rmatch_Cls in E as (c & rest & A & C & _). cbn [after] in A.
  exists c, rest. now rewrite <- symbol_class.
Qed.

Lemma cls_passed (items : list citem) (c : N) (bef rest : str)
    (cs : list (nat * str)) (k : mstate -> option mstate) :
  in_class false items c = true ->
  rmatch false (Cls items) (MState bef (c :: rest) cs) k =
  k (MState (c :: bef) rest cs).
Proof.
  intros H. cbn [rmatch]. unfold step_char. cbn [after before caps].
  now rewrite H.
Qed.

Lemma cls_failed (items : list citem) (c : N) (bef rest : str)
    (cs : list (nat * str)) (k : mstate -> option mstate) :
  in_class false items c = false ->
  rmatch false (Cls items) (MState bef (c :: rest) cs) k = None.
Proof.
  intros H. cbn [rmatch]. unfold step_char. cbn [after before caps].
  now rewrite H.
Qed.

Lemma alt_first (a b : regex) (st res : mstate)
    (k : mstate -> option mstate) :
  rmatch false a st k = Some res -> rmatch false (Alt a b) st k = Some res.
Proof. intros H. cbn [rmatch]. now rewrite H. Qed.

Lemma alt_second (a b : regex) (st : mstate)
    (k : mstate -> option mstate) :
  rmatch false a st k = None ->
  rmatch false (Alt a b) st k = rmatch false b st k.
Proof. intros H. cbn [rmatch]. now rewrite H. Qed.

(** The leading digits of an amount, in front of a comma. *)
Lemma lead_passed (lead bef rest : str) (cs : list (nat * str))
    (k : mstate -> option mstate) (res : mstate) :
  digits 1 lead = true \/ digits 2 lead = true \/ digits 3 lead = true ->
  k (MState (rev lead ++ bef) (44 :: rest) cs) = Some res ->
  rmatch false (RepRange 1 3 digit) (MState bef (lead ++ 44 :: rest) cs) k
    = Some res.
Proof.
  intros Hl K. unfold RepRange. cbn [Nat.sub Rep UpTo]. unfold Opt.
  assert (F : in_class false [CDigit] 44 = false) by reflexivity.
  rewrite !rmatch_Seq. unfold digit.
  destruct Hl as [H|[H|H]].
  - apply digits_head in H as (c1 & g & -> & D1 & H).
    unfold digits in H. destruct g; [|discriminate]. cbn [app rev] in *.
    rewrite cls_passed by now rewrite in_class_digit.
    rewrite rmatch_Eps, alt_second; [now rewrite rmatch_Eps|].
    rewrite rmatch_Seq. now apply cls_failed.
  - apply digits_head in H as (c1 & g & -> & D1 & H).
    apply digits_head in H as (c2 & g' & -> & D2 & H).
    unfold digits in H. destruct g'; [|discriminate]. cbn [app rev] in *.
    rewrite cls_passed by now rewrite in_class_digit.
    rewrite rmatch_Eps. apply alt_first.
    rewrite rmatch_Seq, cls_passed by now rewrite in_class_digit.
    rewrite alt_second; [now rewrite rmatch_Eps|].
    rewrite rmatch_Seq. now apply cls_failed.
  - apply digits_head in H as (c1 & g & -> & D1 & H).
    apply digits_head in H as (c2 & g' & -> & D2 & H).
    apply digits_head in H as (c3 & g'' & -> & D3 & H).
    unfold digits in H. destruct g''; [|discriminate]. cbn [app rev] in *.
    rewrite cls_passed by now rewrite in_class_digit.
    rewrite rmatch_Eps. apply alt_first.
    rewrite rmatch_Seq, cls_passed by now rewrite in_class_digit.
    apply alt_first.
    rewrite rmatch_Seq, cls_passed by now rewrite in_class_digit.
    now rewrite !rmatch_Eps.
Qed.

(** A group of thousands needs a comma and a digit. *)
Lemma thousands_inv (st res : mstate) (k : mstate -> option mstate) :
  rmatch false thousands st k = Some res ->
  exists d rest, after st = 44 :: d :: rest /\ is_digit d = true.
Proof.
  unfold thousands. rewrite rmatch_Seq. intros H.
  apply rmatch_Lit in H as (c & rest & A & C & H).
  unfold char_eq in C. apply N.eqb_eq in C; subst c.
  apply rep_digits_inv in H as (g & st' & G & A' & _). cbn [after] in A'.
  apply digits_head in G as (d & g' & -> & D & _).
  exists d, (g' ++ after st'). now rewrite A, A'.
Qed.

(** The loop over the groups of thousands runs to the end of the last
    one, if no further group follows. *)
Lemma thousands_loop (groups : list str) :
  (forall g, In g groups -> digits 3 g = true) ->
  forall (fuel : nat) (bef rest : str) (cs : list (nat * str))
         (k : mstate -> option mstate) (res : mstate),
    (length (comma_groups groups ++ rest) <= fuel)%nat ->
    (forall b c K, rmatch false thousands (MState b rest c) K = None) ->
    k (MState (rev (comma_groups groups) ++ bef) rest cs)
      = Some res ->
    star_loop (rmatch false thousands) k fuel
      (MState bef (comma_groups groups ++ rest) cs)
      = Some res.
Proof.
  induction groups as [|g groups IH]; intros Hg fuel bef rest cs k res Hf Hr K.
  - unfold comma_groups in *. cbn [flat_map app rev] in *.
    destruct fuel; cbn [star_loop]; [exact K|]. now rewrite Hr.
  - unfold comma_groups in *. cbn [flat_map app] in *.
    fold (comma_groups groups) in *. rewrite <- app_assoc in *.
    assert (G : digits 3 g = true) by (apply Hg; now left).
    destruct fuel as [|fuel]; [simpl in Hf; lia|].
    cbn [star_loop]. unfold thousands at 1.
    rewrite rmatch_Seq, lit_passed, rep_digits by exact G.
    cbn [after length].
    assert (L : (length (comma_groups groups ++ rest) <?
                 S (length (g ++ comma_groups groups ++ rest)))%nat
                = true).
    { apply Nat.ltb_lt. rewrite (length_app g). lia. }
    rewrite L.
    rewrite (IH (fun g0 H0 => Hg g0 (or_intror H0)) fuel _ rest cs k res);
      [reflexivity | | exact Hr |].
    + cbn [length] in Hf. rewrite (length_app g) in Hf. lia.
    + rewrite <- K. f_equal. f_equal. cbn [rev].
      rewrite rev_app_distr, <- !app_assoc. reflexivity.
Qed.

(** The loop over the digits of the decimal part. *)
Lemma digits_loop (ds : str) :
  forallb is_digit ds = true ->
  forall (fuel : nat) (bef rest : str) (cs : list (nat * str))
         (k : mstate -> option mstate) (res : mstate),
    (length (ds ++ rest) <= fuel)%nat ->
    match rest with d :: _ => is_digit d = false | [] => True end ->
    k (MState (rev ds ++ bef) rest cs) = Some res ->
    star_loop (rmatch false digit) k fuel (MState bef (ds ++ rest) cs)
      = Some res.
Proof.
  induction ds as [|d ds IH]; intros Hd fuel bef rest cs k res Hf Hr K.
  - cbn [app rev] in *.
    destruct fuel; cbn [star_loop]; [exact K|].
    unfold digit. destruct rest as [|c rest].
    + cbn [rmatch]. unfold step_char. cbn [after]. exact K.
    + rewrite cls_failed by now rewrite in_class_digit. exact K.
  - cbn [forallb] in Hd. apply andb_true_iff in Hd as [D Hd].
    destruct fuel as [|fuel]; [simpl in Hf; lia|].
    cbn [app star_loop]. unfold digit at 1.
    rewrite cls_passed by now rewrite in_class_digit.
    cbn [after length].
    assert (L : (length (ds ++ rest) <? S (length (ds ++ rest)))%nat = true)
      by (apply Nat.ltb_lt; lia).
    rewrite L.
    rewrite (IH Hd fuel (d :: bef) rest cs k res); [reflexivity | | exact Hr |].
    + cbn [app length] in Hf. lia.
    + rewrite <- K. cbn [rev]. now rewrite <- app_assoc.
Qed.

Lemma rmatch_Star (a : regex) (st : mstate) (k : mstate -> option mstate) :
  rmatch false (Star a) st k =
  star_loop (rmatch false a) k (length (after st)) st.
Proof. reflexivity. Qed.

Lemma thousands_fail (dec post : str) :
  decimal_part dec = true ->
  (forall c, In c post -> is_digit c = false) ->
  forall b c K, rmatch false thousands (MState b (dec ++ post) c) K = None.
Proof.
  intros Hd Hp b c K.
  destruct (rmatch false thousands _ K) eqn:E; [|reflexivity].
  apply thousands_inv in E as (d & rest & A & D). cbn [after] in A.
  destruct dec as [|e ds].
  - cbn [app] in A. rewrite (Hp d) in D; [discriminate|].
    rewrite A. right. now left.
  - cbn [decimal_part app] in *. injection A as -> _. discriminate.
Qed.

Lemma decimal_fail (post b : str) (c : list (nat * str)) :
  (forall c, In c post -> is_digit c = false) ->
  rmatch false (Seq (Lit 46) (Plus digit)) (MState b post c) Some = None.
Proof.
  intros Hp.
  destruct (rmatch false _ _ Some) eqn:E; [|reflexivity].
  rewrite rmatch_Seq in E.
  apply rmatch_Lit in E as (c0 & rest & A & _ & E).
  unfold Plus, digit in E. rewrite rmatch_Seq in E.
  apply rmatch_Cls in E as (d & rest' & A' & D & _).
  cbn [after] in A, A'. rewrite in_class_digit in D.
  rewrite (Hp d) in D; [discriminate|]. rewrite A, A'. right. now left.
Qed.

(** The optional decimal part is taken when it is there. *)
Lemma decimal_passed (dec post b : str) (c : list (nat * str)) :
  decimal_part dec = true ->
  (forall c, In c post -> is_digit c = false) ->
  rmatch false (Opt (Seq (Lit 46) (Plus digit))) (MState b (dec ++ post) c)
    Some = Some (MState (rev dec ++ b) post c).
Proof.
  intros Hd Hp. destruct dec as [|e ds].
  - unfold Opt. rewrite alt_second by now apply decimal_fail.
    now rewrite rmatch_Eps.
  - cbn [decimal_part] in Hd. apply andb_true_iff in Hd as [Hd Hds].
    apply andb_true_iff in Hd as [He Hlen].
    apply N.eqb_eq in He; subst e.
    destruct ds as [|d ds]; [discriminate|].
    cbn [forallb] in Hds. apply andb_true_iff in Hds as [D Hds].
    unfold Opt. apply alt_first. cbn [app].
    rewrite rmatch_Seq, lit_passed. unfold Plus, digit at 1.
    rewrite rmatch_Seq, cls_passed by now rewrite in_class_digit.
    rewrite rmatch_Star. cbn [after].
    apply digits_loop; [exact Hds | apply le_n | |].
    + destruct post as [|c0 post]; [exact I|]. apply Hp. now left.
    + f_equal. f_equal. cbn [rev]. now rewrite <- !app_assoc.
Qed.

(** The currency pattern on an amount with groups of thousands. *)
Lemma currency_match (bef post : str) (sym : N) (lead : str)
    (groups : list str) (dec : str) :
  is_currency_symbol sym = true ->
  digits 1 lead = true \/ digits 2 lead = true \/ digits 3 lead = true ->
  groups <> [] -> (forall g, In g groups -> digits 3 g = true) ->
  decimal_part dec = true ->
  (forall c, In c post -> is_digit c = false) ->
  exists res,
    rmatch false currency_pattern
      (MState bef ((sym :: lead ++ comma_groups groups ++ dec) ++ post) [])
      Some = Some res /\
    after res = post.
Proof.
  intros Hs Hl Hn Hg Hd Hp.
  destruct groups as [|g groups]; [congruence|].
  assert (G : digits 3 g = true) by (apply Hg; now left).
  unfold comma_groups. cbn [flat_map]. fold (comma_groups groups).
  cbn [app]. rewrite <- !app_assoc. cbn [app]. rewrite <- !app_assoc.
  eexists. split.
  - unfold currency_pattern. cbn [seqs].
    rewrite rmatch_Seq, cls_passed by now rewrite symbol_class.
    rewrite rmatch_Seq, rmatch_Group. apply alt_first.
    rewrite rmatch_Seq. apply lead_passed; [exact Hl|].
    unfold Plus. fold thousands. unfold thousands at 1.
    rewrite !rmatch_Seq, lit_passed, rep_digits by exact G.
    rewrite rmatch_Star. cbn [after].
    apply thousands_loop;
      [intros g0 H0; apply Hg; now right | apply le_n
       | now apply thousands_fail |].
    unfold close_group. cbn [before after caps]. apply decimal_passed; auto.
  - reflexivity.
Qed.

Lemma match_here_some (r : regex) (bef t post : str) (res : mstate) :
  rmatch false r (MState bef (t ++ post) []) Some = Some res ->
  after res = post ->
  match_here false r bef (t ++ post) =
    Some (MatchObj (length bef) t (caps res)).
Proof.
  unfold match_here. intros -> ->.
  rewrite length_app, Nat.add_sub.
  now rewrite firstn_app, firstn_all, Nat.sub_diag, firstn_O, app_nil_r.
Qed.

Lemma digit_not_comma (c : N) : is_digit c = true -> not_comma c = true.
Proof.
  unfold not_comma. destruct (N.eqb_spec c 44) as [->|]; [|reflexivity].
  discriminate.
Qed.

Lemma digits_no_comma (n : nat) (g : str) :
  digits n g = true -> filter not_comma g = g.
Proof.
  unfold digits. intros H. apply andb_true_iff in H as [_ H].
  rewrite forallb_forall in H. apply filter_all.
  intros c Hc. apply digit_not_comma, H, Hc.
Qed.

Lemma comma_groups_plain (groups : list str) :
  (forall g, In g groups -> digits 3 g = true) ->
  filter not_comma (comma_groups groups) = concat groups.
Proof.
  induction groups as [|g groups IH]; intros Hg; [reflexivity|].
  unfold comma_groups in *. cbn [flat_map concat app filter].
  change (not_comma 44) with false. cbv iota.
  rewrite filter_app, IH by (intros g0 H0; apply Hg; now right).
  now rewrite (@digits_no_comma 3 g) by (apply Hg; now left).
Qed.

Lemma decimal_no_comma (dec : str) :
  decimal_part dec = true -> filter not_comma dec = dec.
Proof.
  destruct dec as [|e ds]; [reflexivity|]. cbn [decimal_part filter].
  intros H. apply andb_true_iff in H as [H Hds].
  apply andb_true_iff in H as [He _]. apply N.eqb_eq in He; subst e.
  change (not_comma 46) with true. cbv iota. f_equal.
  rewrite forallb_forall in Hds. apply filter_all.
  intros c Hc. apply digit_not_comma, Hds, Hc.
Qed.

End Amounts.

(** X23: an amount written as a currency symbol ($, euro, pound or yen),
    one to three digits, one or more groups of a comma and three digits,
    and possibly a point and digits, standing in a query whose text in
    front of it holds no currency symbol and whose text behind it holds
    neither a currency symbol nor a digit, is replaced by the same amount
    without its commas; the rest of the query is returned as it is and the
    fix list is the one record for this amount. *)
Theorem X23_amount_normalized (R : PyRuntime) (pre post : str) (sym : N)
    (lead : str) (groups : list str) (dec : str) :
  (forall c, In c pre -> is_currency_symbol c = false) ->
  (forall c, In c post -> is_currency_symbol c = false) ->
  (forall c, In c post -> is_digit c = false) ->
  is_currency_symbol sym = true ->
  digits 1 lead = true \/ digits 2 lead = true \/ digits 3 lead = true ->
  groups <> [] -> (forall g, In g groups -> digits 3 g = true) ->
  decimal_part dec = true ->
  let amount := sym :: lead ++ comma_groups groups ++ dec in
  let plain := sym :: lead ++ concat groups ++ dec in
  normalize_numeric_values (pre ++ amount ++ post) =
    (pre ++ plain ++ post,
     [s "Normalized currency value: " ++ amount ++ s " to " ++ plain]).
Proof.
  intros Hpre Hpost Hpd Hs Hl Hn Hg Hd amount plain.
  destruct (@currency_match R (rev pre) post sym lead groups dec
              Hs Hl Hn Hg Hd Hpd) as (res & E & A).
  fold amount in E.
  pose proof (@match_here_some R currency_pattern (rev pre) amount post res
                E A) as M.
  set (m := MatchObj (length (rev pre)) amount (caps res)) in *.
  assert (P : currency_plain m = plain).
  { rewrite currency_plain_filter. unfold m, amount, plain.
    cbn [m_text firstn skipn app]. f_equal.
    rewrite !filter_app, (@comma_groups_plain R groups Hg),
      (@decimal_no_comma R dec Hd).
    destruct Hl as [H|[H|H]]; now rewrite (@digits_no_comma R _ lead H). }
  unfold normalize_numeric_values, re_sub_fn, re_finditer.
  rewrite (@scan_sub_prefix R false currency_pattern is_currency_symbol
             currency_head) by exact Hpre.
  rewrite (@scan_finditer_prefix R false currency_pattern is_currency_symbol
             currency_head) by exact Hpre.
  rewrite !app_nil_r.
  destruct (@scan_at_match R false currency_pattern currency_plain
              amount (rev pre) post m) as [S1 S2];
    [discriminate | reflexivity | exact M |].
  rewrite S1, S2.
  rewrite (@scan_sub_rest R false currency_pattern is_currency_symbol
             currency_head) by exact Hpost.
  rewrite (@scan_finditer_rest R false currency_pattern is_currency_symbol
             currency_head) by exact Hpost.
  cbn [map]. unfold currency_fix. rewrite P. reflexivity.
Qed.

Lemma X23_amount_normalized_witness :
  @normalize_numeric_values ascii_runtime
     (s "costs " ++ [euro] ++ s "12,345,678.50 in total") =
    (s "costs " ++ [euro] ++ s "12345678.50 in total",
     [s "Normalized currency value: " ++ [euro] ++ s "12,345,678.50 to " ++
      [euro] ++ s "12345678.50"]).
Proof.
  apply (@X23_amount_normalized ascii_runtime (s "costs ") (s " in total")
           euro (s "12") [s "345"; s "678"] (s ".50")).
  - apply none_of. vm_compute. reflexivity.
  - apply none_of. vm_compute. reflexivity.
  - apply none_of. vm_compute. reflexivity.
  - vm_compute. reflexivity.
  - right. left. vm_compute. reflexivity.
  - discriminate.
  - intros g [<-|[<-|[]]]; vm_compute; reflexivity.
  - vm_compute. reflexivity.
Defined.

(** ** A typo in a text *)

Section TypoInText.
Context {R : PyRuntime}.

Lemma word_at_rev_cons (c : N) (u : str) :
  u <> [] -> word_at (rev (c :: u)) = word_at (rev u).
Proof.
  intros H. cbn [rev]. destruct (rev u) eqn:E; [|reflexivity].
  apply (f_equal (@rev N)) in E. rewrite rev_involutive in E.
  cbn [rev] in E. congruence.
Qed.

Lemma has_nil (w : str) (q : bool) : w <> [] -> has w q [] = false.
Proof.
  intros H. destruct w; [congruence|]. unfold has, occ. cbn [tail_occ].
  now rewrite andb_false_r.
Qed.

(** Inside a text that ends with a character that is not a word
    character, a word of letters is found or not whatever follows the
    text. *)
Lemma tail_occ_inside (r u x : str) (q : bool) :
  letters_only r = true -> u <> [] -> word_at (rev u) = false ->
  tail_occ r q (u ++ x) = tail_occ r q u.
Proof.
  revert q u; induction r as [|p r IH]; intros q u Hr Hu Hw.
  - destruct u as [|c u]; [congruence|]. reflexivity.
  - destruct u as [|c u]; [congruence|]. cbn [app tail_occ].
    cbn [letters_only forallb] in Hr. apply andb_true_iff in Hr as [Hp Hr].
    destruct (char_eq true p c) eqn:C; [|reflexivity]. cbn [andb].
    assert (Wc : is_word c = true).
    { rewrite (@char_eq_plain_word R p c); [exact Hp | | exact C].
      unfold plain. now rewrite Hp. }
    destruct u as [|d u].
    + cbn [rev app word_at] in Hw. congruence.
    + apply IH; [exact Hr | discriminate |].
      now rewrite <- (@word_at_rev_cons c (d :: u)) by discriminate.
Qed.

Lemma occ_inside (w u x : str) (q : bool) :
  letters_only w = true -> u <> [] -> word_at (rev u) = false ->
  occ w q (u ++ x) = occ w q u.
Proof.
  intros Hw Hu Hr. unfold occ. rewrite tail_occ_inside by assumption.
  destruct u; [congruence | reflexivity].
Qed.

Lemma has_inside (w x : str) :
  letters_only w = true -> w <> [] ->
  forall (u : str) (q : bool),
    u <> [] -> word_at (rev u) = false ->
    has w q (u ++ x) = has w q u || has w false x.
Proof.
  intros Hw Hn. induction u as [|c u IH]; intros q Hu Hr; [congruence|].
  change ((c :: u) ++ x) with (c :: u ++ x) at 1. cbn [has].
  change (c :: u ++ x) with ((c :: u) ++ x).
  rewrite occ_inside by assumption. rewrite <- orb_assoc. f_equal.
  destruct u as [|d u].
  - cbn [rev app word_at] in Hr. rewrite Hr. cbn [app].
    now rewrite has_nil.
  - apply IH; [discriminate|].
    now rewrite <- (@word_at_rev_cons c (d :: u)) by discriminate.
Qed.

Lemma filt_inside (w repl x : str) :
  letters_only w = true ->
  forall (u : str) (q : bool),
    u <> [] -> word_at (rev u) = false -> has w q u = false ->
    filt w repl q (u ++ x) 0 = u ++ filt w repl false x 0.
Proof.
  intros Hw. induction u as [|c u IH]; intros q Hu Hr Hh; [congruence|].
  cbn [has] in Hh. apply orb_false_iff in Hh as [Ho Hh].
  change ((c :: u) ++ x) with (c :: u ++ x) at 1. cbn [filt].
  change (c :: u ++ x) with ((c :: u) ++ x).
  rewrite occ_inside, Ho by assumption. cbn [app]. f_equal.
  destruct u as [|d u].
  - cbn [rev app word_at] in Hr. now rewrite Hr.
  - apply IH; [discriminate | | exact Hh].
    now rewrite <- (@word_at_rev_cons c (d :: u)) by discriminate.
Qed.

Lemma filt_absent (w repl : str) (x : str) (q : bool) :
  has w q x = false -> filt w repl q x 0 = x.
Proof.
  revert q; induction x as [|c x IH]; intros q H; [reflexivity|].
  cbn [has] in H. apply orb_false_iff in H as [Ho Hh].
  cbn [filt]. rewrite Ho. f_equal. now apply IH.
Qed.

Lemma same_word_length (w W : str) :
  same_word w W = true -> length W = length w.
Proof.
  revert W; induction w as [|p w IH]; intros [|c W] H; try discriminate;
    [reflexivity|].
  cbn [same_word] in H. apply andb_true_iff in H as [_ H].
  cbn [length]. f_equal. now apply IH.
Qed.

Lemma tail_occ_same (w W post : str) (q : bool) :
  same_word w W = true -> letters_only w = true ->
  word_at post = false -> (w = [] -> q = true) ->
  tail_occ w q (W ++ post) = true.
Proof.
  revert W q; induction w as [|p w IH]; intros [|c W] q H Hl Hp Hq;
    try discriminate.
  - cbn [app tail_occ]. rewrite Hp, (Hq eq_refl). reflexivity.
  - cbn [same_word] in H. apply andb_true_iff in H as [C H].
    cbn [letters_only forallb] in Hl. apply andb_true_iff in Hl as [Lp Hl].
    cbn [app tail_occ]. rewrite C. cbn [andb].
    apply IH; [exact H | exact Hl | exact Hp |]. intros _.
    rewrite (@char_eq_plain_word R p c); [exact Lp | | exact C].
    unfold plain. now rewrite Lp.
Qed.

Lemma occ_same (w W post : str) :
  same_word w W = true -> letters_only w = true -> w <> [] ->
  word_at post = false -> occ w false (W ++ post) = true.
Proof.
  intros H Hl Hn Hp. unfold occ.
  rewrite (@tail_occ_same w W post false H Hl Hp) by (intros E; congruence).
  destruct w as [|p w]; [congruence|]. destruct W as [|c W]; [discriminate|].
  cbn [same_word] in H. apply andb_true_iff in H as [C _].
  cbn [letters_only forallb] in Hl. apply andb_true_iff in Hl as [Lp _].
  cbn [app word_at].
  rewrite (@char_eq_plain_word R p c); [now rewrite Lp | | exact C].
  unfold plain. now rewrite Lp.
Qed.

(** The loop over a table in which one word only is found in the text. *)
Lemma fold_single (w corr : str) (todo : list (str * str)) (cur : str)
    (fx : list fix_record) :
  has w false cur = true ->
  (forall e, In e todo -> fst e = w -> snd e = corr) ->
  (forall e, In e todo -> fst e <> w -> has (fst e) false cur = false) ->
  (forall e, In e todo ->
             has (fst e) false (filt w corr false cur 0) = false) ->
  fold_left typo_step_text todo (cur, fx) =
  if existsb (str_eqb w) (map fst todo)
  then (filt w corr false cur 0, fx ++ [typo_fix w corr])
  else (cur, fx).
Proof.
  intros Hw. induction todo as [|e todo IH]; intros Hk Ha Hb; [reflexivity|].
  cbn [fold_left map existsb].
  destruct (str_eqb w (fst e)) eqn:E.
  - apply str_eqb_eq in E. cbn [orb].
    assert (Ec : snd e = corr) by (apply Hk; [now left | now rewrite E]).
    unfold typo_step_text at 2. cbn [fst snd]. rewrite <- E, Hw, Ec.
    apply fold_step_noop. intros e' He'. unfold typo_step_text. cbn [fst snd].
    now rewrite (Hb e') by now right.
  - cbn [orb]. unfold typo_step_text at 2. cbn [fst snd].
    rewrite (Ha e) by
      (try (now left); intros F; rewrite F, str_eqb_refl in E; discriminate).
    apply IH.
    + intros e' He'. apply Hk. now right.
    + intros e' He'. apply Ha. now right.
    + intros e' He'. apply Hb. now right.
Qed.

Lemma distinct_keys (l : list (str * str)) (a b : str * str) :
  distinct (map fst l) = true -> In a l -> In b l -> fst b = fst a ->
  snd b = snd a.
Proof.
  induction l as [|h l IH]; intros D H1 H2 Hk; [destruct H1|].
  cbn [map distinct] in D. apply andb_true_iff in D as [Dn D].
  apply negb_true_iff in Dn.
  assert (X : forall c, In c l -> str_eqb (fst h) (fst c) = false).
  { intros c Hc. destruct (str_eqb (fst h) (fst c)) eqn:E; [|reflexivity].
    assert (existsb (str_eqb (fst h)) (map fst l) = true).
    { apply existsb_exists. exists (fst c). split; [now apply in_map|exact E]. }
    congruence. }
  destruct H1 as [H1|H1], H2 as [H2|H2].
  - subst a. subst b. reflexivity.
  - subst a. apply X in H2. rewrite Hk, str_eqb_refl in H2. discriminate.
  - subst b. apply X in H1. rewrite <- Hk, str_eqb_refl in H1. discriminate.
  - now apply IH.
Qed.

End TypoInText.


Section TypoCorrected.
Context {R : PyRuntime}.
Variable entries : list (str * str).
Hypothesis entries_ok : table_ok entries = true.
Hypothesis entries_letters :
  forallb (fun e => letters_only (fst e)) entries = true.

Lemma entry_plain (e : str * str) :
  In e entries -> plain_word (fst e) = true.
Proof.
  intros He. pose proof entries_ok as H. unfold table_ok in H.
  apply andb_true_iff in H as [_ H]. rewrite forallb_forall in H.
  specialize (H e He). apply andb_true_iff in H as [H _].
  now apply andb_true_iff in H as [H _].
Qed.

Lemma entry_letters (e : str * str) :
  In e entries -> letters_only (fst e) = true.
Proof.
  intros He. pose proof entries_letters as H. rewrite forallb_forall in H.
  exact (H e He).
Qed.

Lemma entry_not_nil (e : str * str) : In e entries -> fst e <> [].
Proof.
  intros He. destruct (plain_word_parts _ (@entry_plain _ He))
    as (p & r & E & _). rewrite E. discriminate.
Qed.

Lemma entry_safe (e e' : str * str) :
  In e entries -> In e' entries -> fst e' <> fst e ->
  safe (fst e') (fst e) false = true.
Proof.
  intros He He' Hd. pose proof entries_ok as H. unfold table_ok in H.
  apply andb_true_iff in H as [_ H]. rewrite forallb_forall in H.
  specialize (H e He). apply andb_true_iff in H as [_ H].
  rewrite forallb_forall in H. specialize (H e' He').
  apply andb_true_iff in H as [H _]. apply andb_true_iff in H as [_ H].
  apply orb_true_iff in H as [H|H]; [|exact H].
  apply str_eqb_eq in H. exfalso. apply Hd. exact H.
Qed.

Variables (pre post written : str) (e : str * str).
Hypothesis e_in : In e entries.
Hypothesis written_ok : same_word (fst e) written = true.
Hypothesis pre_end : word_at (rev pre) = false.
Hypothesis post_head : word_at post = false.
Hypothesis pre_clean :
  forall e', In e' entries -> has (fst e') false pre = false.
Hypothesis post_clean :
  forall e', In e' entries -> has (fst e') false post = false.

Lemma written_rest : skipn (length (fst e)) (written ++ post) = post.
Proof.
  rewrite <- (@same_word_length R _ _ written_ok).
  now rewrite skipn_app, skipn_all, Nat.sub_diag.
Qed.

Lemma written_occ : occ (fst e) false (written ++ post) = true.
Proof.
  apply occ_same; [exact written_ok | exact (@entry_letters _ e_in) |
                   exact (@entry_not_nil _ e_in) | exact post_head].
Qed.

Lemma written_has : has (fst e) false (pre ++ written ++ post) = true.
Proof.
  assert (H : has (fst e) false (written ++ post) = true).
  { destruct (written ++ post) eqn:E; cbn [has]; rewrite <- ?E;
      now rewrite written_occ. }
  destruct pre as [|c u] eqn:Ep; [exact H|]. rewrite <- Ep in *.
  rewrite has_inside;
    [ | exact (@entry_letters _ e_in) | exact (@entry_not_nil _ e_in)
      | rewrite Ep; discriminate | exact pre_end ].
  rewrite H. apply orb_true_r.
Qed.

Lemma other_absent (e' : str * str) :
  In e' entries -> fst e' <> fst e ->
  has (fst e') false (pre ++ written ++ post) = false.
Proof.
  intros He' Hd.
  assert (H : has (fst e') false (written ++ post) = false).
  { destruct (@filt_at_occ R (fst e) [] false (written ++ post)
                (@entry_plain _ e_in) written_occ)
      as (_ & T & _).
    rewrite (@has_skip R (fst e') (fst e) false (written ++ post)
               (plain_word_plain _ (@entry_plain _ e_in)) (@entry_plain _ He')
               (@entry_safe _ _ e_in He' Hd) T).
    rewrite written_rest.
    rewrite (@has_nonword_head R (fst e') _ false post (@entry_plain _ He')
               post_head).
    now apply post_clean. }
  destruct pre as [|c u] eqn:Ep; [exact H|]. rewrite <- Ep in *.
  rewrite has_inside;
    [ | exact (@entry_letters _ He') | exact (@entry_not_nil _ He')
      | rewrite Ep; discriminate | exact pre_end ].
  rewrite H, (pre_clean _ He'). reflexivity.
Qed.

Lemma written_replaced :
  filt (fst e) (snd e) false (pre ++ written ++ post) 0 =
  pre ++ snd e ++ post.
Proof.
  assert (H : filt (fst e) (snd e) false (written ++ post) 0 =
              snd e ++ post).
  { destruct (@filt_at_occ R (fst e) (snd e) false (written ++ post)
                (@entry_plain _ e_in) written_occ)
      as (_ & _ & _ & F).
    rewrite F, written_rest. f_equal. apply filt_absent.
    rewrite (@has_nonword_head R (fst e) true false post (@entry_plain _ e_in)
               post_head).
    now apply post_clean. }
  destruct pre as [|c u] eqn:Ep; [exact H|]. rewrite <- Ep in *.
  rewrite filt_inside;
    [ | exact (@entry_letters _ e_in) | rewrite Ep; discriminate
      | exact pre_end | exact (pre_clean _ e_in) ].
  now rewrite H.
Qed.

(** The loop of [fix_typos] over a table, on a text that holds one typo of
    the table. *)
Lemma fold_typo_corrected :
  fold_left typo_step_text entries (pre ++ written ++ post, []) =
  (pre ++ snd e ++ post, [typo_fix (fst e) (snd e)]).
Proof.
  pose proof entries_ok as D. unfold table_ok in D.
  apply andb_true_iff in D as [D _].
  assert (X : existsb (str_eqb (fst e)) (map fst entries) = true).
  { apply existsb_exists. exists (fst e). split;
      [now apply in_map | apply str_eqb_refl]. }
  etransitivity.
  - apply (@fold_single R (fst e) (snd e)); [exact written_has | | |].
    + intros e' He' Hk.
      exact (@distinct_keys entries e e' D e_in He' Hk).
    + intros e' He' Hd. now apply other_absent.
    + intros e' He'.
      pose proof (@typo_step_word R entries entries_ok e e'
                    (pre ++ written ++ post) [] e_in He') as K.
      unfold typo_step_text in K. cbn [fst snd] in K.
      rewrite written_has in K. cbn [fst] in K. rewrite K.
      destruct (str_eqb (fst e') (fst e)) eqn:Eq; [reflexivity|].
      apply other_absent; [exact He'|]. intros F.
      rewrite F, str_eqb_refl in Eq. discriminate.
  - rewrite X, written_replaced. reflexivity.
Qed.

End TypoCorrected.

Lemma common_typos_letters :
  forallb (fun e => letters_only (fst e)) common_typos = true.
Proof. vm_compute. reflexivity. Qed.

(** X24: a typo of the table written in any letter case, standing between
    a text that does not end with a word character and a text that does
    not begin with one, neither of which holds a typo of the table as a
    whole word, is replaced by its correction in the letter case of the
    table; the texts around it are returned as they are, and the one
    record names the typo as the table spells it, not as it was written. *)
Theorem X24_typo_corrected (R : PyRuntime)
    (pre post typo correction written : str) :
  In (typo, correction) common_typos ->
  same_word typo written = true ->
  word_at (rev pre) = false ->
  word_at post = false ->
  (forall t c, In (t, c) common_typos ->
     re_test true (whole_word t) pre = false) ->
  (forall t c, In (t, c) common_typos ->
     re_test true (whole_word t) post = false) ->
  fix_typos (pre ++ written ++ post) =
  (pre ++ correction ++ post,
   [s "Corrected typo: '" ++ typo ++ s "' to '" ++ correction ++ s "'"]).
Proof.
  intros He Hw Hpre Hpost Cpre Cpost. rewrite fix_typos_text.
  apply (@fold_typo_corrected R common_typos (common_typos_table_ok R)
           common_typos_letters pre post written (typo, correction) He Hw
           Hpre Hpost).
  - intros [t c] Ht. rewrite <- re_test_whole_word. exact (Cpre t c Ht).
  - intros [t c] Ht. rewrite <- re_test_whole_word. exact (Cpost t c Ht).
Qed.

Lemma X24_typo_corrected_witness :
  @fix_typos ascii_runtime (s "check my " ++ s "Clendar" ++ s ", please") =
  (s "check my " ++ s "calendar" ++ s ", please",
   [s "Corrected typo: '" ++ s "clendar" ++ s "' to '" ++ s "calendar"
      ++ s "'"]).
Proof.
  apply (@X24_typo_corrected ascii_runtime).
  - left. reflexivity.
  - vm_compute. reflexivity.
  - vm_compute. reflexivity.
  - vm_compute. reflexivity.
  - intros t c H.
    assert (A : forallb (fun e => negb (@re_test ascii_runtime true
                  (whole_word (fst e)) (s "check my "))) common_typos = true)
      by (vm_compute; reflexivity).
    rewrite forallb_forall in A. specialize (A _ H).
    now apply negb_true_iff in A.
  - intros t c H.
    assert (A : forallb (fun e => negb (@re_test ascii_runtime true
                  (whole_word (fst e)) (s ", please"))) common_typos = true)
      by (vm_compute; reflexivity).
    rewrite forallb_forall in A. specialize (A _ H).
    now apply negb_true_iff in A.
Defined.
